(** * Smart-EDT image editor: the raster editing engine

    A shallow embedding of the editor component of [src/App.tsx]
    (the second, smaller copy in [src/components/ImageEditor.tsx] has the
    same flood fill, history and coordinate code, without the brush,
    pipette and text-box tools), followed by the toolbar, whole editing
    sessions, the text layout of a text box and the developer-mode
    switch of [App].

    Conventions.
    - Pixel data, array indices and loop counters are [Z].
    - A JavaScript value read from an array is an [option Z]: [None] is
      [undefined] (and [NaN] once it enters arithmetic).
    - Pointer coordinates, the view scale and the pan offset are IEEE 754
      binary64 numbers, as in JavaScript: Rocq's primitive [float].
    - The canvas is the RGBA byte array of the data model; reading it with
      [getImageData] and writing it back with [putImageData] copy bytes
      (no alpha premultiplication is modelled).
    - The handlers run while the component is mounted, so the canvas and
      its 2d context exist: the [if (!canvas || !ctx) return] exits are
      not represented.
    - A canvas call that throws has an [option] result, [None] being the
      exception; what the handler has set before it stays set. *)

From Stdlib Require Import ZArith Lia Bool List PrimFloat FloatOps SpecFloat Uint63.
From Stdlib Require FloatAxioms.
From Stdlib Require Import Ascii.
From stdpp Require Import base option list strings gmap.

Set Warnings "-inexact-float".
Local Open Scope Z_scope.

(** ** Typed arrays *)

(** [a[i]] on a typed array; [undefined] outside [0, length). *)
Definition aget (a : list Z) (i : Z) : option Z :=
  if i <? 0 then None else a !! Z.to_nat i.

(** [a[i] = v] on a typed array; ignored outside [0, length). *)
Definition aput (a : list Z) (i v : Z) : list Z :=
  if i <? 0 then a else <[Z.to_nat i := v]> a.

(** Truthiness of an array element: [undefined] and [0] are falsy. *)
Definition truthy (v : option Z) : bool :=
  match v with
  | Some n => negb (n =? 0)
  | None => false
  end.

(** ** ImageData *)

Record ImageData := mkImageData {
  width : Z;
  height : Z;
  data : list Z
}.

(** The invariant of the data model: 4 bytes per pixel, row-major. *)
Definition wf_image (img : ImageData) : Prop :=
  0 <= width img /\ 0 <= height img /\
  Z.of_nat (length (data img)) = width img * height img * 4.

(** The RGBA value of pixel (x, y), for 0 <= x < width. *)
Definition pixelAt (w : Z) (d : list Z) (x y : Z)
  : option Z * option Z * option Z * option Z :=
  let p := (y * w + x) * 4 in
  (aget d p, aget d (p + 1), aget d (p + 2), aget d (p + 3)).

Definition opaqueWhite : option Z * option Z * option Z * option Z :=
  (Some 255, Some 255, Some 255, Some 255).

(** ** JavaScript numbers *)

(** An integer as a double (exact below 2^53). *)
Definition num (z : Z) : float :=
  if z <? 0 then PrimFloat.opp (PrimFloat.of_uint63 (Uint63.of_Z (- z)))
  else PrimFloat.of_uint63 (Uint63.of_Z z).

(** The value of [Math.floor(f)]: an integer, [NaN] or an infinity. *)
Inductive floored :=
| Fin (z : Z)
| NaN
| Inf (negative : bool).

Definition Math_floor (f : float) : floored :=
  match Prim2SF f with
  | S754_zero _ => Fin 0
  | S754_infinity s => Inf s
  | S754_nan => NaN
  | S754_finite s m e => Fin (Z.shiftl (if s then Z.neg m else Z.pos m) e)
  end.

(** [a < n] and [a >= n] for a floored number and an integer; every
    comparison with [NaN] is false. *)
Definition floored_lt (a : floored) (n : Z) : bool :=
  match a with
  | Fin z => z <? n
  | NaN => false
  | Inf negative => negative
  end.

Definition floored_ge (a : floored) (n : Z) : bool :=
  match a with
  | Fin z => z >=? n
  | NaN => false
  | Inf negative => negb negative
  end.

(** A floored number as a stack entry or array index ([None] is [NaN]). *)
Definition floored_index (a : floored) : option Z :=
  match a with
  | Fin z => Some z
  | _ => None
  end.

(** The integer a double stands for, if it is one. *)
Definition float_index (f : float) : option Z :=
  match Prim2SF f with
  | S754_zero _ => Some 0
  | S754_finite s m e =>
      let v := if s then Z.neg m else Z.pos m in
      if e >=? 0 then Some (Z.shiftl v e)
      else if Z.land (Z.pos m) (Z.ones (- e)) =? 0 then Some (Z.shiftl v e)
      else None
  | _ => None
  end.

(** [Math.max] and [Math.min] of two numbers: [NaN] if one is [NaN], and
    [+0] is larger than [-0]. *)
Definition Math_max (a b : float) : float :=
  if PrimFloat.is_nan a || PrimFloat.is_nan b then PrimFloat.nan
  else if PrimFloat.ltb a b then b
  else if PrimFloat.ltb b a then a
  else if PrimFloat.get_sign a then b else a.

Definition Math_min (a b : float) : float :=
  if PrimFloat.is_nan a || PrimFloat.is_nan b then PrimFloat.nan
  else if PrimFloat.ltb a b then a
  else if PrimFloat.ltb b a then b
  else if PrimFloat.get_sign a then a else b.

Definition Math_abs (a : float) : float := PrimFloat.abs a.

(** The number of integers [k >= 0] with [k < f]: how often
    [for (k = 0; k < f; k++)] runs.  ([f] is never [+Infinity] where this
    is used: it is bounded by a canvas dimension.) *)
Definition loopCount (f : float) : Z :=
  match Prim2SF f with
  | S754_finite false m e => - Z.shiftl (Z.neg m) e
  | _ => 0
  end.

(** ** Flood fill (color wand): [removeColorAt], the part after the bounds check *)

Definition tolerance : Z := 40.

(** [matchColor]: [Math.sqrt(dr^2 + dg^2 + db^2) < tolerance].  The
    differences, their squares and the sum are integers far below 2^53,
    which doubles hold exactly: they are computed in [Z].  The square root
    and the comparison are the double-precision ones.  With an [undefined]
    operand the distance is [NaN] and the comparison is false. *)
Definition matchColor (targetR targetG targetB r g b : option Z) : bool :=
  match targetR, targetG, targetB, r, g, b with
  | Some tR, Some tG, Some tB, Some r, Some g, Some b =>
      let distance :=
        PrimFloat.sqrt (num ((r - tR) ^ 2 + (g - tG) ^ 2 + (b - tB) ^ 2)) in
      PrimFloat.ltb distance (num tolerance)
  | _, _, _, _, _, _ => false
  end.

(** The variables of the traversal loop.  [fstack] is the JavaScript array
    [stack] with its last element first: [stack.pop()] takes the head and
    [stack.push(a, b)] conses [a] then [b].  An entry is [None] when it is
    [NaN] (or [undefined], popped from an empty array). *)
Record fill := mkFill {
  fdata : list Z;
  fvisited : list Z;
  fstack : list (option Z)
}.

(** The four writes [data[p] = 255; ...; data[p+3] = 255]. *)
Definition fill4 (d : list Z) (p : Z) : list Z :=
  aput (aput (aput (aput d p 255) (p + 1) 255) (p + 2) 255) (p + 3) 255.

(** One iteration of [while (stack.length > 0)]. *)
Definition floodStep (w h : Z) (tR tG tB : option Z) (s : fill) : fill :=
  match fstack s with
  | [] => s
  | [ _ ] =>
      (* x is undefined: idx is NaN, both array accesses miss *)
      mkFill (fdata s) (fvisited s) []
  | Some y :: Some x :: rest =>
      let idx := y * w + x in
      if truthy (aget (fvisited s) idx) then mkFill (fdata s) (fvisited s) rest
      else
        let visited := aput (fvisited s) idx 1 in
        let p := idx * 4 in
        if matchColor tR tG tB
             (aget (fdata s) p) (aget (fdata s) (p + 1)) (aget (fdata s) (p + 2))
        then
          let d := fill4 (fdata s) p in
          let s1 := if (x >? 0) && negb (truthy (aget visited (idx - 1)))
                    then Some y :: Some (x - 1) :: rest else rest in
          let s2 := if (x <? w - 1) && negb (truthy (aget visited (idx + 1)))
                    then Some y :: Some (x + 1) :: s1 else s1 in
          let s3 := if (y >? 0) && negb (truthy (aget visited (idx - w)))
                    then Some (y - 1) :: Some x :: s2 else s2 in
          let s4 := if (y <? h - 1) && negb (truthy (aget visited (idx + w)))
                    then Some (y + 1) :: Some x :: s3 else s3 in
          mkFill d visited s4
        else mkFill (fdata s) visited rest
  | _ :: _ :: rest =>
      (* idx is NaN: visited[NaN] is undefined, the write to it is ignored,
         data[NaN] is undefined and matchColor is false *)
      mkFill (fdata s) (fvisited s) rest
  end.

(** The loop, with an iteration budget; it stops when the stack is empty. *)
Fixpoint floodLoop (fuel : nat) (w h : Z) (tR tG tB : option Z) (s : fill) : fill :=
  match fuel with
  | O => s
  | S n =>
      match fstack s with
      | [] => s
      | _ :: _ => floodLoop n w h tR tG tB (floodStep w h tR tG tB s)
      end
  end.

(** The number of [stack.push] calls made by one iteration. *)
Definition pushesOfStep (w h : Z) (tR tG tB : option Z) (s : fill) : nat :=
  match fstack s with
  | Some y :: Some x :: rest =>
      let idx := y * w + x in
      if truthy (aget (fvisited s) idx) then 0%nat
      else
        let visited := aput (fvisited s) idx 1 in
        let p := idx * 4 in
        if matchColor tR tG tB
             (aget (fdata s) p) (aget (fdata s) (p + 1)) (aget (fdata s) (p + 2))
        then
          let n1 := if (x >? 0) && negb (truthy (aget visited (idx - 1)))
                    then 1%nat else 0%nat in
          let n2 := if (x <? w - 1) && negb (truthy (aget visited (idx + 1)))
                    then 1%nat else 0%nat in
          let n3 := if (y >? 0) && negb (truthy (aget visited (idx - w)))
                    then 1%nat else 0%nat in
          let n4 := if (y <? h - 1) && negb (truthy (aget visited (idx + w)))
                    then 1%nat else 0%nat in
          (n1 + n2 + n3 + n4)%nat
        else 0%nat
  | _ => 0%nat
  end.

(** The number of [stack.push] calls made by the whole loop. *)
Fixpoint pushesOfLoop (fuel : nat) (w h : Z) (tR tG tB : option Z) (s : fill) : nat :=
  match fuel with
  | O => 0%nat
  | S n =>
      match fstack s with
      | [] => 0%nat
      | _ :: _ =>
          (pushesOfStep w h tR tG tB s +
           pushesOfLoop n w h tR tG tB (floodStep w h tR tG tB s))%nat
      end
  end.

(** The number of iterations the loop runs within the budget. *)
Fixpoint iterations (fuel : nat) (w h : Z) (tR tG tB : option Z) (s : fill) : nat :=
  match fuel with
  | O => 0%nat
  | S n =>
      match fstack s with
      | [] => 0%nat
      | _ :: _ => S (iterations n w h tR tG tB (floodStep w h tR tG tB s))
      end
  end.

(** Every visit pushes at most four entries and each cell is visited once:
    [4 * width * height + 1] iterations are enough. *)
Definition floodBudget (w h : Z) : nat := Z.to_nat (4 * w * h + 1).

(** The loop state right after [const stack = [sx, sy]] and
    [new Uint8Array(width * height)]. *)
Definition floodInit (w h : Z) (d : list Z) (sx sy : option Z) : fill :=
  mkFill d (replicate (Z.to_nat (w * h)) 0) [sy; sx].

(** The body of [removeColorAt] between the bounds check and
    [ctx.putImageData]: [None] when it returns early on a near-white or
    near-black seed, otherwise the filled pixel data. *)
Definition wandFill (w h : Z) (d : list Z) (sx sy : option Z) : option (list Z) :=
  let startIndex := match sx, sy with
                    | Some x, Some y => Some ((y * w + x) * 4)
                    | _, _ => None
                    end in
  let at_ (k : Z) := match startIndex with
                     | Some i => aget d (i + k)
                     | None => None
                     end in
  let targetR := at_ 0 in
  let targetG := at_ 1 in
  let targetB := at_ 2 in
  let gt (v : option Z) (n : Z) := match v with Some c => c >? n | None => false end in
  let lt (v : option Z) (n : Z) := match v with Some c => c <? n | None => false end in
  if gt targetR 240 && gt targetG 240 && gt targetB 240 then None
  else if lt targetR 50 && lt targetG 50 && lt targetB 50 then None
  else
    let s := floodLoop (floodBudget w h) w h targetR targetG targetB
               (floodInit w h d sx sy) in
    Some (fdata s).

(** A 3x2 image: a blue-ish L-shaped region around the seed (0,0), a white
    separator, and one more blue-ish pixel that is not connected to it. *)
Definition demoData : list Z :=
  [120;120;200;255;  125;118;205;255;  255;255;255;255;
   119;121;199;255;  255;255;255;255;  120;120;200;255].

(** The number of cells of [visited] that are still 0. *)
Fixpoint zeros (v : list Z) : nat :=
  match v with
  | [] => 0%nat
  | n :: v' => if n =? 0 then S (zeros v') else zeros v'
  end.

(** Pixel (x, y) lies in a [w] x [h] buffer. *)
Definition inBounds (w h x y : Z) : Prop := 0 <= x < w /\ 0 <= y < h.

(** The stack holds (x, y) pairs of in-bounds pixels. *)
Inductive stack_ok (w h : Z) : list (option Z) -> Prop :=
| stack_ok_nil : stack_ok w h []
| stack_ok_push x y rest :
    inBounds w h x y -> stack_ok w h rest ->
    stack_ok w h (Some y :: Some x :: rest).

(** Pixel (x, y) is on the stack. *)
Inductive on_stack (x y : Z) : list (option Z) -> Prop :=
| on_stack_top rest : on_stack x y (Some y :: Some x :: rest)
| on_stack_below a b rest : on_stack x y rest -> on_stack x y (a :: b :: rest).

(** *** The region the wand is meant to fill *)

(** [matchColor] at pixel (x, y) of [d]. *)
Definition matchesAt (w : Z) (d : list Z) (tR tG tB : option Z) (x y : Z) : bool :=
  let '(r, g, b, _) := pixelAt w d x y in matchColor tR tG tB r g b.

(** The color of pixel (x, y) of [d] is at Euclidean RGB distance below
    the tolerance from (tR, tG, tB), said on the squares. *)
Definition withinTolerance (w : Z) (d : list Z) (tR tG tB : Z) (x y : Z) : Prop :=
  exists r g b a,
    pixelAt w d x y = (Some r, Some g, Some b, a) /\
    (r - tR) ^ 2 + (g - tG) ^ 2 + (b - tB) ^ 2 < tolerance ^ 2.

(** 4-connectivity: (x', y') is the left, right, upper or lower neighbour
    of (x, y). *)
Definition adjacent4 (x y x' y' : Z) : Prop :=
  (x' = x - 1 /\ y' = y) \/ (x' = x + 1 /\ y' = y) \/
  (x' = x /\ y' = y - 1) \/ (x' = x /\ y' = y + 1).

(** The pixels reachable from the seed (sx, sy) by a 4-connected path that
    stays in the buffer and runs through pixels satisfying [P] only. *)
Inductive region (w h : Z) (P : Z -> Z -> Prop) (sx sy : Z) : Z -> Z -> Prop :=
| region_seed :
    inBounds w h sx sy -> P sx sy -> region w h P sx sy sx sy
| region_step x y x' y' :
    region w h P sx sy x y ->
    adjacent4 x y x' y' -> inBounds w h x' y' -> P x' y' ->
    region w h P sx sy x' y'.

(** The values of a [Uint8ClampedArray]. *)
Definition isByte (v : Z) : Prop := 0 <= v <= 255.

(** The comparison of [matchColor] agrees with the one on the squares for
    [n] consecutive sums of squares from [d] on. *)
Fixpoint sqrtCheck (n : nat) (d : Z) : bool :=
  match n with
  | O => true
  | S k =>
      Bool.eqb (PrimFloat.ltb (PrimFloat.sqrt (num d)) (num tolerance))
               (d <? tolerance ^ 2)
      && sqrtCheck k (d + 1)
  end.

(** ** Background-color inference (text eraser), [handlePointerUp] *)

(** The r, g, b values read for one sampled position. *)
Definition Sample : Type := option Z * option Z * option Z.

(** [Math.round(c / 5) * 5] for a channel value; [NaN] if it is [undefined]. *)
Definition quantize (c : option Z) : option Z :=
  match c with
  | Some v => Some ((2 * v + 5) / 10 * 5)
  | None => None
  end.

(** The bucket key, the template string of the three quantized channels;
    the string is determined by, and determines, the three numbers. *)
Definition keyOf (s : Sample) : Sample :=
  let '(r, g, b) := s in (quantize r, quantize g, quantize b).

(** [r < 80 && g < 80 && b < 80]; false on [undefined]. *)
Definition isDark (s : Sample) : bool :=
  let lt80 (c : option Z) := match c with Some v => v <? 80 | None => false end in
  let '(r, g, b) := s in lt80 r && lt80 g && lt80 b.

Record Bucket := mkBucket {
  bucket_r : option Z;
  bucket_g : option Z;
  bucket_b : option Z;
  count : Z
}.

(** The variables of the sampling loops. *)
Record Infer := mkInfer {
  colors : gmap Sample Bucket;
  maxCount : Z;
  bg : Sample
}.

Definition inferInit : Infer := mkInfer ∅ 0 (Some 255, Some 255, Some 255).

(** The loop body from [const r = ...] on, for one sampled position. *)
Definition inferSample (st : Infer) (s : Sample) : Infer :=
  if isDark s then st
  else
    let key := keyOf s in
    let '(r, g, b) := s in
    let colors1 := match colors st !! key with
                   | Some _ => colors st
                   | None => <[key := mkBucket r g b 0]> (colors st)
                   end in
    let colors2 := alter (fun bk => mkBucket (bucket_r bk) (bucket_g bk) (bucket_b bk)
                                      (count bk + 1)) key colors1 in
    let n := match colors2 !! key with Some bk => count bk | None => 0 end in
    if n >? maxCount st then mkInfer colors2 n s
    else mkInfer colors2 (maxCount st) (bg st).

(** [sampleData[i]] for a number [i]. *)
Definition fget (a : list Z) (i : float) : option Z :=
  match float_index i with
  | Some z => aget a z
  | None => None
  end.

(** The test that selects the outermost pixels. *)
Definition onEdge (sampleW sampleH : float) (px py : Z) : bool :=
  (px =? 0) || PrimFloat.eqb (num px) (sampleW - 1)%float ||
  (py =? 0) || PrimFloat.eqb (num py) (sampleH - 1)%float.

(** The three reads at position (px, py). *)
Definition readSample (sampleW : float) (sampleData : list Z) (px py : Z) : Sample :=
  let i := ((num py * sampleW + num px) * 4)%float in
  (fget sampleData i, fget sampleData (i + 1)%float, fget sampleData (i + 2)%float).

(** The body of the inner [for]. *)
Definition inferPixel (sampleW sampleH : float) (sampleData : list Z)
    (st : Infer) (px py : Z) : Infer :=
  if onEdge sampleW sampleH px py
  then inferSample st (readSample sampleW sampleData px py)
  else st.

(** The two nested loops and the color they leave in [bgR, bgG, bgB]. *)
Definition inferBgColor (sampleW sampleH : float) (sampleData : list Z) : Sample :=
  let rows := seqZ 0 (loopCount sampleH) in
  let cols := seqZ 0 (loopCount sampleW) in
  let st := foldl (fun st py =>
                     foldl (fun st px => inferPixel sampleW sampleH sampleData st px py)
                           st cols)
                  inferInit rows in
  bg st.

(** *** What the loops compute, said on the sequence of samples *)

(** The positions the loops go through: row-major, left to right, top to
    bottom. *)
Definition scanOrder (sampleW sampleH : float) : list (Z * Z) :=
  py ← seqZ 0 (loopCount sampleH);
  px ← seqZ 0 (loopCount sampleW);
  [(px, py)].

(** The samples that are counted, in scan order: the reads at the
    positions that pass the edge test and that survive the dark-pixel
    discard. *)
Definition keptSamples (sampleW sampleH : float) (sampleData : list Z) : list Sample :=
  filter (fun s => isDark s = false)
    ((fun p : Z * Z => readSample sampleW sampleData p.1 p.2) <$>
       filter (fun p : Z * Z => onEdge sampleW sampleH p.1 p.2 = true)
         (scanOrder sampleW sampleH)).

(** The number of samples of [l] in bucket [k]. *)
Definition population (l : list Sample) (k : Sample) : Z :=
  Z.of_nat (length (filter (fun s => keyOf s = k) l)).

(** The result as the specification words it: the first color seen in the
    most-populous bucket, the earliest-seen bucket winning a tie. *)
Definition firstInMostPopulous (l : list Sample) (c : Sample) : Prop :=
  exists j, l !! j = Some c /\
    (forall i s, l !! i = Some s -> keyOf s = keyOf c -> (j <= i)%nat) /\
    (forall k, population l k <= population l (keyOf c)) /\
    (forall i s, l !! i = Some s ->
       population l (keyOf s) = population l (keyOf c) -> (j <= i)%nat).

(** [colors[k].count], 0 while the bucket does not exist. *)
Definition bucketCount (st : Infer) (k : Sample) : Z :=
  match colors st !! k with
  | Some bk => count bk
  | None => 0
  end.

(** What the loops leave, in the words of the code: the last color seen in
    a most-populous bucket, and among several most-populous buckets the one
    whose last sample comes first. *)
Definition lastInMostPopulous (l : list Sample) (c : Sample) : Prop :=
  exists j, l !! j = Some c /\
    (forall k, population l k <= population l (keyOf c)) /\
    (forall i s, l !! i = Some s -> keyOf s = keyOf c -> (i <= j)%nat) /\
    (forall k, k <> keyOf c -> population l k = population l (keyOf c) ->
       exists i s, (j < i)%nat /\ l !! i = Some s /\ keyOf s = k).

(** ** The editor state *)

Inductive Tool := wand | eraser | remove_text | hand | pipette | text_box | brush.

Definition Tool_eqb (a b : Tool) : bool :=
  match a, b with
  | wand, wand | eraser, eraser | remove_text, remove_text | hand, hand
  | pipette, pipette | text_box, text_box | brush, brush => true
  | _, _ => false
  end.

Record Pos := mkPos { posX : float; posY : float }.

(** A CSS color as the editor writes it: ['#rrggbb'] or ['rgb(r, g, b)'],
    whose components print as [undefined] when they are. *)
Inductive Style :=
| CssHex (rgb : Z)
| CssRgb (r g b : option Z).

(** The text-box rectangle [{x, y, w, h}]. *)
Record Box := mkBox { boxX : float; boxY : float; boxW : float; boxH : float }.

(** The part of the 2d context the tools set. *)
Record Context2D := mkContext2D {
  fillStyle : Style;
  strokeStyle : Style;
  lineWidth : float;
  lineCap : string;
  lineJoin : string;
  path : list Pos
}.

Record History := mkHistory {
  history : list ImageData;
  historyIndex : Z
}.

Record View := mkView {
  scale : float;
  panOffset : Pos;
  isRotated : bool;
  imageLoaded : bool;
  imageSize : Z * Z
}.

Record Gesture := mkGesture {
  isDrawing : bool;
  isPanning : bool;
  lastPanPos : Pos;
  lastTouchDistance : option float;
  startPos : Pos;
  currentPos : Pos
}.

Record Tools := mkTools {
  tool : Tool;
  prevTool : Tool;
  brushSize : float;
  manualBgColor : Style;
  useManualColor : bool;
  isEnteringText : bool;
  pendingTextBox : option Box
}.

(** The component: the canvas bitmap, its context, and the React state.
    A handler sees the state left by the previous event. *)
Record Editor := mkEditor {
  canvas : ImageData;
  ctx : Context2D;
  hist : History;
  view : View;
  gesture : Gesture;
  tools : Tools
}.

Definition withCanvas (c : ImageData) (st : Editor) : Editor :=
  mkEditor c (ctx st) (hist st) (view st) (gesture st) (tools st).
Definition withCtx (c : Context2D) (st : Editor) : Editor :=
  mkEditor (canvas st) c (hist st) (view st) (gesture st) (tools st).
Definition withHist (x : History) (st : Editor) : Editor :=
  mkEditor (canvas st) (ctx st) x (view st) (gesture st) (tools st).
Definition withView (v : View) (st : Editor) : Editor :=
  mkEditor (canvas st) (ctx st) (hist st) v (gesture st) (tools st).
Definition withGesture (g : Gesture) (st : Editor) : Editor :=
  mkEditor (canvas st) (ctx st) (hist st) (view st) g (tools st).
Definition withTools (t : Tools) (st : Editor) : Editor :=
  mkEditor (canvas st) (ctx st) (hist st) (view st) (gesture st) t.

Definition setScale (f : float -> float) (st : Editor) : Editor :=
  let v := view st in
  withView (mkView (f (scale v)) (panOffset v) (isRotated v) (imageLoaded v) (imageSize v)) st.
Definition setPanOffset (f : Pos -> Pos) (st : Editor) : Editor :=
  let v := view st in
  withView (mkView (scale v) (f (panOffset v)) (isRotated v) (imageLoaded v) (imageSize v)) st.

Definition setIsDrawing (b : bool) (st : Editor) : Editor :=
  let g := gesture st in
  withGesture (mkGesture b (isPanning g) (lastPanPos g) (lastTouchDistance g)
                 (startPos g) (currentPos g)) st.
Definition setIsPanning (b : bool) (st : Editor) : Editor :=
  let g := gesture st in
  withGesture (mkGesture (isDrawing g) b (lastPanPos g) (lastTouchDistance g)
                 (startPos g) (currentPos g)) st.
Definition setLastPanPos (p : Pos) (st : Editor) : Editor :=
  let g := gesture st in
  withGesture (mkGesture (isDrawing g) (isPanning g) p (lastTouchDistance g)
                 (startPos g) (currentPos g)) st.
Definition setLastTouchDistance (d : option float) (st : Editor) : Editor :=
  let g := gesture st in
  withGesture (mkGesture (isDrawing g) (isPanning g) (lastPanPos g) d
                 (startPos g) (currentPos g)) st.
Definition setStartPos (p : Pos) (st : Editor) : Editor :=
  let g := gesture st in
  withGesture (mkGesture (isDrawing g) (isPanning g) (lastPanPos g) (lastTouchDistance g)
                 p (currentPos g)) st.
Definition setCurrentPos (p : Pos) (st : Editor) : Editor :=
  let g := gesture st in
  withGesture (mkGesture (isDrawing g) (isPanning g) (lastPanPos g) (lastTouchDistance g)
                 (startPos g) p) st.

Definition setTool (t : Tool) (st : Editor) : Editor :=
  let x := tools st in
  withTools (mkTools t (prevTool x) (brushSize x) (manualBgColor x) (useManualColor x)
               (isEnteringText x) (pendingTextBox x)) st.
Definition setPrevTool (t : Tool) (st : Editor) : Editor :=
  let x := tools st in
  withTools (mkTools (tool x) t (brushSize x) (manualBgColor x) (useManualColor x)
               (isEnteringText x) (pendingTextBox x)) st.
Definition setManualBgColor (c : Style) (st : Editor) : Editor :=
  let x := tools st in
  withTools (mkTools (tool x) (prevTool x) (brushSize x) c (useManualColor x)
               (isEnteringText x) (pendingTextBox x)) st.
Definition setUseManualColor (b : bool) (st : Editor) : Editor :=
  let x := tools st in
  withTools (mkTools (tool x) (prevTool x) (brushSize x) (manualBgColor x) b
               (isEnteringText x) (pendingTextBox x)) st.
Definition setIsEnteringText (b : bool) (st : Editor) : Editor :=
  let x := tools st in
  withTools (mkTools (tool x) (prevTool x) (brushSize x) (manualBgColor x)
               (useManualColor x) b (pendingTextBox x)) st.
Definition setPendingTextBox (b : option Box) (st : Editor) : Editor :=
  let x := tools st in
  withTools (mkTools (tool x) (prevTool x) (brushSize x) (manualBgColor x)
               (useManualColor x) (isEnteringText x) b) st.

(** [ctx.fillStyle = v]: an assignment the browser cannot parse as a color
    (a component printed as [undefined]) is ignored. *)
Definition validStyle (v : Style) : bool :=
  match v with
  | CssHex _ => true
  | CssRgb (Some _) (Some _) (Some _) => true
  | CssRgb _ _ _ => false
  end.

Definition setFillStyle (v : Style) (st : Editor) : Editor :=
  if validStyle v then
    let c := ctx st in
    withCtx (mkContext2D v (strokeStyle c) (lineWidth c) (lineCap c) (lineJoin c) (path c)) st
  else st.

(** ** History: [saveState], [undo], [redo] *)

(** [l.slice(0, e)]. *)
Definition slice0 {A : Type} (l : list A) (e : Z) : list A :=
  let len := Z.of_nat (length l) in
  let k := if e <? 0 then Z.max (len + e) 0 else Z.min e len in
  take (Z.to_nat k) l.

(** [l[i]] on an ordinary array. *)
Definition nth_js {A : Type} (l : list A) (i : Z) : option A :=
  if i <? 0 then None else l !! Z.to_nat i.

(** [ctx.getImageData(0, 0, canvas.width, canvas.height)]: a copy of the
    whole bitmap. *)
Definition getImageData (c : ImageData) : ImageData :=
  mkImageData (width c) (height c) (data c).

(** Byte [i] of the canvas after [ctx.putImageData(img, 0, 0)]: the byte of
    [img] at the same pixel where [img] covers it. *)
Definition putByte (img : ImageData) (cw : Z) (i : nat) (v : Z) : Z :=
  let p := Z.of_nat i / 4 in
  let ch := Z.of_nat i mod 4 in
  let x := p mod cw in
  let y := p / cw in
  if (x <? width img) && (y <? height img)
  then default v (aget (data img) ((y * width img + x) * 4 + ch))
  else v.

(** [ctx.putImageData(img, 0, 0)]; the canvas keeps its size. *)
Definition putImageData (img : ImageData) (c : ImageData) : ImageData :=
  mkImageData (width c) (height c) (imap (putByte img (width c)) (data c)).

Definition saveState (st : Editor) : Editor :=
  let imageData := getImageData (canvas st) in
  let newHistory := slice0 (history (hist st)) (historyIndex (hist st) + 1) ++ [imageData] in
  withHist (mkHistory newHistory (Z.of_nat (length newHistory) - 1)) st.

(** [undo] and [redo] return [None] when [ctx.putImageData] would throw on
    an [undefined] snapshot. *)
Definition undo (st : Editor) : option Editor :=
  if historyIndex (hist st) >? 0 then
    let newIndex := historyIndex (hist st) - 1 in
    match nth_js (history (hist st)) newIndex with
    | Some img =>
        Some (withCanvas (putImageData img (canvas st))
                (withHist (mkHistory (history (hist st)) newIndex) st))
    | None => None
    end
  else Some st.

Definition redo (st : Editor) : option Editor :=
  if historyIndex (hist st) <? Z.of_nat (length (history (hist st))) - 1 then
    let newIndex := historyIndex (hist st) + 1 in
    match nth_js (history (hist st)) newIndex with
    | Some img =>
        Some (withCanvas (putImageData img (canvas st))
                (withHist (mkHistory (history (hist st)) newIndex) st))
    | None => None
    end
  else Some st.

(** ** What the browser supplies *)

(** A drawing primitive changes pixels, never the size of the bitmap. *)
Definition sameShape (c c' : ImageData) : Prop :=
  width c' = width c /\ height c' = height c /\ length (data c') = length (data c).

(** The canvas and [Math] primitives the editor calls and this development
    does not define: rasterisation ([fillRect], [stroke], the text-box
    compositing), reading a sub-rectangle ([None] when it throws), and the
    transcendental functions. *)
Record CanvasAPI := mkCanvasAPI {
  fillRect : Context2D -> float -> float -> float -> float -> ImageData -> ImageData;
  stroke : Context2D -> ImageData -> ImageData;
  drawTextBox : Box -> Context2D -> ImageData -> ImageData;
  getImageDataRect : float -> float -> float -> float -> ImageData -> option (list Z);
  Math_pow : float -> float -> float;
  Math_hypot : float -> float -> float;
  fillRect_shape : forall cx x y w h c, sameShape c (fillRect cx x y w h c);
  stroke_shape : forall cx c, sameShape c (stroke cx c);
  drawTextBox_shape : forall b cx c, sameShape c (drawTextBox b cx c)
}.

(** ** Events *)

Record DOMRect := mkDOMRect {
  left : float;
  top : float;
  right : float;
  rectWidth : float;
  rectHeight : float
}.

Record Touch := mkTouch { touchX : float; touchY : float }.

(** A mouse event, or a touch event with its non-empty [touches] list. *)
Inductive PointerEvent :=
| MouseEvent (clientX clientY : float) (button : Z)
| TouchEvent (first : Touch) (others : list Touch).

Record WheelEvent := mkWheelEvent {
  wheelCtrlKey : bool;
  wheelMetaKey : bool;
  wheelShiftKey : bool;
  deltaX : float;
  deltaY : float;
  wheelClientX : float;
  wheelClientY : float
}.

Record KeyboardEvent := mkKeyboardEvent {
  targetIsInput : bool;
  code : string;
  key : string;
  ctrlKey : bool;
  metaKey : bool
}.

(** The layout at the time of an event: [canvas.getBoundingClientRect()],
    the container's rectangle and its client size. *)
Record Env := mkEnv {
  canvasRect : DOMRect;
  containerRect : DOMRect;
  containerClientWidth : float;
  containerClientHeight : float
}.

Inductive Event :=
| Wheel (e : WheelEvent)
| PointerDown (e : PointerEvent)
| PointerMove (e : PointerEvent)
| PointerUp
| KeyDown (e : KeyboardEvent)
| KeyUp (e : KeyboardEvent)
| ZoomOutClick
| ZoomInClick
| ResetViewClick.

(** [e.touches.length === 2]. *)
Definition twoTouches (e : PointerEvent) : bool :=
  match e with
  | TouchEvent _ [ _ ] => true
  | _ => false
  end.

(** [e.button === 1] ([undefined] on a touch event). *)
Definition middleButton (e : PointerEvent) : bool :=
  match e with
  | MouseEvent _ _ b => b =? 1
  | TouchEvent _ _ => false
  end.

(** [touches[0].clientX / clientY], or the mouse position. *)
Definition clientOf (e : PointerEvent) : float * float :=
  match e with
  | MouseEvent cx cy _ => (cx, cy)
  | TouchEvent t _ => (touchX t, touchY t)
  end.

(** ** The view transform: [getMousePos] *)

Definition getMousePos (rect : DOMRect) (e : PointerEvent) (st : Editor) : Pos :=
  let '(clientX, clientY) := clientOf e in
  let cw := num (width (canvas st)) in
  let ch := num (height (canvas st)) in
  if isRotated (view st) then
    mkPos ((clientY - top rect) * (cw / rectHeight rect))%float
          ((right rect - clientX) * (ch / rectWidth rect))%float
  else
    mkPos ((clientX - left rect) * (cw / rectWidth rect))%float
          ((clientY - top rect) * (ch / rectHeight rect))%float.

(** ** The handlers *)

Section Handlers.

Variable api : CanvasAPI.

(** [removeColorAt]. *)
Definition removeColorAt (startX startY : float) (st : Editor) : Editor :=
  let w := width (canvas st) in
  let h := height (canvas st) in
  let imageData := getImageData (canvas st) in
  let sx := Math_floor startX in
  let sy := Math_floor startY in
  if floored_lt sx 0 || floored_ge sx w || floored_lt sy 0 || floored_ge sy h then st
  else
    match wandFill w h (data imageData) (floored_index sx) (floored_index sy) with
    | None => st
    | Some d =>
        saveState (withCanvas (putImageData (mkImageData w h d) (canvas st)) st)
    end.

(** The conversion of an argument of [getImageData] to a [long] under
    [EnforceRange]: [None] when it throws a [TypeError], which it does on
    [NaN], on an infinity and on a value outside the 32-bit integers. *)
Definition toLong (a : floored) : option Z :=
  match a with
  | Fin z => if (- 2 ^ 31 <=? z) && (z <=? 2 ^ 31 - 1) then Some z else None
  | _ => None
  end.

(** The pixel [ctx.getImageData(Math.floor(x), Math.floor(y), 1, 1).data]:
    [None] when the call throws; transparent black outside the canvas. *)
Definition pixelData (c : ImageData) (x y : float) : option (Z * Z * Z) :=
  match toLong (Math_floor x), toLong (Math_floor y) with
  | Some px, Some py =>
      if (0 <=? px) && (px <? width c) && (0 <=? py) && (py <? height c) then
        let '(r, g, b, _) := pixelAt (width c) (data c) px py in
        Some (default 0 r, default 0 g, default 0 b)
      else Some (0, 0, 0)
  | _, _ => None
  end.

(** [sampleColorAt]; [None] when [getImageData] throws, which is before
    any state is set. *)
Definition sampleColorAt (x y : float) (st : Editor) : option Editor :=
  match pixelData (canvas st) x y with
  | Some (r, g, b) =>
      let color := CssHex (Z.shiftl r 16 + Z.shiftl g 8 + b) in
      Some (setTool remove_text (setUseManualColor true (setManualBgColor color st)))
  | None => None
  end.

Definition resetView (env : Env) (st : Editor) : Editor :=
  let st := setPanOffset (fun _ => mkPos 0 0) st in
  if imageLoaded (view st) then
    let containerWidth := (containerClientWidth env - 40)%float in
    let containerHeight := (containerClientHeight env - 40)%float in
    let availW := if isRotated (view st) then containerHeight else containerWidth in
    let availH := if isRotated (view st) then containerWidth else containerHeight in
    let fitScale := Math_min (Math_min (availW / num (imageSize (view st)).1)%float
                                       (availH / num (imageSize (view st)).2)%float) 1 in
    setScale (fun _ => fitScale) st
  else setScale (fun _ => 1%float) st.

Definition handleKeyDown (env : Env) (e : KeyboardEvent) (st : Editor) : Editor :=
  if targetIsInput e then st
  else
    let st1 := if String.eqb (code e) "Space" && negb (Tool_eqb (tool (tools st)) hand)
               then setTool hand (setPrevTool (tool (tools st)) st)
               else st in
    if ctrlKey e || metaKey e then
      if String.eqb (key e) "=" || String.eqb (key e) "+" then
        setScale (fun s => Math_min 10 (s + 0.2)%float) st1
      else if String.eqb (key e) "-" then
        setScale (fun s => Math_max 0.1 (s - 0.2)%float) st1
      else if String.eqb (key e) "0" then resetView env st1
      else st1
    else st1.

Definition handleKeyUp (e : KeyboardEvent) (st : Editor) : Editor :=
  if targetIsInput e then st
  else if String.eqb (code e) "Space" && Tool_eqb (tool (tools st)) hand
  then setTool (prevTool (tools st)) st
  else st.

Definition handleWheel (env : Env) (e : WheelEvent) (st : Editor) : Editor :=
  if wheelCtrlKey e || wheelMetaKey e then
    let delta := (- deltaY e)%float in
    let factor := Math_pow api 1.1 (delta / 100)%float in
    let oldScale := scale (view st) in
    let newScale := Math_min (Math_max 0.1 (oldScale * factor)%float) 10 in
    if negb (PrimFloat.eqb newScale oldScale) then
      let rect := containerRect env in
      let mouseX := (wheelClientX e - left rect - rectWidth rect / 2)%float in
      let mouseY := (wheelClientY e - top rect - rectHeight rect / 2)%float in
      let scaleRatio := (newScale / oldScale)%float in
      setScale (fun _ => newScale)
        (setPanOffset (fun prev =>
           mkPos (mouseX - (mouseX - posX prev) * scaleRatio)%float
                 (mouseY - (mouseY - posY prev) * scaleRatio)%float) st)
    else st
  else
    let shifted := wheelShiftKey e && PrimFloat.eqb (deltaX e) 0 in
    let dx := if shifted then deltaY e else deltaX e in
    let dy := if shifted then 0%float else deltaY e in
    if isRotated (view st) then
      setPanOffset (fun prev => mkPos (posX prev - dy)%float (posY prev + dx)%float) st
    else
      setPanOffset (fun prev => mkPos (posX prev - dx)%float (posY prev - dy)%float) st.

Definition handlePointerDown (env : Env) (e : PointerEvent) (st : Editor) : Editor :=
  match e with
  | TouchEvent t0 [t1] =>
      let dist := Math_hypot api (touchX t0 - touchX t1)%float (touchY t0 - touchY t1)%float in
      let midX := ((touchX t0 + touchX t1) / 2)%float in
      let midY := ((touchY t0 + touchY t1) / 2)%float in
      setLastPanPos (mkPos midX midY)
        (setLastTouchDistance (Some dist) (setIsPanning true (setIsDrawing false st)))
  | _ =>
      if Tool_eqb (tool (tools st)) hand || middleButton e then
        let '(clientX, clientY) := clientOf e in
        setLastPanPos (mkPos clientX clientY) (setIsPanning true st)
      else
        let pos := getMousePos (canvasRect env) e st in
        let st := setIsDrawing true (setCurrentPos pos (setStartPos pos st)) in
        let st :=
          match tool (tools st) with
          | brush =>
              withCtx (mkContext2D (fillStyle (ctx st)) (CssHex 16777215)
                         (brushSize (tools st)) "round" "round" [pos]) st
          | _ => st
          end in
        match tool (tools st) with
        | wand => setIsDrawing false (removeColorAt (posX pos) (posY pos) st)
        | pipette =>
            (* an exception of [sampleColorAt] leaves the handler before
               [setIsDrawing(false)] *)
            match sampleColorAt (posX pos) (posY pos) st with
            | Some st' => setIsDrawing false st'
            | None => st
            end
        | _ => st
        end
  end.

Definition handlePointerMove (env : Env) (e : PointerEvent) (st : Editor) : Editor :=
  match e, lastTouchDistance (gesture st) with
  | TouchEvent t0 [t1], Some last =>
      let dist := Math_hypot api (touchX t0 - touchX t1)%float (touchY t0 - touchY t1)%float in
      let delta := (dist / last)%float in
      let midX := ((touchX t0 + touchX t1) / 2)%float in
      let midY := ((touchY t0 + touchY t1) / 2)%float in
      let dx := (midX - posX (lastPanPos (gesture st)))%float in
      let dy := (midY - posY (lastPanPos (gesture st)))%float in
      setLastPanPos (mkPos midX midY)
        (setPanOffset (fun prev => mkPos (posX prev + dx)%float (posY prev + dy)%float)
           (setLastTouchDistance (Some dist)
              (setScale (fun s => Math_min (Math_max 0.1 (s * delta)%float) 5) st)))
  | _, _ =>
      if isPanning (gesture st) then
        let '(clientX, clientY) := clientOf e in
        let dx := (clientX - posX (lastPanPos (gesture st)))%float in
        let dy := (clientY - posY (lastPanPos (gesture st)))%float in
        setLastPanPos (mkPos clientX clientY)
          (setPanOffset (fun prev => mkPos (posX prev + dx)%float (posY prev + dy)%float) st)
      else if negb (isDrawing (gesture st)) || Tool_eqb (tool (tools st)) wand then st
      else
        let pos := getMousePos (canvasRect env) e st in
        let st :=
          match tool (tools st) with
          | brush =>
              let c := ctx st in
              let c := mkContext2D (fillStyle c) (strokeStyle c) (lineWidth c)
                         (lineCap c) (lineJoin c) (path c ++ [pos]) in
              withCanvas (stroke api c (canvas st)) (withCtx c st)
          | _ => st
          end in
        setCurrentPos pos st
  end.

Definition handlePointerUp (st : Editor) : Editor :=
  let st := setLastTouchDistance None st in
  if isPanning (gesture st) then setIsPanning false st
  else if negb (isDrawing (gesture st)) then st
  else
    let st := setIsDrawing false st in
    let g := gesture st in
    let x := Math_min (posX (startPos g)) (posX (currentPos g)) in
    let y := Math_min (posY (startPos g)) (posY (currentPos g)) in
    let w := Math_abs (posX (currentPos g) - posX (startPos g))%float in
    let h := Math_abs (posY (currentPos g) - posY (startPos g))%float in
    if PrimFloat.eqb w 0 || PrimFloat.eqb h 0 then st
    else
      match tool (tools st) with
      | eraser =>
          let st := setFillStyle (CssHex 16777215) st in
          saveState (withCanvas (fillRect api (ctx st) x y w h (canvas st)) st)
      | brush => saveState st
      | text_box => setIsEnteringText true (setPendingTextBox (Some (mkBox x y w h)) st)
      | remove_text =>
          let fill (finalBgColor : Style) :=
            let st := setFillStyle finalBgColor st in
            saveState (withCanvas (fillRect api (ctx st) x y w h (canvas st)) st) in
          if useManualColor (tools st) then fill (manualBgColor (tools st))
          else
            let samplePadding := 2%float in
            let sampleX := Math_max 0 (x - samplePadding)%float in
            let sampleY := Math_max 0 (y - samplePadding)%float in
            let sampleW := Math_min (num (width (canvas st)) - sampleX)%float
                             (w + samplePadding * 2)%float in
            let sampleH := Math_min (num (height (canvas st)) - sampleY)%float
                             (h + samplePadding * 2)%float in
            match getImageDataRect api sampleX sampleY sampleW sampleH (canvas st) with
            | None => st
            | Some sampleData =>
                let '(bgR, bgG, bgB) := inferBgColor sampleW sampleH sampleData in
                fill (CssRgb bgR bgG bgB)
            end
      | _ => st
      end.

(** [commitTextBox]; [ctx.save()] and [ctx.restore()] bracket the drawing,
    so the styles of the context are as before.  (The path a rounded box
    leaves behind is not tracked: the brush starts a new path at its next
    press.) *)
Definition commitTextBox (st : Editor) : Editor :=
  match pendingTextBox (tools st) with
  | None => st
  | Some b =>
      let st := saveState (withCanvas (drawTextBox api b (ctx st) (canvas st)) st) in
      setPendingTextBox None (setIsEnteringText false st)
  end.

(** The event handlers attached to the editing surface and to the zoom
    buttons. *)
Definition handle (env : Env) (ev : Event) (st : Editor) : Editor :=
  match ev with
  | Wheel e => handleWheel env e st
  | PointerDown e => handlePointerDown env e st
  | PointerMove e => handlePointerMove env e st
  | PointerUp => handlePointerUp st
  | KeyDown e => handleKeyDown env e st
  | KeyUp e => handleKeyUp e st
  | ZoomOutClick => setScale (fun s => Math_max 0.1 (s - 0.1)%float) st
  | ZoomInClick => setScale (fun s => Math_min 10 (s + 0.2)%float) st
  | ResetViewClick => resetView env st
  end.

End Handlers.

(** The 2d context of a new or resized canvas. *)
Definition defaultContext2D : Context2D :=
  mkContext2D (CssHex 0) (CssHex 0) 1 "butt" "miter" [].

(** Loading the image ([img.onload]): the canvas takes the image's size
    and pixels, which resets its context, and the baseline snapshot is
    saved.  The [saveState] called here is the one of the first render,
    with an empty history; the model agrees with it when [loadImage] is
    applied to [mountedEditor]. *)
Definition loadImage (img : ImageData) (st : Editor) : Editor :=
  let v := view st in
  saveState
    (withView (mkView (scale v) (panOffset v) (isRotated v) true (width img, height img))
       (withCtx defaultContext2D
          (withCanvas (mkImageData (width img) (height img) (data img)) st))).

(** The state of a freshly mounted editor (a 300 x 150 transparent canvas). *)
Definition mountedEditor : Editor :=
  mkEditor
    (mkImageData 300 150 (replicate (Z.to_nat (300 * 150 * 4)) 0))
    defaultContext2D
    (mkHistory [] (-1))
    (mkView 1 (mkPos 0 0) false false (0, 0))
    (mkGesture false false (mkPos 0 0) None (mkPos 0 0) (mkPos 0 0))
    (mkTools remove_text remove_text 20 (CssHex 16777215) false false None).

(** The pan and zoom operations: wheel and trackpad scrolling and zooming,
    the drags of the hand tool, of the middle button and of two fingers,
    the zoom keys and the zoom buttons. *)
Definition isPanZoom (ev : Event) (st : Editor) : bool :=
  match ev with
  | Wheel _ => true
  | PointerDown e =>
      twoTouches e || Tool_eqb (tool (tools st)) hand || middleButton e
  | PointerMove e =>
      (twoTouches e && bool_decide (is_Some (lastTouchDistance (gesture st))))
      || isPanning (gesture st)
  | PointerUp => isPanning (gesture st)
  | KeyDown e =>
      negb (targetIsInput e) && negb (String.eqb (code e) "Space") &&
      (ctrlKey e || metaKey e) &&
      (String.eqb (key e) "=" || String.eqb (key e) "+" ||
       String.eqb (key e) "-" || String.eqb (key e) "0")
  | KeyUp _ => false
  | ZoomOutClick | ZoomInClick | ResetViewClick => true
  end.

(** ** Committed operations and repeated undo *)

(** One committed tool operation, from the state before the gesture to the
    state after it: the canvas keeps its shape, and [saveState] has
    recorded the new canvas. *)
Definition committed (st st' : Editor) : Prop :=
  sameShape (canvas st) (canvas st') /\
  hist st' = hist (saveState (withCanvas (canvas st') st)).

(** [n] committed operations, with any number of steps in between that
    touch neither the canvas nor the history (panning, zooming, choosing a
    tool, ...). *)
Inductive commits : nat -> Editor -> Editor -> Prop :=
| commits_none st : commits 0 st st
| commits_more n st st1 st2 :
    commits n st st1 -> committed st1 st2 -> commits (S n) st st2
| commits_idle n st st1 st2 :
    commits n st st1 -> canvas st2 = canvas st1 -> hist st2 = hist st1 ->
    commits n st st2.

(** [n] clicks on undo. *)
Fixpoint undoN (n : nat) (st : Editor) : option Editor :=
  match n with
  | O => Some st
  | S k =>
      match undo st with
      | Some st' => undoN k st'
      | None => None
      end
  end.

(** ** Concrete inputs used to run the model *)

(** A browser whose drawing primitives leave the bitmap alone and whose
    sub-rectangle read throws. *)
Definition nullAPI : CanvasAPI :=
  mkCanvasAPI
    (fun _ _ _ _ _ c => c) (fun _ c => c) (fun _ _ c => c)
    (fun _ _ _ _ _ => None)
    (fun a _ => a) (fun a _ => a)
    (fun _ _ _ _ _ c => conj eq_refl (conj eq_refl eq_refl))
    (fun _ c => conj eq_refl (conj eq_refl eq_refl))
    (fun _ _ c => conj eq_refl (conj eq_refl eq_refl)).

(** [demoData] as a 3 x 2 image. *)
Definition demoImage : ImageData := mkImageData 3 2 demoData.

(** The editor after loading [demoImage]. *)
Definition demoEditor : Editor := loadImage demoImage mountedEditor.

(** The canvas laid out at its own size, at the origin of the viewport. *)
Definition demoEnv : Env :=
  mkEnv (mkDOMRect 0 0 3 3 2) (mkDOMRect 0 0 3 3 2) 100 100.

(** [demoEditor] shown rotated. *)
Definition rotatedEditor : Editor :=
  withView (mkView 1 (mkPos 0 0) true true (3, 2)) demoEditor.

(** The canvas laid out away from the origin of the viewport. *)
Definition offsetEnv : Env :=
  mkEnv (mkDOMRect 100 50 103 3 2) (mkDOMRect 0 0 300 300 200) 300 200.

(** [demoEditor] after a wand click on pixel (0, 0), and after undoing it. *)
Definition filledEditor : Editor := removeColorAt 0.5 0.5 demoEditor.
Definition undoneEditor : Editor := default filledEditor (undo filledEditor).

(** A 3 x 1 sample rectangle: two light pixels that fall into the same
    bucket, then a dark pixel. *)
Definition ringData : list Z :=
  [240;240;235;255;  241;240;235;255;  10;10;10;255].

(** A 3 x 3 sample rectangle whose two buckets both hold two samples: the
    red one is seen first (positions 0 and 3 of the scan), the gray one is
    complete first (positions 1 and 2). *)
Definition tieData : list Z :=
  [200;0;0;255;  100;100;100;255;  100;100;100;255;
   200;0;0;255;  1;2;3;255;        0;0;0;255;
   0;0;0;255;    0;0;0;255;        0;0;0;255].

(** A browser like [nullAPI] whose sub-rectangle read returns [d]. *)
Definition sampleAPI (d : list Z) : CanvasAPI :=
  mkCanvasAPI
    (fun _ _ _ _ _ c => c) (fun _ c => c) (fun _ _ c => c)
    (fun _ _ _ _ _ => Some d)
    (fun a _ => a) (fun a _ => a)
    (fun _ _ _ _ _ c => conj eq_refl (conj eq_refl eq_refl))
    (fun _ c => conj eq_refl (conj eq_refl eq_refl))
    (fun _ _ c => conj eq_refl (conj eq_refl eq_refl)).

(** [demoEditor] with the brush selected. *)
Definition brushEditor : Editor := setTool brush demoEditor.

(** ** Predicates used in the statements *)

(** The seed passes [if (sx < 0 || sx >= width || sy < 0 || sy >= height)
    return]: each coordinate is in range or [NaN]. *)
Definition seedPasses (w h : Z) (sx sy : option Z) : Prop :=
  match sx with Some x => 0 <= x < w | None => True end /\
  match sy with Some y => 0 <= y < h | None => True end.

(** A floored coordinate that the bounds check of the wand rejects. *)
Definition outOfRange (a : floored) (n : Z) : Prop :=
  match a with
  | Fin z => ~ (0 <= z < n)
  | NaN => False
  | Inf _ => True
  end.

(** A position lies in [0, width) x [0, height). *)
Definition insideBuffer (c : ImageData) (p : Pos) : bool :=
  PrimFloat.leb 0 (posX p) && PrimFloat.ltb (posX p) (num (width c)) &&
  PrimFloat.leb 0 (posY p) && PrimFloat.ltb (posY p) (num (height c)).

(** ** Invariants used in the proofs *)

(** [visited[y * width + x]] is set. *)
Definition visitedAt (w : Z) (s : fill) (x y : Z) : bool :=
  truthy (aget (fvisited s) (y * w + x)).

(** Pixels that are the seed or next to a pixel of the region. *)
Definition frontier (w h : Z) (d0 : list Z) (tR tG tB : option Z) (sx sy x y : Z)
  : Prop :=
  (x = sx /\ y = sy) \/
  exists x0 y0,
    region w h (fun a b => matchesAt w d0 tR tG tB a b = true) sx sy x0 y0 /\
    adjacent4 x0 y0 x y.

(** The invariant of the traversal loop, for the buffer [d0] it started
    from. *)
Record FloodInv (w h : Z) (d0 : list Z) (tR tG tB : option Z) (sx sy : Z)
    (s : fill) : Prop := {
  inv_len_d : Z.of_nat (length (fdata s)) = w * h * 4;
  inv_len_v : length (fvisited s) = Z.to_nat (w * h);
  inv_stack : stack_ok w h (fstack s);
  inv_front_stack : forall x y,
    on_stack x y (fstack s) -> frontier w h d0 tR tG tB sx sy x y;
  inv_front_vis : forall x y,
    inBounds w h x y -> visitedAt w s x y = true ->
    frontier w h d0 tR tG tB sx sy x y;
  inv_filled : forall x y,
    inBounds w h x y -> visitedAt w s x y = true ->
    matchesAt w d0 tR tG tB x y = true ->
    pixelAt w (fdata s) x y = opaqueWhite;
  inv_kept : forall x y,
    inBounds w h x y ->
    visitedAt w s x y = false \/ matchesAt w d0 tR tG tB x y = false ->
    pixelAt w (fdata s) x y = pixelAt w d0 x y;
  inv_closed : forall x y x' y',
    inBounds w h x y -> visitedAt w s x y = true ->
    matchesAt w d0 tR tG tB x y = true ->
    adjacent4 x y x' y' -> inBounds w h x' y' ->
    visitedAt w s x' y' = true \/ on_stack x' y' (fstack s);
  inv_seed : visitedAt w s sx sy = true \/ on_stack sx sy (fstack s)
}.

(** The shape of the history along committed operations: the index is the
    last position, the first entry is the baseline, and every entry has
    the shape of the canvas. *)
Record HistOk (base : ImageData) (st : Editor) : Prop := {
  hok_index : historyIndex (hist st) = Z.of_nat (length (history (hist st))) - 1;
  hok_base : history (hist st) !! 0%nat = Some base;
  hok_shape : forall i img, history (hist st) !! i = Some img -> sameShape (canvas st) img;
  hok_wf : wf_image (canvas st)
}.

(** The loop invariant, on the samples counted so far. *)
Record InfInv (p : list Sample) (st : Infer) : Prop := {
  ii_count : forall k, bucketCount st k = population p k;
  ii_max : forall k, population p k <= maxCount st;
  ii_nil : p = [] -> maxCount st = 0 /\ bg st = (Some 255, Some 255, Some 255);
  ii_bg : p <> [] ->
    exists j, p !! j = Some (bg st) /\
      population (take (S j) p) (keyOf (bg st)) = maxCount st /\
      forall k, population (take j p) k < maxCount st
}.


(** ** The toolbar, the undo and redo buttons, and whole sessions *)

Definition setBrushSize (v : float) (st : Editor) : Editor :=
  let x := tools st in
  withTools (mkTools (tool x) (prevTool x) v (manualBgColor x) (useManualColor x)
               (isEnteringText x) (pendingTextBox x)) st.

Definition setIsRotated (b : bool) (st : Editor) : Editor :=
  let v := view st in
  withView (mkView (scale v) (panOffset v) b (imageLoaded v) (imageSize v)) st.

(** A tool button: [setTool(t); setPrevTool(t)]. *)
Definition selectTool (t : Tool) (st : Editor) : Editor :=
  setPrevTool t (setTool t st).

(** The pipette button,
    [setTool(tool === 'pipette' ? 'remove-text' : 'pipette')]; it is
    rendered only while the text eraser or the pipette is selected. *)
Definition togglePipette (st : Editor) : Editor :=
  if Tool_eqb (tool (tools st)) remove_text || Tool_eqb (tool (tools st)) pipette then
    setTool (if Tool_eqb (tool (tools st)) pipette then remove_text else pipette) st
  else st.

(** [checkOrientation], run on every resize of the window. *)
Definition checkOrientation (autoRotateEnabled : bool) (innerWidth innerHeight : float)
    (st : Editor) : Editor :=
  if autoRotateEnabled && PrimFloat.ltb innerWidth innerHeight &&
     PrimFloat.ltb innerWidth 768
  then setIsRotated true st
  else setIsRotated false st.

(** The effect that recalculates the scale when the orientation or the
    image changes. *)
Definition fitScale (env : Env) (st : Editor) : Editor :=
  if imageLoaded (view st) then
    let containerWidth := (containerClientWidth env - 40)%float in
    let containerHeight := (containerClientHeight env - 40)%float in
    let availW := if isRotated (view st) then containerHeight else containerWidth in
    let availH := if isRotated (view st) then containerWidth else containerHeight in
    let scaleX := (availW / num (imageSize (view st)).1)%float in
    let scaleY := (availH / num (imageSize (view st)).2)%float in
    setScale (fun _ => Math_min (Math_min scaleX scaleY) 1) st
  else st.

(** What a user, or the browser, can do to a mounted editor. *)
Inductive Action :=
| Dispatch (env : Env) (ev : Event)
| ClickUndo
| ClickRedo
| ClickTool (t : Tool)
| ClickPipette
| ChangeUseManualColor (b : bool)
| ChangeManualBgColor (c : Z)
| ChangeBrushSize (v : float)
| ClickCommitTextBox
| ClickCancelTextBox
| Resize (autoRotateEnabled : bool) (innerWidth innerHeight : float)
| FitScale (env : Env).

(** One action; [None] when the handler throws. *)
Definition act (api : CanvasAPI) (a : Action) (st : Editor) : option Editor :=
  match a with
  | Dispatch env ev => Some (handle api env ev st)
  | ClickUndo => undo st
  | ClickRedo => redo st
  | ClickTool t => Some (selectTool t st)
  | ClickPipette => Some (togglePipette st)
  | ChangeUseManualColor b => Some (setUseManualColor b st)
  | ChangeManualBgColor c => Some (setManualBgColor (CssHex c) st)
  | ChangeBrushSize v => Some (setBrushSize v st)
  | ClickCommitTextBox => Some (commitTextBox api st)
  | ClickCancelTextBox => Some (setIsEnteringText false st)
  | Resize a w h => Some (checkOrientation a w h st)
  | FitScale env => Some (fitScale env st)
  end.

(** A session: the actions in order, stopping at the first that throws. *)
Fixpoint run (api : CanvasAPI) (l : list Action) (st : Editor) : option Editor :=
  match l with
  | [] => Some st
  | a :: rest =>
      match act api a st with
      | Some st' => run api rest st'
      | None => None
      end
  end.

(** The events in order, each with the layout at its time. *)
Definition dispatchAll (api : CanvasAPI) (evs : list (Env * Event)) (st : Editor)
  : Editor :=
  foldl (fun s p => handle api p.1 p.2 s) st evs.

(** A pointer or wheel event (not a key, not a button of the toolbar). *)
Definition pointerOrWheel (ev : Event) : bool :=
  match ev with
  | Wheel _ | PointerDown _ | PointerMove _ | PointerUp => true
  | _ => false
  end.

(** The rectangle the text eraser reads to infer the fill color:
    [sampleX], [sampleY], [sampleW] and [sampleH] of [handlePointerUp]. *)
Definition sampleRect (st : Editor) : float * float * float * float :=
  let g := gesture st in
  let x := Math_min (posX (startPos g)) (posX (currentPos g)) in
  let y := Math_min (posY (startPos g)) (posY (currentPos g)) in
  let w := Math_abs (posX (currentPos g) - posX (startPos g))%float in
  let h := Math_abs (posY (currentPos g) - posY (startPos g))%float in
  let samplePadding := 2%float in
  let sampleX := Math_max 0 (x - samplePadding)%float in
  let sampleY := Math_max 0 (y - samplePadding)%float in
  let sampleW := Math_min (num (width (canvas st)) - sampleX)%float
                   (w + samplePadding * 2)%float in
  let sampleH := Math_min (num (height (canvas st)) - sampleY)%float
                   (h + samplePadding * 2)%float in
  (sampleX, sampleY, sampleW, sampleH).

(** *** The outer edge of a sample of whole-number size *)

(** The test that selects the outermost pixels of a [w] by [h] rectangle. *)
Definition isEdge (w h px py : Z) : bool :=
  (px =? 0) || (px =? w - 1) || (py =? 0) || (py =? h - 1).

(** The outer edge of a [w] by [h] rectangle: row-major, left to right,
    top to bottom. *)
Definition edgePositions (w h : Z) : list (Z * Z) :=
  filter (fun p : Z * Z => isEdge w h p.1 p.2 = true)
    (py ← seqZ 0 h; px ← seqZ 0 w; [(px, py)]).

(** The red, green and blue bytes of pixel (px, py) of the [w] pixels
    wide data [d]. *)
Definition pixelRGB (w : Z) (d : list Z) (px py : Z) : Sample :=
  let '(r, g, b, _) := pixelAt w d px py in (r, g, b).

(** The colors of the outer edge, in that order, and those that are not
    dark. *)
Definition edgeSamples (w h : Z) (d : list Z) : list Sample :=
  (fun p : Z * Z => pixelRGB w d p.1 p.2) <$> edgePositions w h.

Definition edgeKept (w h : Z) (d : list Z) : list Sample :=
  filter (fun s => isDark s = false) (edgeSamples w h d).

(** Two 4 x 4 blocks of pixels: one whose first two pixels are dark and
    whose other pixels are light gray, and one that is dark all over. *)
Definition cornerData : list Z :=
  [10;10;10;255; 10;10;10;255] ++ concat (repeat [200;200;200;255] 14%nat).

Definition darkData : list Z := concat (repeat [10;10;10;255] 16%nat).

(** The sample size 4.3, as a double. *)
Definition fractionalSize : float := 0x1.1333333333333p+2%float.

(** [nullAPI] with a power that overflows, as [Math.pow(1.1, 10000)]
    does. *)
Definition overflowAPI : CanvasAPI :=
  mkCanvasAPI (fillRect nullAPI) (stroke nullAPI) (drawTextBox nullAPI)
    (getImageDataRect nullAPI) (fun _ _ => PrimFloat.infinity) (Math_hypot nullAPI)
    (fillRect_shape nullAPI) (stroke_shape nullAPI) (drawTextBox_shape nullAPI).

(** *** Whole numbers as doubles *)

(** The double of a positive whole number [v] below 2^53: sign [sx],
    exponent [digits v - 53] and the mantissa [v] shifted to 53 digits. *)
Definition whole (sx : bool) (v : positive) (f : spec_float) : Prop :=
  exists m, f = S754_finite sx m (Zpos (digits2_pos v) - 53) /\
            Zpos m = Zpos v * 2 ^ (53 - Zpos (digits2_pos v)).

(** [f] is the double of the whole number [a], [0 <= a < 2^53]. *)
Definition repr (f : float) (a : Z) : Prop :=
  match a with
  | Z0 => Prim2SF f = S754_zero false
  | Zpos p => Zpos p < 2 ^ 53 /\ whole false p (Prim2SF f)
  | Zneg _ => False
  end.

(** [lo <= v <= hi] on numbers. *)
Definition between (lo hi v : float) : bool :=
  PrimFloat.leb lo v && PrimFloat.leb v hi.

(** The bytes [d'] differ from [d] only where they are 255. *)
Definition onlyWhitened (d d' : list Z) : Prop :=
  length d' = length d /\
  forall i, aget d' i = aget d i \/ aget d' i = Some 255.

(** The channels of a ['#rrggbb'] color. *)
Definition hexChannels (c : Z) : Z * Z * Z :=
  (Z.land (Z.shiftr c 16) 255, Z.land (Z.shiftr c 8) 255, Z.land c 255).

(** What holds of the history in every session. *)
Record SessionInv (st : Editor) : Prop := {
  si_index : 0 <= historyIndex (hist st) < Z.of_nat (length (history (hist st)));
  si_shape : forall i img, history (hist st) !! i = Some img -> sameShape (canvas st) img;
  si_wf : wf_image (canvas st)
}.

(** ** The text of a text box: the wrapping loop of [commitTextBox] *)

Inductive Alignment := align_left | align_center | align_right.

(** [s.split(sep)] for a one-character separator. *)
Fixpoint split (sep : Ascii.ascii) (s : string) : list string :=
  match s with
  | EmptyString => [EmptyString]
  | String c rest =>
      if Ascii.eqb c sep then EmptyString :: split sep rest
      else
        match split sep rest with
        | first :: more => String c first :: more
        | [] => [String c EmptyString]
        end
  end.

(** One [ctx.fillText(text, x, y)] call. *)
Record FillText := mkFillText {
  fillText_text : string;
  fillText_x : float;
  fillText_y : float
}.

(** The variables of the word loop: [line], [currentY], and the
    [fillText] calls made so far. *)
Record Wrap := mkWrap {
  line : string;
  currentY : float;
  calls : list FillText
}.

Section TextLayout.

(** [ctx.measureText(s).width] in the font of the box, and [s.trim()]. *)
Variable measureText : string -> float.
Variable trim : string -> string.

Variable boxAlignment : Alignment.
Variables maxWidth lineHeight : float.

Definition drawAlignedLine (text : string) (lineX lineY : float) : FillText :=
  let width := measureText text in
  let drawX :=
    match boxAlignment with
    | align_center => (lineX + (maxWidth - width) / 2)%float
    | align_right => (lineX + (maxWidth - width))%float
    | align_left => lineX
    end in
  mkFillText text drawX lineY.

(** The body of [for (let n = 0; n < words.length; n++)]. *)
Definition wrapWord (lineX : float) (s : Wrap) (n : Z) (word : string) : Wrap :=
  let testLine := String.append (String.append (line s) word) " " in
  let testWidth := measureText testLine in
  if PrimFloat.ltb maxWidth testWidth && (n >? 0) then
    mkWrap (String.append word " ") (currentY s + lineHeight)%float
      (calls s ++ [drawAlignedLine (trim (line s)) lineX (currentY s)])
  else mkWrap testLine (currentY s) (calls s).

Fixpoint wrapWords (lineX : float) (n : Z) (words : list string) (s : Wrap) : Wrap :=
  match words with
  | [] => s
  | word :: rest => wrapWords lineX (n + 1) rest (wrapWord lineX s n word)
  end.

(** The body of [for (const paragraph of paragraphs)], on [currentY] and
    the calls made so far. *)
Definition wrapParagraph (lineX : float) (s : float * list FillText) (paragraph : string)
  : float * list FillText :=
  let s1 := wrapWords lineX 0 (split " "%char paragraph) (mkWrap "" s.1 s.2) in
  ((currentY s1 + lineHeight)%float,
   calls s1 ++ [drawAlignedLine (trim (line s1)) lineX (currentY s1)]).

End TextLayout.

(** The [fillText] calls of [commitTextBox] for the box [b]. *)
Definition textCalls (measureText : string -> float) (trim : string -> string)
    (b : Box) (boxPadding boxFontSize : float) (boxAlignment : Alignment)
    (boxText : string) : list FillText :=
  let maxWidth := (boxW b - boxPadding * 2)%float in
  let lineHeight := (boxFontSize * 1.2)%float in
  let paragraphs := split "010"%char boxText in
  (foldl (wrapParagraph measureText trim boxAlignment maxWidth lineHeight
            (boxX b + boxPadding)%float)
         ((boxY b + boxPadding)%float, []) paragraphs).2.

(** A line of the wrapped text is within the width, or it is one word. *)
Definition lineFits (measureText : string -> float) (maxWidth : float)
    (words : list string) (l : string) : Prop :=
  PrimFloat.ltb maxWidth (measureText l) = false \/
  exists word, word ∈ words /\ l = String.append word " ".

(** [s.join('')]. *)
Definition joined (ls : list string) : string :=
  foldr String.append "" ls.

(** A measure and a trim to run the layout with: 8 units per character,
    and the removal of one trailing space. *)
Definition demoMeasure (s : string) : float := num (8 * Z.of_nat (String.length s)).

Fixpoint demoTrim (s : string) : string :=
  match s with
  | EmptyString => EmptyString
  | String c EmptyString => if Ascii.eqb c " "%char then EmptyString else s
  | String c rest => String c (demoTrim rest)
  end.

(** ** Developer mode ([App], [handleDevClick]) *)

(** The two state variables [handleDevClick] reads and sets. *)
Record DevState := mkDevState {
  devClicks : Z;
  isDeveloperMode : bool
}.

Definition handleDevClick (s : DevState) : DevState :=
  let newClicks := devClicks s + 1 in
  if (newClicks >=? 5) && negb (isDeveloperMode s)
  then mkDevState newClicks true
  else mkDevState newClicks (isDeveloperMode s).
(** ** Facts about typed arrays *)

Lemma length_aput (a : list Z) i v : length (aput a i v) = length a.
Proof. unfold aput. destruct (i <? 0); [done | apply length_insert]. Qed.

Lemma aget_aput_ne (a : list Z) i j v : i <> j -> aget (aput a i v) j = aget a j.
Proof.
  intros Hne. unfold aget, aput.
  destruct (Z.ltb_spec j 0); [done |].
  destruct (Z.ltb_spec i 0); [done |].
  apply list_lookup_insert_ne. lia.
Qed.

Lemma aget_aput_eq (a : list Z) i v :
  0 <= i < Z.of_nat (length a) -> aget (aput a i v) i = Some v.
Proof.
  intros Hi. unfold aget, aput.
  destruct (Z.ltb_spec i 0); [lia |].
  apply list_lookup_insert_eq. lia.
Qed.

Lemma aget_Some_range (a : list Z) i v :
  aget a i = Some v -> 0 <= i < Z.of_nat (length a).
Proof.
  unfold aget. destruct (Z.ltb_spec i 0); [done |].
  intros Hl. apply lookup_lt_Some in Hl. lia.
Qed.

Lemma aget_in_range (a : list Z) i :
  0 <= i < Z.of_nat (length a) -> exists v, aget a i = Some v.
Proof.
  intros Hi. unfold aget. destruct (Z.ltb_spec i 0); [lia |].
  destruct (lookup_lt_is_Some_2 a (Z.to_nat i)) as [v Hv]; [lia |]. eauto.
Qed.

Lemma aget_replicate n i v :
  0 <= i < Z.of_nat n -> aget (replicate n v) i = Some v.
Proof.
  intros Hi. unfold aget. destruct (Z.ltb_spec i 0); [lia |].
  apply lookup_replicate_2. lia.
Qed.

Lemma zeros_insert (v : list Z) (i : nat) :
  v !! i = Some 0 -> S (zeros (<[i := 1]> v)) = zeros v.
Proof.
  revert i. induction v as [| n v IH]; intros [| i] Hl; simpl in *; try done.
  - by inversion Hl.
  - rewrite <- (IH i Hl). by destruct (n =? 0).
Qed.

Lemma zeros_replicate n : zeros (replicate n 0) = n.
Proof. induction n as [| n IH]; simpl; [done | by rewrite IH]. Qed.

Lemma falsy_in_range (v : list Z) i :
  0 <= i < Z.of_nat (length v) -> truthy (aget v i) = false -> aget v i = Some 0.
Proof.
  intros Hi Hf. destruct (aget_in_range v i Hi) as [n Hn].
  rewrite Hn in Hf |- *. simpl in Hf.
  destruct (Z.eqb_spec n 0); [by subst | done].
Qed.

Lemma zeros_aput (v : list Z) i :
  aget v i = Some 0 -> S (zeros (aput v i 1)) = zeros v.
Proof.
  unfold aget, aput. destruct (Z.ltb_spec i 0); [done |]. apply zeros_insert.
Qed.

(** ** The traversal loop terminates *)

Section FloodTermination.

Variables (w h : Z) (tR tG tB : option Z).

Lemma idx_range x y : inBounds w h x y -> 0 <= y * w + x < w * h.
Proof. unfold inBounds. intros [Hx Hy]. nia. Qed.

Lemma stack_ok_cond (c : bool) x y st :
  stack_ok w h st -> (c = true -> inBounds w h x y) ->
  stack_ok w h (if c then Some y :: Some x :: st else st).
Proof. intros Hst Hc. destruct c; [constructor; auto | done]. Qed.

Lemma length_cond (c : bool) (a b : option Z) st :
  length (if c then a :: b :: st else st) =
  (length st + 2 * (if c then 1 else 0))%nat.
Proof. destruct c; simpl; lia. Qed.

(** What one iteration does to the stack, to the visited bitmap and to the
    number of cells that are still unvisited. *)
Lemma floodStep_measure s x y rest :
  fstack s = Some y :: Some x :: rest ->
  inBounds w h x y -> stack_ok w h rest ->
  length (fvisited s) = Z.to_nat (w * h) ->
  let s' := floodStep w h tR tG tB s in
  let n := pushesOfStep w h tR tG tB s in
  stack_ok w h (fstack s') /\
  length (fvisited s') = Z.to_nat (w * h) /\
  length (fstack s') = (length rest + 2 * n)%nat /\
  (n <= 4)%nat /\
  (n + 4 * zeros (fvisited s') <= 4 * zeros (fvisited s))%nat /\
  (zeros (fvisited s') <= zeros (fvisited s))%nat.
Proof.
  intros Hs Hxy Hrest Hlen. pose proof (idx_range x y Hxy) as Hidx.
  destruct Hxy as [Hx Hy].
  unfold floodStep, pushesOfStep. rewrite Hs. cbv zeta.
  destruct (truthy (aget (fvisited s) (y * w + x))) eqn:Hv; simpl.
  { repeat split; auto; lia. }
  apply falsy_in_range in Hv; [| lia].
  apply zeros_aput in Hv.
  destruct (matchColor _ _ _ _ _ _); simpl.
  2: { rewrite length_aput. repeat split; auto; lia. }
  rewrite length_aput. rewrite !length_cond.
  split.
  { repeat apply stack_ok_cond; auto; intros Hc;
      apply andb_prop in Hc as [Hc _]; unfold inBounds; lia. }
  repeat match goal with
         | |- context [if ?c then 1%nat else 0%nat] => destruct c
         end; repeat split; lia.
Qed.

(** With [2 * fuel + 1] at least [8 * unvisited + stack length], the loop
    leaves through its exit condition. *)
Lemma floodLoop_exits_gen fuel : forall s,
  stack_ok w h (fstack s) ->
  length (fvisited s) = Z.to_nat (w * h) ->
  (8 * zeros (fvisited s) + length (fstack s) <= 2 * fuel + 1)%nat ->
  fstack (floodLoop fuel w h tR tG tB s) = [] /\
  (iterations fuel w h tR tG tB s <= fuel)%nat /\
  (2 * iterations fuel w h tR tG tB s <=
     8 * zeros (fvisited s) + length (fstack s))%nat /\
  (pushesOfLoop fuel w h tR tG tB s <= 4 * zeros (fvisited s))%nat /\
  (2 * iterations fuel w h tR tG tB s =
     length (fstack s) + 2 * pushesOfLoop fuel w h tR tG tB s)%nat.
Proof.
  induction fuel as [| fuel IH]; intros s Hok Hlen Hm; simpl.
  - inversion Hok as [| x y rest Hxy Hrest Hs]; [repeat split; auto; lia |].
    rewrite <- Hs in Hm. simpl in Hm. lia.
  - inversion Hok as [| x y rest Hxy Hrest Hs]; [repeat split; auto; lia |].
    symmetry in Hs.
    destruct (floodStep_measure s x y rest Hs Hxy Hrest Hlen)
      as (Hok' & Hlen' & Hst' & Hn4 & Hz & Hz').
    rewrite Hs in Hm. simpl in Hm.
    destruct (IH (floodStep w h tR tG tB s) Hok' Hlen') as (He & Hi & Hi2 & Hp & Hpp).
    { rewrite Hst'. lia. }
    rewrite Hst' in Hi2, Hpp. simpl.
    repeat split; auto; lia.
Qed.

End FloodTermination.

(** ** Pixels, indices and the stack *)

Section Grid.

Variables (w h : Z).

Local Abbreviation inb := (inBounds w h).

Lemma idx_inj x y x' y' :
  inb x y -> inb x' y' -> y * w + x = y' * w + x' -> x = x' /\ y = y'.
Proof.
  unfold inBounds. intros [Hx Hy] [Hx' Hy'] He.
  assert (y = y') as ->.
  { destruct (Z.lt_trichotomy y y') as [Hlt | [Heq | Hgt]]; [exfalso | done | exfalso].
    - assert (0 <= (y' - y - 1) * w) by (apply Z.mul_nonneg_nonneg; lia). lia.
    - assert (0 <= (y - y' - 1) * w) by (apply Z.mul_nonneg_nonneg; lia). lia. }
  split; lia.
Qed.

Lemma on_stack_inv a b y x rest :
  on_stack a b (Some y :: Some x :: rest) -> (a = x /\ b = y) \/ on_stack a b rest.
Proof. inversion 1; subst; auto. Qed.

Lemma on_stack_cond a b (c : bool) x y st :
  on_stack a b (if c then Some y :: Some x :: st else st) <->
  (c = true /\ a = x /\ b = y) \/ on_stack a b st.
Proof.
  destruct c; split.
  - intros H. apply on_stack_inv in H. tauto.
  - intros [(_ & -> & ->) | H]; [constructor | by constructor].
  - auto.
  - intros [(? & _) | H]; [done | auto].
Qed.

Lemma pixelAt_length_eq (d : list Z) x y :
  Z.of_nat (length d) = w * h * 4 -> inb x y ->
  exists r g b a, pixelAt w d x y = (Some r, Some g, Some b, Some a).
Proof.
  intros Hl Hb. pose proof (idx_range w h x y Hb) as Hi. unfold pixelAt.
  destruct (aget_in_range d ((y * w + x) * 4)) as [r ->]; [lia |].
  destruct (aget_in_range d ((y * w + x) * 4 + 1)) as [g ->]; [lia |].
  destruct (aget_in_range d ((y * w + x) * 4 + 2)) as [b ->]; [lia |].
  destruct (aget_in_range d ((y * w + x) * 4 + 3)) as [a ->]; [lia |].
  eauto.
Qed.

Lemma length_fill4 d p : length (fill4 d p) = length d.
Proof. unfold fill4. by rewrite !length_aput. Qed.

Lemma aget_fill4_in (d : list Z) p k :
  0 <= p -> p + 3 < Z.of_nat (length d) -> 0 <= k < 4 ->
  aget (fill4 d p) (p + k) = Some 255.
Proof.
  intros Hp Hl Hk. unfold fill4.
  assert (k = 0 \/ k = 1 \/ k = 2 \/ k = 3) as [-> | [-> | [-> | ->]]] by lia.
  - rewrite !aget_aput_ne by lia. rewrite Z.add_0_r. apply aget_aput_eq. lia.
  - rewrite !aget_aput_ne by lia. apply aget_aput_eq. rewrite !length_aput. lia.
  - rewrite !aget_aput_ne by lia. apply aget_aput_eq. rewrite !length_aput. lia.
  - apply aget_aput_eq. rewrite !length_aput. lia.
Qed.

Lemma aget_fill4_out (d : list Z) p i :
  i < p \/ p + 3 < i -> aget (fill4 d p) i = aget d i.
Proof. intros Hi. unfold fill4. by rewrite !aget_aput_ne by lia. Qed.

Lemma pixelAt_fill4_same (d : list Z) x y :
  Z.of_nat (length d) = w * h * 4 -> inb x y ->
  pixelAt w (fill4 d ((y * w + x) * 4)) x y = opaqueWhite.
Proof.
  intros Hl Hb. pose proof (idx_range w h x y Hb) as Hi.
  unfold pixelAt, opaqueWhite.
  rewrite <- (Z.add_0_r ((y * w + x) * 4)) at 2.
  by rewrite !aget_fill4_in by lia.
Qed.

Lemma pixelAt_fill4_other (d : list Z) x y x' y' :
  inb x y -> inb x' y' -> (x', y') <> (x, y) ->
  pixelAt w (fill4 d ((y * w + x) * 4)) x' y' = pixelAt w d x' y'.
Proof.
  intros Hb Hb' Hne.
  assert (y' * w + x' <> y * w + x) as Hi.
  { intros He. destruct (idx_inj x' y' x y Hb' Hb He). congruence. }
  unfold pixelAt. by rewrite !aget_fill4_out by lia.
Qed.

Lemma vis_mark_same (v : list Z) x y :
  length v = Z.to_nat (w * h) -> inb x y ->
  truthy (aget (aput v (y * w + x) 1) (y * w + x)) = true.
Proof.
  intros Hl Hb. pose proof (idx_range w h x y Hb).
  rewrite aget_aput_eq by lia. done.
Qed.

Lemma vis_mark_other (v : list Z) x y x' y' :
  inb x y -> inb x' y' -> (x', y') <> (x, y) ->
  truthy (aget (aput v (y * w + x) 1) (y' * w + x')) = truthy (aget v (y' * w + x')).
Proof.
  intros Hb Hb' Hne. rewrite aget_aput_ne; [done |].
  intros He. destruct (idx_inj x y x' y' Hb Hb' He). congruence.
Qed.

Lemma pair_dec (x y x' y' : Z) : (x', y') = (x, y) \/ (x', y') <> (x, y).
Proof.
  destruct (Z.eq_dec x' x) as [-> |]; [| right; congruence].
  destruct (Z.eq_dec y' y) as [-> |]; [by left | right; congruence].
Qed.

End Grid.

(** ** The traversal fills the region and nothing else *)

Section FloodCorrect.

Variables (w h : Z) (d0 : list Z) (tR tG tB : option Z) (sx sy : Z).
Hypothesis Hlen0 : Z.of_nat (length d0) = w * h * 4.
Hypothesis Hseed : inBounds w h sx sy.
Hypothesis Hseed_match : matchesAt w d0 tR tG tB sx sy = true.

Local Abbreviation inb := (inBounds w h).
Local Abbreviation M := (matchesAt w d0 tR tG tB).
Local Abbreviation reg := (region w h (fun x y => M x y = true) sx sy).
Local Abbreviation step := (floodStep w h tR tG tB).
Local Abbreviation vis := (visitedAt w).
Local Abbreviation front := (frontier w h d0 tR tG tB sx sy).
Local Abbreviation FInv := (FloodInv w h d0 tR tG tB sx sy).

Lemma front_region x y : inb x y -> front x y -> M x y = true -> reg x y.
Proof.
  intros Hb [[-> ->] | (x0 & y0 & Hr & Ha)] Hm.
  - by constructor.
  - by eapply region_step; eauto.
Qed.

Lemma region_inb x y : reg x y -> inb x y.
Proof. by destruct 1. Qed.

Lemma region_matches x y : reg x y -> M x y = true.
Proof. by destruct 1. Qed.

Lemma FInv_init : FInv (floodInit w h d0 (Some sx) (Some sy)).
Proof.
  assert (forall x y, inb x y -> vis (floodInit w h d0 (Some sx) (Some sy)) x y = false)
    as Hv.
  { intros x y Hb. pose proof (idx_range w h x y Hb). unfold visitedAt, floodInit. simpl.
    rewrite aget_replicate by lia. done. }
  split; simpl.
  - done.
  - apply length_replicate.
  - constructor; [done | constructor].
  - intros x y Hs. apply on_stack_inv in Hs as [[-> ->] | Hs]; [by left | inversion Hs].
  - intros x y Hb Hvis. rewrite Hv in Hvis; done.
  - intros x y Hb Hvis. rewrite Hv in Hvis; done.
  - done.
  - intros x y x' y' Hb Hvis. rewrite Hv in Hvis; done.
  - right. constructor.
Qed.

(** The popped pixel was already visited: [continue]. *)
Lemma FInv_skip s x y rest :
  FInv s -> fstack s = Some y :: Some x :: rest -> inb x y -> stack_ok w h rest ->
  vis s x y = true ->
  FInv (mkFill (fdata s) (fvisited s) rest).
Proof.
  intros [Hld Hlv Hst Hfs Hfv Hfill Hkept Hcl Hsd] Hs Hb Hrest Hvis.
  rewrite Hs in *.
  split; simpl; auto.
  - intros a b Ha. apply Hfs. by constructor.
  - intros a b a' b' Hab Hv Hm Hadj Hab'.
    destruct (Hcl a b a' b' Hab Hv Hm Hadj Hab') as [? | Hon]; [by left |].
    apply on_stack_inv in Hon as [[-> ->] | Hon]; [by left | by right].
  - destruct Hsd as [? | Hon]; [by left |].
    apply on_stack_inv in Hon as [[-> ->] | Hon]; [by left | by right].
Qed.

(** The popped pixel is new and does not match: it is marked and left as
    it is. *)
Lemma FInv_mark s x y rest :
  FInv s -> fstack s = Some y :: Some x :: rest -> inb x y -> stack_ok w h rest ->
  vis s x y = false -> M x y = false ->
  FInv (mkFill (fdata s) (aput (fvisited s) (y * w + x) 1) rest).
Proof.
  intros [Hld Hlv Hst Hfs Hfv Hfill Hkept Hcl Hsd] Hs Hb Hrest Hvis HM.
  rewrite Hs in *.
  assert (forall a b, inb a b ->
            vis (mkFill (fdata s) (aput (fvisited s) (y * w + x) 1) rest) a b = true ->
            (a, b) = (x, y) \/ vis s a b = true) as Hnew.
  { intros a b Hab Hv. destruct (pair_dec x y a b) as [? | Hne]; [by left | right].
    unfold visitedAt in *. simpl in Hv. by rewrite (vis_mark_other w h) in Hv. }
  assert (forall a b, inb a b -> vis s a b = true ->
            vis (mkFill (fdata s) (aput (fvisited s) (y * w + x) 1) rest) a b = true)
    as Hold.
  { intros a b Hab Hv. destruct (pair_dec x y a b) as [He | Hne].
    - inversion He; subst. congruence.
    - unfold visitedAt in *. simpl. by rewrite (vis_mark_other w h). }
  assert (vis (mkFill (fdata s) (aput (fvisited s) (y * w + x) 1) rest) x y = true)
    as Hxy by (unfold visitedAt; simpl; by apply (vis_mark_same w h)).
  split; simpl.
  - done.
  - by rewrite length_aput.
  - done.
  - intros a b Ha. apply Hfs. by constructor.
  - intros a b Hab Hv. destruct (Hnew a b Hab Hv) as [He | Hv'].
    + inversion He; subst. apply Hfs. constructor.
    + by apply Hfv.
  - intros a b Hab Hv Hm. destruct (Hnew a b Hab Hv) as [He | Hv'].
    + inversion He; subst. congruence.
    + by apply Hfill.
  - intros a b Hab [Hv | Hm]; apply Hkept; auto.
    destruct (vis s a b) eqn:E; [| by left].
    rewrite (Hold a b Hab E) in Hv. done.
  - intros a b a' b' Hab Hv Hm Hadj Hab'.
    destruct (Hnew a b Hab Hv) as [He | Hv']; [inversion He; subst; congruence |].
    destruct (Hcl a b a' b' Hab Hv' Hm Hadj Hab') as [? | Hon]; [left; by apply Hold |].
    apply on_stack_inv in Hon as [[-> ->] | Hon]; [by left | by right].
  - destruct Hsd as [? | Hon]; [left; by apply Hold |].
    apply on_stack_inv in Hon as [[-> ->] | Hon]; [by left | by right].
Qed.

Ltac flood_pushed E :=
  split; [| done];
  apply andb_true_intro; split; [apply Z.gtb_lt || apply Z.ltb_lt; unfold inBounds in *; lia |];
  unfold visitedAt in E; simpl in E;
  match goal with
  | |- negb (truthy (aget _ ?i)) = true =>
      match type of E with
      | truthy (aget _ ?j) = false => replace i with j by lia; by rewrite E
      end
  end.

(** The popped pixel is new and matches: it is marked, painted white, and
    its unvisited neighbours are pushed. *)
Lemma FInv_fill s x y rest :
  FInv s -> fstack s = Some y :: Some x :: rest -> inb x y -> stack_ok w h rest ->
  vis s x y = false -> M x y = true ->
  let idx := y * w + x in
  let visited := aput (fvisited s) idx 1 in
  let s1 := if (x >? 0) && negb (truthy (aget visited (idx - 1)))
            then Some y :: Some (x - 1) :: rest else rest in
  let s2 := if (x <? w - 1) && negb (truthy (aget visited (idx + 1)))
            then Some y :: Some (x + 1) :: s1 else s1 in
  let s3 := if (y >? 0) && negb (truthy (aget visited (idx - w)))
            then Some (y - 1) :: Some x :: s2 else s2 in
  let s4 := if (y <? h - 1) && negb (truthy (aget visited (idx + w)))
            then Some (y + 1) :: Some x :: s3 else s3 in
  FInv (mkFill (fill4 (fdata s) (idx * 4)) visited s4).
Proof.
  intros [Hld Hlv Hst Hfs Hfv Hfill Hkept Hcl Hsd] Hs Hb Hrest Hvis HM.
  rewrite Hs in *. intros idx visited s1 s2 s3 s4.
  set (s' := mkFill (fill4 (fdata s) (idx * 4)) visited s4).
  assert (forall a b, inb a b -> vis s' a b = true ->
            (a, b) = (x, y) \/ vis s a b = true) as Hnew.
  { intros a b Hab Hv. destruct (pair_dec x y a b) as [? | Hne]; [by left | right].
    unfold visitedAt in *. simpl in Hv. unfold visited, idx in Hv.
    by rewrite (vis_mark_other w h) in Hv. }
  assert (forall a b, inb a b -> vis s a b = true -> vis s' a b = true) as Hold.
  { intros a b Hab Hv. destruct (pair_dec x y a b) as [He | Hne].
    - inversion He; subst. congruence.
    - unfold visitedAt in *. simpl. unfold visited, idx. by rewrite (vis_mark_other w h). }
  assert (vis s' x y = true) as Hxy by (unfold visitedAt; simpl; by apply (vis_mark_same w h)).
  assert (forall a b, on_stack a b rest -> on_stack a b s4) as Hmono.
  { intros a b Hon. unfold s4, s3, s2, s1. rewrite !on_stack_cond. tauto. }
  assert (reg x y) as Hreg.
  { apply front_region; auto. apply Hfs. constructor. }
  split; simpl.
  - by rewrite length_fill4.
  - unfold visited. by rewrite length_aput.
  - unfold s4, s3, s2, s1.
    repeat apply stack_ok_cond; auto; intros Hc;
      apply andb_prop in Hc as [Hc _]; unfold inBounds in *; lia.
  - intros a b Hon. unfold s4, s3, s2, s1 in Hon. rewrite !on_stack_cond in Hon.
    destruct Hon as [(_ & -> & ->) | [(_ & -> & ->) | [(_ & -> & ->) | [(_ & -> & ->) | Hon]]]].
    + right. exists x, y. unfold adjacent4. split; [done | lia].
    + right. exists x, y. unfold adjacent4. split; [done | lia].
    + right. exists x, y. unfold adjacent4. split; [done | lia].
    + right. exists x, y. unfold adjacent4. split; [done | lia].
    + apply Hfs. by constructor.
  - intros a b Hab Hv. destruct (Hnew a b Hab Hv) as [He | Hv'].
    + inversion He; subst. apply Hfs. constructor.
    + by apply Hfv.
  - intros a b Hab Hv Hm. destruct (pair_dec x y a b) as [He | Hne].
    + inversion He; subst. unfold idx. by apply (pixelAt_fill4_same w h).
    + unfold idx. rewrite (pixelAt_fill4_other w h) by done.
      destruct (Hnew a b Hab Hv) as [He | Hv']; [done |]. by apply Hfill.
  - intros a b Hab Hor. destruct (pair_dec x y a b) as [He | Hne].
    + inversion He; subst. destruct Hor; congruence.
    + unfold idx. rewrite (pixelAt_fill4_other w h) by done.
      apply Hkept; auto. destruct Hor as [Hv | Hm]; [| by right].
      destruct (vis s a b) eqn:E; [| by left].
      rewrite (Hold a b Hab E) in Hv. done.
  - intros a b a' b' Hab Hv Hm Hadj Hab'.
    destruct (Hnew a b Hab Hv) as [He | Hv'].
    + inversion He; subst a b.
      destruct (vis s' a' b') eqn:E; [by left | right].
      unfold s4, s3, s2, s1. rewrite !on_stack_cond.
      destruct Hadj as [[-> ->] | [[-> ->] | [[-> ->] | [-> ->]]]].
      * do 3 right. left. flood_pushed E.
      * do 2 right. left. flood_pushed E.
      * right. left. flood_pushed E.
      * left. flood_pushed E.
    + destruct (Hcl a b a' b' Hab Hv' Hm Hadj Hab') as [? | Hon]; [left; by apply Hold |].
      apply on_stack_inv in Hon as [[-> ->] | Hon]; [by left | right; by apply Hmono].
  - destruct Hsd as [? | Hon]; [left; by apply Hold |].
    apply on_stack_inv in Hon as [[-> ->] | Hon]; [by left | right; by apply Hmono].
Qed.

Lemma floodStep_inv s : FInv s -> fstack s <> [] -> FInv (step s).
Proof.
  intros Hinv Hne.
  pose proof (inv_stack _ _ _ _ _ _ _ _ s Hinv) as Hok.
  inversion Hok as [| x y rest Hb Hrest Hs]; [congruence |]. symmetry in Hs.
  pose proof (pixelAt_length_eq w h (fdata s) x y (inv_len_d _ _ _ _ _ _ _ _ s Hinv) Hb) as (r & g & b & a & Hpx).
  unfold floodStep. rewrite Hs. cbv zeta.
  destruct (truthy (aget (fvisited s) (y * w + x))) eqn:Hv.
  { by apply (FInv_skip s x y rest). }
  assert (matchColor tR tG tB (aget (fdata s) ((y * w + x) * 4))
            (aget (fdata s) ((y * w + x) * 4 + 1))
            (aget (fdata s) ((y * w + x) * 4 + 2)) = M x y) as ->.
  { unfold matchesAt. rewrite <- (inv_kept _ _ _ _ _ _ _ _ s Hinv x y Hb) by (by left).
    unfold pixelAt. done. }
  destruct (M x y) eqn:Hm.
  - by apply (FInv_fill s x y rest).
  - by apply (FInv_mark s x y rest).
Qed.

Lemma floodLoop_inv fuel : forall s, FInv s -> FInv (floodLoop fuel w h tR tG tB s).
Proof.
  induction fuel as [| fuel IH]; intros s Hinv; simpl; [done |].
  destruct (fstack s) eqn:Hs; [done |].
  apply IH, floodStep_inv; [done | congruence].
Qed.

(** When the loop has left, the region is white and the rest is as before. *)
Lemma FInv_final s x y :
  FInv s -> fstack s = [] -> inb x y ->
  (reg x y -> pixelAt w (fdata s) x y = opaqueWhite) /\
  (~ reg x y -> pixelAt w (fdata s) x y = pixelAt w d0 x y).
Proof.
  intros Hinv Hs Hb.
  assert (forall a b, reg a b -> vis s a b = true) as Hreach.
  { intros a b Hr. induction Hr as [Hsb Hsm | a b a' b' Hr IH Hadj Hab' Hm'].
    - destruct (inv_seed _ _ _ _ _ _ _ _ s Hinv) as [? | Hon]; [done |]. rewrite Hs in Hon. inversion Hon.
    - destruct (inv_closed _ _ _ _ _ _ _ _ s Hinv a b a' b') as [? | Hon]; auto.
      + by apply region_inb.
      + by apply region_matches.
      + rewrite Hs in Hon. inversion Hon. }
  split.
  - intros Hr. apply (inv_filled _ _ _ _ _ _ _ _ s Hinv); auto. by apply region_matches.
  - intros Hn. apply (inv_kept _ _ _ _ _ _ _ _ s Hinv); auto.
    destruct (vis s x y) eqn:Hv; [| by left]. right.
    destruct (M x y) eqn:Hm; [| done].
    exfalso. apply Hn. apply front_region; auto. by apply (inv_front_vis _ _ _ _ _ _ _ _ s Hinv).
Qed.

End FloodCorrect.

(** ** History *)

Lemma slice0_take {A : Type} (l : list A) (e : Z) :
  0 <= e -> slice0 l e = take (Z.to_nat e) l.
Proof.
  intros He. unfold slice0. destruct (Z.ltb_spec e 0); [lia |].
  destruct (Z.le_gt_cases e (Z.of_nat (length l))).
  - by rewrite Z.min_l by lia.
  - rewrite Z.min_r by lia. rewrite !take_ge by lia. done.
Qed.

Lemma nth_js_lookup {A : Type} (l : list A) (i : nat) :
  nth_js l (Z.of_nat i) = l !! i.
Proof.
  unfold nth_js. destruct (Z.ltb_spec (Z.of_nat i) 0); [lia |]. by rewrite Nat2Z.id.
Qed.

Lemma getImageData_id (c : ImageData) : getImageData c = c.
Proof. by destruct c. Qed.

(** Putting back an image of the canvas's own shape replaces the bitmap. *)
Lemma putImageData_same (img c : ImageData) :
  wf_image c -> sameShape c img -> putImageData img c = img.
Proof.
  intros (Hw & Hh & Hl) (Hsw & Hsh & Hsl).
  destruct img as [iw ih idata], c as [cw chh cdata]. simpl in *. subst iw ih.
  unfold putImageData. simpl. f_equal.
  apply list_eq. intros i. rewrite list_lookup_imap.
  destruct (cdata !! i) as [v |] eqn:Hv; simpl.
  - apply lookup_lt_Some in Hv.
    assert (0 < cw).
    { destruct (Z.eq_dec cw 0) as [E |]; [rewrite E in Hl; lia | lia]. }
    assert (0 < chh).
    { destruct (Z.eq_dec chh 0) as [E |]; [rewrite E, Z.mul_0_r in Hl; lia | lia]. }
    set (p := Z.of_nat i / 4). set (k := Z.of_nat i mod 4).
    assert (Z.of_nat i = 4 * p + k) as Hi by (apply Z.div_mod; lia).
    assert (0 <= k < 4) by (apply Z.mod_pos_bound; lia).
    assert (0 <= p) by (apply Z.div_pos; lia).
    assert (p < cw * chh) by (apply Z.div_lt_upper_bound; lia).
    assert (p = cw * (p / cw) + p mod cw) as Hp by (apply Z.div_mod; lia).
    assert (0 <= p mod cw < cw) by (apply Z.mod_pos_bound; lia).
    assert (0 <= p / cw) by (apply Z.div_pos; lia).
    assert (p / cw < chh) by (apply Z.div_lt_upper_bound; lia).
    unfold putByte. simpl. fold p k.
    destruct (Z.ltb_spec (p mod cw) cw); [| lia].
    destruct (Z.ltb_spec (p / cw) chh); [| lia]. simpl.
    replace ((p / cw * cw + p mod cw) * 4 + k) with (Z.of_nat i) by lia.
    unfold aget. destruct (Z.ltb_spec (Z.of_nat i) 0); [lia |].
    rewrite Nat2Z.id.
    destruct (lookup_lt_is_Some_2 idata i) as [v' Hv']; [lia |].
    by rewrite Hv'.
  - apply lookup_ge_None in Hv. symmetry. apply lookup_ge_None. lia.
Qed.

Lemma sameShape_refl c : sameShape c c.
Proof. by repeat split. Qed.

Lemma sameShape_trans a b c : sameShape a b -> sameShape b c -> sameShape a c.
Proof. intros (? & ? & ?) (? & ? & ?). repeat split; congruence. Qed.

Lemma sameShape_sym a b : sameShape a b -> sameShape b a.
Proof. intros (? & ? & ?). repeat split; congruence. Qed.

Lemma sameShape_wf a b : sameShape a b -> wf_image a -> wf_image b.
Proof. intros (Hw & Hh & Hl) (? & ? & ?). unfold wf_image. rewrite Hw, Hh, Hl. auto. Qed.

Lemma HistOk_committed base st st' :
  HistOk base st -> committed st st' -> HistOk base st'.
Proof.
  intros [Hidx Hbase Hshape Hwf] [Hsame Hh].
  assert (history (hist st') = history (hist st) ++ [canvas st']) as Hhist.
  { rewrite Hh. simpl. rewrite slice0_take by lia. rewrite Hidx.
    rewrite take_ge by lia. by rewrite getImageData_id. }
  split.
  - rewrite Hh. simpl. done.
  - rewrite Hhist. rewrite lookup_app_l; [done |]. by apply lookup_lt_Some in Hbase.
  - intros i img. rewrite Hhist. intros Hl.
    apply lookup_app_Some in Hl as [Hl | [_ Hl]].
    + eapply sameShape_trans; [apply sameShape_sym, Hsame | by eapply Hshape].
    + apply list_lookup_singleton_Some in Hl as [_ <-]. apply sameShape_refl.
  - by apply (sameShape_wf (canvas st)).
Qed.

Lemma HistOk_idle base st st' :
  HistOk base st -> canvas st' = canvas st -> hist st' = hist st -> HistOk base st'.
Proof.
  intros [Hidx Hbase Hshape Hwf] Hc Hh. split; rewrite ?Hc, ?Hh; auto.
Qed.

Lemma commits_length base n st st' :
  HistOk base st -> commits n st st' ->
  HistOk base st' /\
  length (history (hist st')) = (length (history (hist st)) + n)%nat /\
  (n = 0%nat -> canvas st' = canvas st).
Proof.
  intros Hok Hc.
  induction Hc as [st | n st st1 st2 Hc IH [Hsame Hh] | n st st1 st2 Hc IH Hcv Hh].
  - split; [done |]. split; [lia | done].
  - destruct (IH Hok) as (Hok1 & Hlen & _). split; [| split].
    + eapply HistOk_committed; [exact Hok1 | by split].
    + rewrite Hh. simpl. rewrite slice0_take by (rewrite (hok_index _ _ Hok1); lia).
      rewrite (hok_index _ _ Hok1). rewrite take_ge by lia.
      rewrite length_app. simpl. lia.
    + lia.
  - destruct (IH Hok) as (Hok1 & Hlen & H0). split; [| split].
    + by apply (HistOk_idle base st1).
    + by rewrite Hh.
    + intros Hn. rewrite Hcv. by apply H0.
Qed.

(** Undoing [n] times from index [k + n] lands on entry [k]. *)
Lemma undoN_lands n : forall st k img,
  wf_image (canvas st) ->
  (forall i x, history (hist st) !! i = Some x -> sameShape (canvas st) x) ->
  historyIndex (hist st) = Z.of_nat (k + n) ->
  (k + n < length (history (hist st)))%nat ->
  history (hist st) !! k = Some img ->
  (n = 0%nat -> canvas st = img) ->
  exists st', undoN n st = Some st' /\ canvas st' = img /\
              historyIndex (hist st') = Z.of_nat k /\
              history (hist st') = history (hist st).
Proof.
  induction n as [| n IH]; intros st k img Hwf Hshape Hidx Hlt Hk H0; simpl.
  - exists st. rewrite Nat.add_0_r in Hidx. auto.
  - unfold undo. destruct (Z.gtb_spec (historyIndex (hist st)) 0); [| lia].
    replace (historyIndex (hist st) - 1) with (Z.of_nat (k + n)) by lia.
    rewrite nth_js_lookup.
    assert (is_Some (history (hist st) !! (k + n)%nat)) as [x Hx].
    { apply lookup_lt_is_Some. lia. }
    rewrite Hx.
    rewrite (putImageData_same x (canvas st) Hwf (Hshape _ _ Hx)).
    set (st1 := withCanvas x (withHist (mkHistory (history (hist st)) (Z.of_nat (k + n))) st)).
    destruct (IH st1 k img) as (st' & Hu & Hc & Hi & Hh); simpl.
    + apply (sameShape_wf (canvas st)); [by eapply Hshape | done].
    + intros i y Hy. eapply sameShape_trans; [| by eapply Hshape].
      apply sameShape_sym. by eapply Hshape.
    + done.
    + lia.
    + done.
    + intros ->. rewrite Nat.add_0_r in Hx. congruence.
    + exists st'. auto.
Qed.

(** ** The color wand *)

Lemma floodStep_length w h tR tG tB s :
  length (fdata (floodStep w h tR tG tB s)) = length (fdata s).
Proof.
  unfold floodStep. repeat case_match; simpl; try done; apply length_fill4.
Qed.

Lemma floodLoop_length fuel w h tR tG tB : forall s,
  length (fdata (floodLoop fuel w h tR tG tB s)) = length (fdata s).
Proof.
  induction fuel as [| fuel IH]; intros s; simpl; [done |].
  destruct (fstack s); [done |]. by rewrite IH, floodStep_length.
Qed.

Lemma matchColor_self r g b :
  matchColor (Some r) (Some g) (Some b) (Some r) (Some g) (Some b) = true.
Proof. unfold matchColor. rewrite !Z.sub_diag. reflexivity. Qed.

Lemma sqrtCheck_all : sqrtCheck (Z.to_nat 195076) 0 = true.
Proof. vm_compute. reflexivity. Qed.

Lemma sqrtCheck_at n : forall z d,
  sqrtCheck n z = true -> z <= d < z + Z.of_nat n ->
  PrimFloat.ltb (PrimFloat.sqrt (num d)) (num tolerance) = (d <? tolerance ^ 2).
Proof.
  induction n as [| n IH]; intros z d Hc Hd; [lia |].
  simpl in Hc. apply andb_prop in Hc as [Hz Hrest].
  destruct (Z.eq_dec d z) as [-> | Hne].
  - by apply eqb_prop in Hz.
  - apply (IH (z + 1)); [done | lia].
Qed.

(** On byte values the double-precision test of [matchColor] is the
    comparison of the squared distance with the squared tolerance. *)
Lemma matchColor_tolerance tR tG tB r g b :
  isByte tR -> isByte tG -> isByte tB -> isByte r -> isByte g -> isByte b ->
  matchColor (Some tR) (Some tG) (Some tB) (Some r) (Some g) (Some b) =
  ((r - tR) ^ 2 + (g - tG) ^ 2 + (b - tB) ^ 2 <? tolerance ^ 2).
Proof.
  unfold isByte, matchColor. intros HtR HtG HtB Hr Hg Hb.
  apply (sqrtCheck_at _ 0 _ sqrtCheck_all).
  assert (forall u v, 0 <= u <= 255 -> 0 <= v <= 255 -> 0 <= (u - v) ^ 2 <= 65025) as Hsq.
  { intros u v Hu Hv. rewrite Z.pow_2_r. set (t := u - v).
    assert (-255 <= t <= 255) as Ht by (unfold t; lia).
    assert (0 <= (255 - t) * (255 + t)) as Hp by (apply Z.mul_nonneg_nonneg; lia).
    replace ((255 - t) * (255 + t)) with (65025 - t * t) in Hp by ring.
    split; [apply Z.square_nonneg | lia]. }
  pose proof (Hsq r tR Hr HtR). pose proof (Hsq g tG Hg HtG). pose proof (Hsq b tB Hb HtB).
  lia.
Qed.

Lemma region_ext w h (P Q : Z -> Z -> Prop) sx sy x y :
  (forall a b, inBounds w h a b -> P a b -> Q a b) ->
  region w h P sx sy x y -> region w h Q sx sy x y.
Proof.
  intros HPQ Hr. induction Hr as [Hb Hp | a b a' b' Hr IH Hadj Hb Hp].
  - constructor; auto.
  - eapply region_step; eauto.
Qed.

Lemma aget_byte (d : list Z) i v : Forall isByte d -> aget d i = Some v -> isByte v.
Proof.
  intros Hall Hv. unfold aget in Hv. destruct (i <? 0); [done |].
  eapply Forall_lookup_1; eauto.
Qed.

(** On a byte buffer the pixels [matchColor] accepts are those within the
    tolerance. *)
Lemma matchesAt_withinTolerance w h d tR tG tB x y :
  Z.of_nat (length d) = w * h * 4 -> Forall isByte d ->
  isByte tR -> isByte tG -> isByte tB -> inBounds w h x y ->
  matchesAt w d (Some tR) (Some tG) (Some tB) x y = true <->
  withinTolerance w d tR tG tB x y.
Proof.
  intros Hlen Hall HtR HtG HtB Hb.
  destruct (pixelAt_length_eq w h d x y Hlen Hb) as (r & g & b & a & Hpx).
  pose proof Hpx as Hpx'. unfold pixelAt in Hpx'. inversion Hpx' as [[Hr Hg Hbl Ha]].
  unfold matchesAt, withinTolerance. rewrite Hpx.
  rewrite matchColor_tolerance; eauto using aget_byte.
  rewrite Z.ltb_lt. split.
  - intros Hlt. by exists r, g, b, (Some a).
  - intros (r' & g' & b' & a' & He & Hlt). by inversion He; subst.
Qed.

(** The fill on a well-formed buffer, from an in-bounds seed that is
    neither near-white nor near-black. *)
Lemma wandFill_region w h d sx sy r g b a :
  Z.of_nat (length d) = w * h * 4 ->
  inBounds w h sx sy ->
  pixelAt w d sx sy = (Some r, Some g, Some b, a) ->
  ~ (r > 240 /\ g > 240 /\ b > 240) ->
  ~ (r < 50 /\ g < 50 /\ b < 50) ->
  exists d',
    wandFill w h d (Some sx) (Some sy) = Some d' /\
    length d' = length d /\
    forall x y, inBounds w h x y ->
      (region w h (fun x y => matchesAt w d (Some r) (Some g) (Some b) x y = true)
              sx sy x y ->
         pixelAt w d' x y = opaqueWhite) /\
      (~ region w h (fun x y => matchesAt w d (Some r) (Some g) (Some b) x y = true)
                sx sy x y ->
         pixelAt w d' x y = pixelAt w d x y).
Proof.
  intros Hlen Hseed Hpx Hnw Hnb.
  unfold pixelAt in Hpx. inversion Hpx as [[HR HG HB HA]].
  unfold wandFill. rewrite Z.add_0_r, HR, HG, HB.
  assert ((r >? 240) && (g >? 240) && (b >? 240) = false) as ->.
  { apply not_true_is_false. intros Ht.
    apply andb_prop in Ht as [Ht Hb']. apply andb_prop in Ht as [Hr' Hg'].
    apply Hnw. lia. }
  assert ((r <? 50) && (g <? 50) && (b <? 50) = false) as ->.
  { apply not_true_is_false. intros Ht.
    apply andb_prop in Ht as [Ht Hb']. apply andb_prop in Ht as [Hr' Hg'].
    apply Hnb. lia. }
  assert (matchesAt w d (Some r) (Some g) (Some b) sx sy = true) as Hm.
  { unfold matchesAt, pixelAt. rewrite HR, HG, HB. apply matchColor_self. }
  pose proof (FInv_init w h d (Some r) (Some g) (Some b) sx sy Hlen Hseed) as Hinit.
  assert (FloodInv w h d (Some r) (Some g) (Some b) sx sy
            (floodLoop (floodBudget w h) w h (Some r) (Some g) (Some b)
               (floodInit w h d (Some sx) (Some sy)))) as Hinv
    by (apply floodLoop_inv; assumption).
  destruct (floodLoop_exits_gen w h (Some r) (Some g) (Some b) (floodBudget w h)
              (floodInit w h d (Some sx) (Some sy))) as (Hexit & _).
  { by destruct Hinit. }
  { by destruct Hinit. }
  { simpl. rewrite zeros_replicate. unfold floodBudget.
    pose proof (idx_range w h sx sy Hseed). lia. }
  eexists. split; [reflexivity |]. split.
  { by rewrite floodLoop_length. }
  intros x y Hb. eapply FInv_final; eauto.
Qed.

(** C10: the traversal loop of the color wand terminates for every buffer
    and every seed that passes the bounds check.  A pixel whose visited
    flag is set is popped and skipped; every iteration pops one entry;
    the loop makes at most [4 * width * height] pushes, so it leaves
    through its exit condition after at most [4 * width * height + 1]
    iterations. *)
Theorem floodLoop_terminates w h d tR tG tB sx sy :
  0 <= w -> 0 <= h -> seedPasses w h sx sy ->
  let s0 := floodInit w h d sx sy in
  let N := floodBudget w h in
  fstack (floodLoop N w h tR tG tB s0) = [] /\
  iterations N w h tR tG tB s0 = S (pushesOfLoop N w h tR tG tB s0) /\
  (pushesOfLoop N w h tR tG tB s0 <= Z.to_nat (4 * w * h))%nat /\
  (iterations N w h tR tG tB s0 <= Z.to_nat (4 * w * h + 1))%nat /\
  (forall s x y rest,
     fstack s = Some y :: Some x :: rest ->
     truthy (aget (fvisited s) (y * w + x)) = true ->
     floodStep w h tR tG tB s = mkFill (fdata s) (fvisited s) rest).
Proof.
  intros Hw Hh [Hsx Hsy] s0 N.
  assert (0 <= w * h) as Hwh by (apply Z.mul_nonneg_nonneg; lia).
  assert (exists n, N = S n) as [n HN].
  { unfold N, floodBudget. exists (Z.to_nat (4 * w * h)). lia. }
  assert (forall s x y rest,
            fstack s = Some y :: Some x :: rest ->
            truthy (aget (fvisited s) (y * w + x)) = true ->
            floodStep w h tR tG tB s = mkFill (fdata s) (fvisited s) rest) as Hskip.
  { intros s x y rest Hs Hv. unfold floodStep. rewrite Hs. cbv zeta. by rewrite Hv. }
  destruct sx as [x |], sy as [y |].
  - destruct (floodLoop_exits_gen w h tR tG tB N s0) as (He & Hi & Hi2 & Hp & Hpp).
    + constructor; [done | constructor].
    + apply length_replicate.
    + unfold s0, N, floodBudget. simpl. rewrite zeros_replicate. lia.
    + unfold s0 in *. simpl in *. rewrite zeros_replicate in *.
      unfold N, floodBudget in *. repeat split; auto; lia.
  - rewrite HN. unfold s0. simpl. destruct n; simpl; repeat split; auto; lia.
  - rewrite HN. unfold s0. simpl. destruct n; simpl; repeat split; auto; lia.
  - rewrite HN. unfold s0. simpl. destruct n; simpl; repeat split; auto; lia.
Qed.

Lemma floodLoop_terminates_witness :
  fstack (floodLoop (floodBudget 3 2) 3 2 (Some 120) (Some 120) (Some 200)
            (floodInit 3 2 demoData (Some 0) (Some 0))) = [] /\
  Nat.le (pushesOfLoop (floodBudget 3 2) 3 2 (Some 120) (Some 120) (Some 200)
            (floodInit 3 2 demoData (Some 0) (Some 0))) 24.
Proof.
  destruct (floodLoop_terminates 3 2 demoData (Some 120) (Some 120) (Some 200)
              (Some 0) (Some 0)) as (He & _ & Hp & _).
  - lia.
  - lia.
  - unfold seedPasses. lia.
  - split; [exact He | exact Hp].
Defined.

Lemma wf_demoImage : wf_image demoImage.
Proof. unfold wf_image. simpl. lia. Qed.

Lemma wf_demoEditor : wf_image (canvas demoEditor).
Proof. unfold wf_image. simpl. lia. Qed.

Lemma removeColorAt_guard_in (st : Editor) sx sy :
  inBounds (width (canvas st)) (height (canvas st)) sx sy ->
  floored_lt (Fin sx) 0 || floored_ge (Fin sx) (width (canvas st)) ||
  floored_lt (Fin sy) 0 || floored_ge (Fin sy) (height (canvas st)) = false.
Proof.
  intros [Hx Hy]. simpl.
  destruct (Z.ltb_spec sx 0); [lia |].
  destruct (Z.ltb_spec sy 0); [lia |].
  rewrite !Z.geb_leb.
  destruct (Z.leb_spec (width (canvas st)) sx); [lia |].
  destruct (Z.leb_spec (height (canvas st)) sy); [lia | done].
Qed.

(** C1: on every buffer, from every in-bounds seed whose color is neither
    near-white nor near-black, the color wand sets to opaque white exactly
    the pixels of the 4-connected region reachable from the seed through
    pixels whose Euclidean RGB distance to the seed color is below 40, and
    leaves every other pixel as it was. *)
Theorem removeColorAt_fills_region (st : Editor) startX startY sx sy r g b a :
  let w := width (canvas st) in
  let h := height (canvas st) in
  wf_image (canvas st) -> Forall isByte (data (canvas st)) ->
  Math_floor startX = Fin sx -> Math_floor startY = Fin sy ->
  inBounds w h sx sy ->
  pixelAt w (data (canvas st)) sx sy = (Some r, Some g, Some b, a) ->
  ~ (r > 240 /\ g > 240 /\ b > 240) ->
  ~ (r < 50 /\ g < 50 /\ b < 50) ->
  let st' := removeColorAt startX startY st in
  let filled := region w h (withinTolerance w (data (canvas st)) r g b) sx sy in
  sameShape (canvas st) (canvas st') /\
  forall x y, inBounds w h x y ->
    (filled x y -> pixelAt w (data (canvas st')) x y = opaqueWhite) /\
    (~ filled x y ->
       pixelAt w (data (canvas st')) x y = pixelAt w (data (canvas st)) x y).
Proof.
  intros w h Hwf Hbytes HfX HfY Hseed Hpx Hnw Hnb st' filled.
  destruct Hwf as (Hw0 & Hh0 & Hlen).
  destruct (wandFill_region w h (data (canvas st)) sx sy r g b a Hlen Hseed Hpx Hnw Hnb)
    as (d' & Hfill & Hlen' & Hreg).
  assert (canvas st' = mkImageData w h d') as Hc.
  { unfold st', removeColorAt. rewrite HfX, HfY.
    rewrite removeColorAt_guard_in by done. simpl floored_index.
    simpl data. fold w h. rewrite Hfill. simpl.
    apply putImageData_same; [by repeat split |].
    repeat split; simpl; auto. }
  assert (isByte r /\ isByte g /\ isByte b) as (Hr & Hg & Hb).
  { unfold pixelAt in Hpx. inversion Hpx. repeat split; eapply aget_byte; eauto. }
  assert (forall x y, inBounds w h x y ->
            matchesAt w (data (canvas st)) (Some r) (Some g) (Some b) x y = true <->
            withinTolerance w (data (canvas st)) r g b x y) as Heq
    by (intros x y Hxy; by apply (matchesAt_withinTolerance w h)).
  rewrite Hc. simpl. split; [by repeat split |].
  intros x y Hxy. destruct (Hreg x y Hxy) as [Hin Hout]. split.
  - intros Hf. apply Hin. eapply region_ext; [| exact Hf].
    intros a0 b0 Hab. by apply Heq.
  - intros Hf. apply Hout. intros Hf'. apply Hf. eapply region_ext; [| exact Hf'].
    intros a0 b0 Hab. by apply Heq.
Qed.

Lemma removeColorAt_fill_committed (st : Editor) startX startY d :
  let w := width (canvas st) in
  let h := height (canvas st) in
  floored_lt (Math_floor startX) 0 || floored_ge (Math_floor startX) w ||
  floored_lt (Math_floor startY) 0 || floored_ge (Math_floor startY) h = false ->
  wandFill w h (data (canvas st)) (floored_index (Math_floor startX))
    (floored_index (Math_floor startY)) = Some d ->
  committed st (removeColorAt startX startY st).
Proof.
  intros w h Hg Hf. unfold removeColorAt. fold w h. rewrite Hg. simpl data. rewrite Hf.
  split; [| reflexivity]. repeat split. simpl. apply length_imap.
Qed.

(** C6: when the seed pixel is near-white (all channels above 240) or
    near-black (all channels below 50), the color wand does nothing: the
    state it returns is the state it got, so no pixel changes and no
    snapshot is pushed; the model function is total, nothing is thrown. *)
Theorem removeColorAt_protected_seed (st : Editor) startX startY sx sy r g b a :
  let w := width (canvas st) in
  let h := height (canvas st) in
  Math_floor startX = Fin sx -> Math_floor startY = Fin sy ->
  inBounds w h sx sy ->
  pixelAt w (data (canvas st)) sx sy = (Some r, Some g, Some b, a) ->
  (r > 240 /\ g > 240 /\ b > 240) \/ (r < 50 /\ g < 50 /\ b < 50) ->
  removeColorAt startX startY st = st.
Proof.
  intros w h HfX HfY Hseed Hpx Hcol.
  unfold removeColorAt. rewrite HfX, HfY.
  rewrite removeColorAt_guard_in by done. simpl floored_index. simpl data.
  unfold pixelAt in Hpx. inversion Hpx as [[HR HG HB HA]]. fold w h in HR, HG, HB.
  unfold wandFill. fold w h. rewrite Z.add_0_r, HR, HG, HB.
  destruct Hcol as [(Hr & Hg & Hb) | (Hr & Hg & Hb)].
  - destruct (Z.gtb_spec r 240); [| lia].
    destruct (Z.gtb_spec g 240); [| lia].
    destruct (Z.gtb_spec b 240); [| lia]. done.
  - destruct (Z.ltb_spec r 50); [| lia].
    destruct (Z.ltb_spec g 50); [| lia].
    destruct (Z.ltb_spec b 50); [| lia].
    by destruct ((r >? 240) && (g >? 240) && (b >? 240)).
Qed.

Lemma outOfRange_guard a n :
  outOfRange a n -> floored_lt a 0 || floored_ge a n = true.
Proof.
  destruct a as [z | | neg]; simpl; intros Hout.
  - destruct (Z.ltb_spec z 0); [done |]. simpl.
    rewrite Z.geb_leb. apply Z.leb_le. lia.
  - done.
  - by destruct neg.
Qed.

Lemma removeColorAt_out_of_range (st : Editor) startX startY :
  outOfRange (Math_floor startX) (width (canvas st)) \/
  outOfRange (Math_floor startY) (height (canvas st)) ->
  removeColorAt startX startY st = st.
Proof.
  intros Hout. unfold removeColorAt.
  assert (floored_lt (Math_floor startX) 0 ||
          floored_ge (Math_floor startX) (width (canvas st)) ||
          floored_lt (Math_floor startY) 0 ||
          floored_ge (Math_floor startY) (height (canvas st)) = true) as ->; [| done].
  destruct Hout as [Hout | Hout].
  - by rewrite (outOfRange_guard _ _ Hout).
  - rewrite <- orb_assoc. rewrite (outOfRange_guard _ _ Hout). apply orb_true_r.
Qed.

(** C7 as the code has it: an out-of-bounds pointer position is not
    clamped.  A press with the color wand, on a canvas that has pixels,
    at a position of which a floored coordinate is a number outside the
    buffer or an infinity, records the plain conversion of [getMousePos]
    as the start and current position of the gesture and is otherwise
    ignored: the state it leaves is the state it found with these two
    positions set and [isDrawing] false, so no pixel and no history entry
    changes. *)
Theorem out_of_bounds_ignored_not_clamped (api : CanvasAPI) (env : Env)
    (e : PointerEvent) (st : Editor) :
  let pos := getMousePos (canvasRect env) e st in
  tool (tools st) = wand -> twoTouches e = false -> middleButton e = false ->
  0 < width (canvas st) -> 0 < height (canvas st) ->
  outOfRange (Math_floor (posX pos)) (width (canvas st)) \/
  outOfRange (Math_floor (posY pos)) (height (canvas st)) ->
  let st' := handlePointerDown api env e st in
  st' = setIsDrawing false (setCurrentPos pos (setStartPos pos st)) /\
  startPos (gesture st') = pos /\ currentPos (gesture st') = pos /\
  canvas st' = canvas st /\ hist st' = hist st.
Proof.
  intros pos Htool Htwo Hmid _ _ Hout st'.
  assert (st' = setIsDrawing false (setCurrentPos pos (setStartPos pos st))) as ->;
    [| done].
  unfold st', handlePointerDown.
  assert (Tool_eqb (tool (tools st)) hand || middleButton e = false) as Hpan
    by (by rewrite Htool, Hmid).
  assert (forall s, canvas s = canvas st ->
            removeColorAt (posX pos) (posY pos) s = s) as Hrm.
  { intros s Hs. apply removeColorAt_out_of_range. by rewrite Hs. }
  destruct e as [cx cy bt | t0 [| t1 [| t2 more]]]; try done;
    rewrite Hpan; fold pos; simpl; rewrite Htool; simpl; rewrite Htool;
    by rewrite Hrm.
Qed.

(** C8: in rotated display mode the conversion returns exactly
    [bufferX = (clientY - canvasTop) * (bufferWidth / displayHeight)] and
    [bufferY = (canvasRight - clientX) * (bufferHeight / displayWidth)],
    in double-precision arithmetic, for every pointer position and every
    canvas geometry. *)
Theorem getMousePos_rotated (rect : DOMRect) (e : PointerEvent) (st : Editor) :
  isRotated (view st) = true ->
  let clientX := (clientOf e).1 in
  let clientY := (clientOf e).2 in
  let bufferWidth := num (width (canvas st)) in
  let bufferHeight := num (height (canvas st)) in
  getMousePos rect e st =
    mkPos ((clientY - top rect) * (bufferWidth / rectHeight rect))%float
          ((right rect - clientX) * (bufferHeight / rectWidth rect))%float.
Proof.
  intros Hrot. unfold getMousePos. rewrite Hrot. by destruct (clientOf e).
Qed.

Lemma removeColorAt_fills_region_witness :
  let st' := removeColorAt 0.5 0.5 demoEditor in
  let filled := region 3 2 (withinTolerance 3 demoData 120 120 200) 0 0 in
  sameShape (canvas demoEditor) (canvas st') /\
  forall x y, inBounds 3 2 x y ->
    (filled x y -> pixelAt 3 (data (canvas st')) x y = opaqueWhite) /\
    (~ filled x y -> pixelAt 3 (data (canvas st')) x y = pixelAt 3 demoData x y).
Proof.
  apply (removeColorAt_fills_region demoEditor 0.5 0.5 0 0 120 120 200 (Some 255)).
  - unfold wf_image. simpl. lia.
  - simpl. unfold demoData, isByte. repeat (constructor; [lia |]). constructor.
  - reflexivity.
  - reflexivity.
  - unfold inBounds. simpl. lia.
  - reflexivity.
  - lia.
  - lia.
Defined.

Lemma removeColorAt_protected_seed_witness :
  removeColorAt 2.5 0 demoEditor = demoEditor.
Proof.
  apply (removeColorAt_protected_seed demoEditor 2.5 0 2 0 255 255 255 (Some 255)).
  - reflexivity.
  - reflexivity.
  - unfold inBounds. simpl. lia.
  - reflexivity.
  - left. lia.
Defined.

(** C7 as stated fails: with the canvas laid out at (100, 50), a pointer
    at (90, 51) converts to x = -10, outside the buffer, and that is the
    position the rectangle eraser records as the start of its drag. *)
Lemma clamp_counterexample :
  let e := MouseEvent 90 51 0 in
  let p := getMousePos (canvasRect offsetEnv) e demoEditor in
  p = mkPos (-10) 1 /\
  insideBuffer (canvas demoEditor) p = false /\
  startPos (gesture (handlePointerDown nullAPI offsetEnv e (setTool eraser demoEditor))) = p.
Proof. vm_compute. repeat split; reflexivity. Qed.

Lemma out_of_bounds_ignored_not_clamped_witness :
  let st := setTool wand demoEditor in
  let e := MouseEvent 90 51 0 in
  getMousePos (canvasRect offsetEnv) e st = mkPos (-10) 1 /\
  (let pos := getMousePos (canvasRect offsetEnv) e st in
   let st' := handlePointerDown nullAPI offsetEnv e st in
   st' = setIsDrawing false (setCurrentPos pos (setStartPos pos st)) /\
   startPos (gesture st') = pos /\ currentPos (gesture st') = pos /\
   canvas st' = canvas st /\ hist st' = hist st).
Proof.
  split; [vm_compute; reflexivity |].
  apply (out_of_bounds_ignored_not_clamped nullAPI offsetEnv (MouseEvent 90 51 0)
           (setTool wand demoEditor)).
  - reflexivity.
  - reflexivity.
  - reflexivity.
  - simpl. lia.
  - simpl. lia.
  - left. change (~ (0 <= -10 < 3)). lia.
Defined.

Lemma getMousePos_rotated_witness :
  getMousePos (mkDOMRect 0 0 2 2 3) (MouseEvent 1 1.5 0) rotatedEditor =
    mkPos ((1.5 - 0) * (num 3 / 3))%float ((2 - 1) * (num 2 / 2))%float.
Proof.
  apply (getMousePos_rotated (mkDOMRect 0 0 2 2 3) (MouseEvent 1 1.5 0) rotatedEditor).
  reflexivity.
Defined.

(** ** Undo history *)

(** C5: pushing a snapshot when the index is not at the last entry drops
    every entry after the index before appending: the history becomes the
    first [index + 1] old entries followed by the new snapshot, the index
    is the new last position, and redo has nothing left to go to. *)
Theorem saveState_prunes_redo (st : Editor) :
  let i := historyIndex (hist st) in
  let old := history (hist st) in
  0 <= i < Z.of_nat (length old) - 1 ->
  let st' := saveState st in
  history (hist st') = take (Z.to_nat (i + 1)) old ++ [canvas st] /\
  length (history (hist st')) = Z.to_nat (i + 2) /\
  historyIndex (hist st') = i + 1 /\
  historyIndex (hist st') = Z.of_nat (length (history (hist st'))) - 1 /\
  redo st' = Some st'.
Proof.
  intros i old Hi st'.
  assert (history (hist st') = take (Z.to_nat (i + 1)) old ++ [canvas st]) as Hh.
  { unfold st', saveState. simpl. fold i old. rewrite slice0_take by lia.
    by rewrite getImageData_id. }
  assert (length (history (hist st')) = Z.to_nat (i + 2)) as Hl.
  { rewrite Hh, length_app, length_take. simpl. lia. }
  assert (historyIndex (hist st') = Z.of_nat (length (history (hist st'))) - 1) as Hx
    by reflexivity.
  repeat split; auto.
  - rewrite Hx, Hl. lia.
  - unfold redo. rewrite Hx.
    by destruct (Z.ltb_spec (Z.of_nat (length (history (hist st'))) - 1)
                   (Z.of_nat (length (history (hist st'))) - 1)); [lia |].
Qed.

Lemma saveState_prunes_redo_witness :
  let st' := saveState undoneEditor in
  history (hist st') = [demoImage; demoImage] /\
  historyIndex (hist st') = 1 /\
  redo st' = Some st'.
Proof.
  destruct (saveState_prunes_redo undoneEditor) as (Hh & _ & Hi & _ & Hr).
  - vm_compute. split; [discriminate | reflexivity].
  - split; [exact Hh | split; [exact Hi | exact Hr]].
Defined.

Lemma HistOk_loadImage img st :
  wf_image img -> history (hist st) = [] -> historyIndex (hist st) = -1 ->
  HistOk img (loadImage img st).
Proof.
  intros Hwf Hh Hi. destruct img as [w h d].
  assert (history (hist (loadImage (mkImageData w h d) st)) = [mkImageData w h d]) as Hl.
  { simpl. rewrite Hh, Hi. reflexivity. }
  split.
  - reflexivity.
  - by rewrite Hl.
  - rewrite Hl. intros [| i] x Hx; simpl in Hx; [| done]. inversion Hx. apply sameShape_refl.
  - exact Hwf.
Qed.

(** C4: after the image is loaded, any number N of committed tool
    operations (with panning, zooming and the like in between) followed
    by N undos leaves the canvas identical to the baseline snapshot taken
    at load; none of the undos fails. *)
Theorem undo_all_restores_baseline (img : ImageData) (n : nat) (st : Editor) :
  wf_image img ->
  commits n (loadImage img mountedEditor) st ->
  history (hist (loadImage img mountedEditor)) = [img] /\
  exists st', undoN n st = Some st' /\ canvas st' = img /\
              historyIndex (hist st') = 0.
Proof.
  intros Hwf Hc.
  pose proof (HistOk_loadImage img mountedEditor Hwf eq_refl eq_refl) as Hok0.
  split; [by destruct img |].
  destruct (commits_length img n _ st Hok0 Hc) as (Hok & Hlen & H0).
  assert (length (history (hist (loadImage img mountedEditor))) = 1%nat) as Hl1
    by reflexivity.
  destruct (undoN_lands n st 0%nat img) as (st' & Hu & Hcv & Hi & _).
  - apply (hok_wf _ _ Hok).
  - apply (hok_shape _ _ Hok).
  - rewrite (hok_index _ _ Hok), Hlen, Hl1. lia.
  - lia.
  - apply (hok_base _ _ Hok).
  - intros Hn. rewrite (H0 Hn). by destruct img.
  - exists st'. auto.
Qed.

Lemma undo_all_restores_baseline_witness :
  history (hist demoEditor) = [demoImage] /\
  exists st', undoN 1 filledEditor = Some st' /\ canvas st' = demoImage /\
              historyIndex (hist st') = 0.
Proof.
  apply (undo_all_restores_baseline demoImage 1 filledEditor).
  - unfold wf_image. simpl. lia.
  - apply (commits_more 0 demoEditor demoEditor filledEditor).
    + apply commits_none.
    + split; vm_compute; repeat split; reflexivity.
Defined.

(** ** Which handlers touch the canvas and the history *)

Lemma committed_transport a a' b b' :
  canvas a = canvas a' -> hist a = hist a' ->
  canvas b = canvas b' -> hist b = hist b' ->
  committed a b -> committed a' b'.
Proof.
  intros Hca Hha Hcb Hhb [Hs Hh]. split.
  - by rewrite <- Hca, <- Hcb.
  - rewrite <- Hhb, Hh, Hcb. unfold saveState. simpl. by rewrite Hha.
Qed.

(** Drawing that leaves the history alone (the strokes of a brush gesture)
    followed by a commit is one committed operation. *)
Lemma committed_after_drawing st st1 st2 :
  sameShape (canvas st) (canvas st1) -> hist st1 = hist st ->
  committed st1 st2 -> committed st st2.
Proof.
  intros Hs Hh [Hs' Hh']. split.
  - by eapply sameShape_trans.
  - rewrite Hh'. unfold saveState. simpl. by rewrite Hh.
Qed.

Lemma saveState_committed st0 st1 :
  hist st1 = hist st0 -> sameShape (canvas st0) (canvas st1) ->
  committed st0 (saveState st1).
Proof.
  intros Hh Hs. split; [exact Hs |]. unfold saveState. simpl. by rewrite Hh.
Qed.

Lemma putImageData_shape img c : sameShape c (putImageData img c).
Proof. repeat split. simpl. apply length_imap. Qed.

Lemma removeColorAt_history startX startY st :
  removeColorAt startX startY st = st \/ committed st (removeColorAt startX startY st).
Proof.
  unfold removeColorAt.
  destruct (_ || _); [by left |].
  destruct (wandFill _ _ _ _ _); [right | by left].
  apply saveState_committed; [done |]. simpl. apply putImageData_shape.
Qed.

Lemma wand_branch_history st st1 x y :
  canvas st1 = canvas st -> hist st1 = hist st ->
  hist (setIsDrawing false (removeColorAt x y st1)) = hist st \/
  committed st (setIsDrawing false (removeColorAt x y st1)).
Proof.
  intros Hc Hh. destruct (removeColorAt_history x y st1) as [-> | Hcm].
  - by left.
  - right. eapply committed_transport; [exact Hc | exact Hh | | | exact Hcm]; done.
Qed.

Lemma canvas_setFillStyle v st : canvas (setFillStyle v st) = canvas st.
Proof. unfold setFillStyle. by destruct (validStyle v). Qed.

Lemma hist_setFillStyle v st : hist (setFillStyle v st) = hist st.
Proof. unfold setFillStyle. by destruct (validStyle v). Qed.

Section Frame.

Variable api : CanvasAPI.

Lemma handlePointerDown_history env e st :
  hist (handlePointerDown api env e st) = hist st \/
  committed st (handlePointerDown api env e st).
Proof.
  unfold handlePointerDown.
  destruct e as [cx cy bt | t0 [| t1 [| t2 more]]];
    try (by left);
    (destruct (Tool_eqb _ _ || _); [by left |]);
    simpl; destruct (tool (tools st)) eqn:Ht; simpl; rewrite ?Ht; try (by left);
    try (by apply wand_branch_history);
    left; unfold sampleColorAt; by destruct (pixelData _ _ _) as [[[r g] b] |].
Qed.

Lemma handlePointerMove_history env e st :
  hist (handlePointerMove api env e st) = hist st.
Proof.
  unfold handlePointerMove.
  destruct e as [cx cy bt | t0 [| t1 [| t2 more]]];
    try destruct (lastTouchDistance (gesture st)); try done;
    (destruct (isPanning (gesture st)); [done |]);
    (destruct (negb _ || _); [done |]);
    by destruct (tool (tools st)).
Qed.

Lemma fill_committed st st1 v x y w h :
  canvas st1 = canvas st -> hist st1 = hist st ->
  committed st
    (saveState (withCanvas (fillRect api (ctx (setFillStyle v st1)) x y w h
                              (canvas (setFillStyle v st1)))
                  (setFillStyle v st1))).
Proof.
  intros Hc Hh. apply saveState_committed; simpl.
  - by rewrite hist_setFillStyle.
  - rewrite canvas_setFillStyle, Hc. apply fillRect_shape.
Qed.

Lemma handlePointerUp_history st :
  hist (handlePointerUp api st) = hist st \/ committed st (handlePointerUp api st).
Proof.
  unfold handlePointerUp. simpl.
  destruct (isPanning (gesture st)); [by left |].
  destruct (isDrawing (gesture st)); [| by left]. simpl.
  destruct (_ || _); [by left |].
  set (st1 := setIsDrawing false (setLastTouchDistance None st)).
  destruct (tool (tools st)); try (by left).
  - right. by apply (fill_committed st st1 (CssHex 16777215)).
  - destruct (useManualColor (tools st)).
    + right. by apply (fill_committed st st1).
    + destruct (getImageDataRect _ _ _ _ _ _); [| by left].
      destruct (inferBgColor _ _ _) as [[r g] b]. right.
      by apply (fill_committed st st1).
  - right. apply saveState_committed; [done | apply sameShape_refl].
Qed.

Lemma commitTextBox_history st :
  hist (commitTextBox api st) = hist st \/ committed st (commitTextBox api st).
Proof.
  unfold commitTextBox. destruct (pendingTextBox (tools st)); [right | by left].
  eapply committed_transport;
    [| | | | apply (saveState_committed st
                     (withCanvas (drawTextBox api b (ctx st) (canvas st)) st))];
    try done.
  simpl. apply drawTextBox_shape.
Qed.

End Frame.

Section PanZoom.

Variable api : CanvasAPI.

Lemma resetView_frame env st :
  canvas (resetView env st) = canvas st /\ hist (resetView env st) = hist st /\
  ctx (resetView env st) = ctx st /\ tools (resetView env st) = tools st.
Proof. unfold resetView. simpl. by destruct (imageLoaded (view st)). Qed.

Lemma resetView_view env st :
  isRotated (view (resetView env st)) = isRotated (view st) /\
  imageLoaded (view (resetView env st)) = imageLoaded (view st) /\
  imageSize (view (resetView env st)) = imageSize (view st) /\
  gesture (resetView env st) = gesture st.
Proof.
  unfold resetView. simpl. by destruct (imageLoaded (view st)) eqn:Hl; simpl; rewrite ?Hl.
Qed.

(** C9 as the code has it: every pan and zoom operation (a hand-tool,
    middle-button or two-finger drag, a wheel or trackpad scroll, a
    modifier+scroll or pinch zoom, a zoom key, a zoom button) leaves the
    pixel buffer, the history stack, the drawing context and the tool
    settings as they are.  It changes nothing but the scale and the pan
    offset of the view and the bookkeeping of the gesture in progress
    ([isPanning], [lastPanPos], [lastTouchDistance], and [isDrawing],
    which only a two-finger press changes, to false): the other fields of
    the view and the start and current positions of the gesture are
    unchanged. *)
Theorem pan_zoom_frame (env : Env) (ev : Event) (st : Editor) :
  isPanZoom ev st = true ->
  let st' := handle api env ev st in
  canvas st' = canvas st /\ hist st' = hist st /\
  ctx st' = ctx st /\ tools st' = tools st /\
  isRotated (view st') = isRotated (view st) /\
  imageLoaded (view st') = imageLoaded (view st) /\
  imageSize (view st') = imageSize (view st) /\
  startPos (gesture st') = startPos (gesture st) /\
  currentPos (gesture st') = currentPos (gesture st) /\
  (isDrawing (gesture st') = isDrawing (gesture st) \/
   exists e, ev = PointerDown e /\ twoTouches e = true /\
             isDrawing (gesture st') = false).
Proof.
  intros Hpz. destruct ev as [e | e | e | | e | e | | |]; simpl in *.
  - unfold handleWheel. repeat case_match; repeat split; try done; by left.
  - unfold handlePointerDown.
    destruct e as [cx cy bt | t0 [| t1 [| t2 more]]]; simpl in *;
      try rewrite Hpz; repeat split; try done; try (by left).
    right. by exists (TouchEvent t0 [t1]).
  - unfold handlePointerMove.
    destruct e as [cx cy bt | t0 [| t1 [| t2 more]]]; simpl in *;
      try rewrite Hpz; try (repeat split; try done; by left).
    destruct (lastTouchDistance (gesture st)); simpl in *;
      try rewrite Hpz; repeat split; try done; by left.
  - unfold handlePointerUp. simpl. rewrite Hpz. repeat split; try done; by left.
  - unfold handleKeyDown.
    destruct (targetIsInput e); [done |].
    destruct (String.eqb (code e) "Space"); [done |]. simpl in *.
    destruct (ctrlKey e || metaKey e); [| done].
    destruct (resetView_frame env st) as (? & ? & ? & ?).
    destruct (resetView_view env st) as (? & ? & ? & Hg).
    repeat case_match; repeat split; try done; try (by left);
      try (by rewrite Hg); left; by rewrite Hg.
  - done.
  - repeat split; try done; by left.
  - repeat split; try done; by left.
  - destruct (resetView_frame env st) as (? & ? & ? & ?).
    destruct (resetView_view env st) as (? & ? & ? & Hg).
    repeat split; try done; try (by rewrite Hg). left. by rewrite Hg.
Qed.

End PanZoom.

Lemma hist_resetView env st : hist (resetView env st) = hist st.
Proof. apply resetView_frame. Qed.

(** Every handler either leaves the history alone or performs one
    committed operation. *)
Lemma handle_history (api : CanvasAPI) (env : Env) (ev : Event) (st : Editor) :
  hist (handle api env ev st) = hist st \/ committed st (handle api env ev st).
Proof.
  destruct ev as [e | e | e | | e | e | | |]; simpl.
  - left. unfold handleWheel. repeat case_match; done.
  - apply handlePointerDown_history.
  - left. apply handlePointerMove_history.
  - apply handlePointerUp_history.
  - left. unfold handleKeyDown. repeat case_match; try done;
      by rewrite hist_resetView.
  - left. unfold handleKeyUp. repeat case_match; done.
  - by left.
  - by left.
  - left. apply hist_resetView.
Qed.

Lemma pan_zoom_frame_witness :
  let ev := Wheel (mkWheelEvent false false false 0 30 1 1) in
  let st' := handle nullAPI demoEnv ev filledEditor in
  panOffset (view st') = mkPos 0 (-30) /\
  canvas st' = canvas filledEditor /\ hist st' = hist filledEditor /\
  ctx st' = ctx filledEditor /\ tools st' = tools filledEditor /\
  isRotated (view st') = isRotated (view filledEditor) /\
  imageLoaded (view st') = imageLoaded (view filledEditor) /\
  imageSize (view st') = imageSize (view filledEditor) /\
  startPos (gesture st') = startPos (gesture filledEditor) /\
  currentPos (gesture st') = currentPos (gesture filledEditor) /\
  (isDrawing (gesture st') = isDrawing (gesture filledEditor) \/
   exists e, ev = PointerDown e /\ twoTouches e = true /\
             isDrawing (gesture st') = false).
Proof.
  split; [vm_compute; reflexivity |].
  apply (pan_zoom_frame nullAPI demoEnv
           (Wheel (mkWheelEvent false false false 0 30 1 1)) filledEditor).
  reflexivity.
Defined.

(** C9 as stated fails: a pan or zoom operation does not modify the view
    only.  A two-finger press during a brush stroke is the start of a
    pinch; it leaves the scale and the pan offset as they are and changes
    the gesture: the stroke is no longer in progress and the pan is. *)
Lemma pan_zoom_changes_gesture :
  let st := handle nullAPI demoEnv (PointerDown (MouseEvent 0.5 0.5 0)) brushEditor in
  let ev := PointerDown (TouchEvent (mkTouch 0 0) [mkTouch 3 4]) in
  let st' := handle nullAPI demoEnv ev st in
  isPanZoom ev st = true /\
  view st' = view st /\
  isDrawing (gesture st) = true /\ isDrawing (gesture st') = false /\
  isPanning (gesture st) = false /\ isPanning (gesture st') = true /\
  gesture st' <> gesture st.
Proof.
  vm_compute. repeat split; try reflexivity. intros H. discriminate H.
Qed.

(** ** Background-color inference *)

Lemma foldl_bind {A B C : Type} (f : A -> C -> A) (g : B -> list C) (l : list B) :
  forall a, foldl f a (l ≫= g) = foldl (fun a x => foldl f a (g x)) a l.
Proof.
  induction l as [| x l IH]; intros a; simpl; [done |].
  by rewrite foldl_app, IH.
Qed.

Lemma foldl_ext {A B : Type} (f g : A -> B -> A) (l : list B) :
  (forall a x, f a x = g a x) -> forall a, foldl f a l = foldl g a l.
Proof.
  intros Hfg. induction l as [| x l IH]; intros a; simpl; [done |].
  by rewrite Hfg, IH.
Qed.

Lemma foldl_filter_map {A B C : Type} (f : A -> C -> A) (r : B -> C)
    (c : B -> bool) (l : list B) :
  forall a,
    foldl (fun a x => if c x then f a (r x) else a) a l =
    foldl f a (r <$> filter (fun x => c x = true) l).
Proof.
  induction l as [| x l IH]; intros a; simpl; [done |].
  rewrite filter_cons. destruct (decide (c x = true)) as [Hc | Hc].
  - rewrite Hc. simpl. apply IH.
  - apply not_true_is_false in Hc. rewrite Hc. apply IH.
Qed.

Lemma foldl_inferSample_kept (l : list Sample) :
  forall st,
    foldl inferSample st l = foldl inferSample st (filter (fun s => isDark s = false) l).
Proof.
  induction l as [| s l IH]; intros st; simpl; [done |].
  rewrite filter_cons. destruct (decide (isDark s = false)) as [Hd | Hd].
  - simpl. apply IH.
  - apply not_false_is_true in Hd. rewrite <- IH.
    unfold inferSample at 2. by rewrite Hd.
Qed.

(** The nested loops are one pass of [inferSample] over the kept samples. *)
Lemma inferBgColor_fold sampleW sampleH sampleData :
  inferBgColor sampleW sampleH sampleData =
  bg (foldl inferSample inferInit (keptSamples sampleW sampleH sampleData)).
Proof.
  unfold inferBgColor, keptSamples, scanOrder. f_equal.
  rewrite <- foldl_inferSample_kept.
  rewrite <- (foldl_filter_map inferSample
                (fun p : Z * Z => readSample sampleW sampleData p.1 p.2)
                (fun p : Z * Z => onEdge sampleW sampleH p.1 p.2)).
  rewrite foldl_bind. apply foldl_ext. intros st py.
  rewrite foldl_bind. apply foldl_ext. intros st' px. reflexivity.
Qed.

Lemma population_cons s l k :
  population (s :: l) k = (if decide (keyOf s = k) then 1 else 0) + population l k.
Proof.
  unfold population. rewrite filter_cons.
  destruct (decide (keyOf s = k)); simpl; lia.
Qed.

Lemma population_nil k : population [] k = 0.
Proof. reflexivity. Qed.

Lemma population_app l1 l2 k :
  population (l1 ++ l2) k = population l1 k + population l2 k.
Proof. unfold population. rewrite filter_app, length_app. lia. Qed.

Lemma population_nonneg l k : 0 <= population l k.
Proof. unfold population. lia. Qed.

Lemma population_take_drop n l k :
  population l k = population (take n l) k + population (drop n l) k.
Proof. by rewrite <- population_app, take_drop. Qed.

Lemma population_lookup l i s : l !! i = Some s -> 1 <= population l (keyOf s).
Proof.
  revert i. induction l as [| x l IH]; intros [| i] Hl; simpl in Hl; try done.
  - inversion Hl; subst. rewrite population_cons.
    destruct (decide (keyOf s = keyOf s)); [| done].
    pose proof (population_nonneg l (keyOf s)). lia.
  - rewrite population_cons. pose proof (IH i Hl).
    destruct (decide (keyOf x = keyOf s)); lia.
Qed.

Lemma population_pos l k :
  0 < population l k -> exists i s, l !! i = Some s /\ keyOf s = k.
Proof.
  induction l as [| x l IH]; intros Hp.
  - unfold population in Hp. simpl in Hp. lia.
  - rewrite population_cons in Hp. destruct (decide (keyOf x = k)) as [He | Hne].
    + by exists 0%nat, x.
    + destruct IH as (i & s & Hl & Hk); [lia |]. by exists (S i), s.
Qed.

(** One counted sample: its bucket gains one, and the running maximum and
    the color move when that bucket gets ahead. *)
Lemma inferSample_kept st s :
  isDark s = false ->
  (forall k, bucketCount (inferSample st s) k =
             bucketCount st k + (if decide (keyOf s = k) then 1 else 0)) /\
  (if bucketCount st (keyOf s) + 1 >? maxCount st
   then maxCount (inferSample st s) = bucketCount st (keyOf s) + 1 /\
        bg (inferSample st s) = s
   else maxCount (inferSample st s) = maxCount st /\
        bg (inferSample st s) = bg st).
Proof.
  intros Hd. unfold inferSample. rewrite Hd.
  destruct s as [[r g] b]. set (s := (r, g, b)). set (key := keyOf s).
  set (bump := fun bk => mkBucket (bucket_r bk) (bucket_g bk) (bucket_b bk) (count bk + 1)).
  set (colors1 := match colors st !! key with
                  | Some _ => colors st
                  | None => <[key := mkBucket r g b 0]> (colors st)
                  end).
  assert (match alter bump key colors1 !! key with
          | Some bk => count bk
          | None => 0
          end = bucketCount st key + 1) as Hn.
  { rewrite lookup_alter_eq. unfold colors1, bucketCount.
    destruct (colors st !! key) as [bk |] eqn:Hk.
    - by rewrite Hk.
    - by rewrite lookup_insert_eq. }
  assert (forall k, k <> key -> alter bump key colors1 !! k = colors st !! k) as Hother.
  { intros k Hk. rewrite lookup_alter_ne by done. unfold colors1.
    destruct (colors st !! key); [done |]. by rewrite lookup_insert_ne. }
  rewrite Hn. split.
  - intros k. destruct (decide (key = k)) as [<- | Hne].
    + destruct (_ >? _); unfold bucketCount at 1; simpl; exact Hn.
    + destruct (_ >? _); unfold bucketCount at 1; simpl;
        rewrite Hother by done; unfold bucketCount; lia.
  - by destruct (_ >? _).
Qed.

Lemma InfInv_init : InfInv [] inferInit.
Proof. split; try done. Qed.

Lemma InfInv_snoc p st s :
  isDark s = false -> InfInv p st -> InfInv (p ++ [s]) (inferSample st s).
Proof.
  intros Hd [Hcnt Hmax Hnil Hbg].
  destruct (inferSample_kept st s Hd) as [Hc' Hm'].
  assert (forall k, population (p ++ [s]) k =
                    population p k + (if decide (keyOf s = k) then 1 else 0)) as Hpop.
  { intros k. rewrite population_app, population_cons, population_nil.
    destruct (decide (keyOf s = k)); lia. }
  rewrite Hcnt in Hm'.
  destruct (Z.gtb_spec (population p (keyOf s) + 1) (maxCount st)) as [Hgt | Hle];
    destruct Hm' as [HM HB].
  - (* the bucket of [s] gets ahead *)
    pose proof (Hmax (keyOf s)) as Hks.
    split.
    + intros k. by rewrite Hc', Hcnt, Hpop.
    + intros k. rewrite Hpop, HM. pose proof (Hmax k).
      destruct (decide (keyOf s = k)); lia.
    + intros Hp. by destruct p.
    + intros _. exists (length p). rewrite HB, HM. split; [| split].
      * by rewrite list_lookup_middle.
      * rewrite take_ge by (rewrite length_app; simpl; lia).
        rewrite Hpop. by destruct (decide (keyOf s = keyOf s)).
      * intros k. rewrite take_app_length. pose proof (Hmax k). lia.
  - (* the maximum stays *)
    assert (p <> []) as Hne.
    { intros ->. destruct (Hnil eq_refl) as [H0 _].
      pose proof (population_nonneg [] (keyOf s)). lia. }
    destruct (Hbg Hne) as (j & Hj & Hpj & Hlt).
    pose proof (lookup_lt_Some _ _ _ Hj) as Hjl.
    split.
    + intros k. by rewrite Hc', Hcnt, Hpop.
    + intros k. rewrite Hpop, HM. pose proof (Hmax k).
      destruct (decide (keyOf s = k)) as [<- |]; lia.
    + intros Hp. by destruct p.
    + intros _. exists j. rewrite HB, HM. split; [| split].
      * by apply lookup_app_l_Some.
      * by rewrite take_app_le by lia.
      * intros k. rewrite take_app_le by lia. apply Hlt.
Qed.

Lemma InfInv_foldl l : forall p st,
  Forall (fun s => isDark s = false) l -> InfInv p st ->
  InfInv (p ++ l) (foldl inferSample st l).
Proof.
  induction l as [| s l IH]; intros p st Hall Hinv; simpl.
  - by rewrite app_nil_r.
  - inversion Hall as [| ? ? Hs Hl]; subst.
    replace (p ++ s :: l) with ((p ++ [s]) ++ l) by (by rewrite <- app_assoc).
    apply IH; [done |]. by apply InfInv_snoc.
Qed.

Lemma InfInv_result l st : InfInv l st -> l <> [] -> lastInMostPopulous l (bg st).
Proof.
  intros [Hcnt Hmax Hnil Hbg] Hne. unfold lastInMostPopulous.
  destruct (Hbg Hne) as (j & Hj & Hpj & Hlt).
  set (c := bg st) in *. set (kc := keyOf c) in *.
  assert (population l kc = maxCount st) as HM.
  { pose proof (Hmax kc). pose proof (population_take_drop (S j) l kc).
    pose proof (population_nonneg (drop (S j) l) kc). lia. }
  assert (population (drop (S j) l) kc = 0) as Hrest.
  { pose proof (population_take_drop (S j) l kc). lia. }
  exists j. split; [done |]. split; [| split].
  - intros k. rewrite HM. apply Hmax.
  - intros i s Hi Hk. destruct (Nat.le_gt_cases i j) as [| Hgt]; [done | exfalso].
    assert (drop (S j) l !! (i - S j)%nat = Some s) as Hd.
    { rewrite lookup_drop. by replace (S j + (i - S j))%nat with i by lia. }
    apply population_lookup in Hd. fold kc in Hk. rewrite Hk in Hd. lia.
  - intros k Hk Hpop.
    assert (population (take (S j) l) k < maxCount st) as Hlow.
    { rewrite (take_S_r l j c Hj), population_app, population_cons, population_nil.
      destruct (decide (keyOf c = k)) as [He |]; [by subst k |].
      pose proof (Hlt k). lia. }
    destruct (population_pos (drop (S j) l) k) as (i & s & Hi & Hs).
    { pose proof (population_take_drop (S j) l k). lia. }
    rewrite lookup_drop in Hi. exists (S j + i)%nat, s. split; [lia | done].
Qed.

Lemma keptSamples_not_dark sampleW sampleH sampleData :
  Forall (fun s => isDark s = false) (keptSamples sampleW sampleH sampleData).
Proof.
  apply Forall_forall. intros s Hs. unfold keptSamples in Hs.
  by apply list_elem_of_filter in Hs as [Hd _].
Qed.

(** When every sample is discarded the color stays opaque white. *)
Lemma inferBgColor_default sampleW sampleH sampleData :
  keptSamples sampleW sampleH sampleData = [] ->
  inferBgColor sampleW sampleH sampleData = (Some 255, Some 255, Some 255).
Proof. intros Hk. rewrite inferBgColor_fold, Hk. reflexivity. Qed.

(** Whatever the sizes, the color left by the loops is the last color
    counted within a most-populous bucket of the values they read. *)
Lemma inferBgColor_last_of_reads sampleW sampleH sampleData :
  keptSamples sampleW sampleH sampleData <> [] ->
  lastInMostPopulous (keptSamples sampleW sampleH sampleData)
                     (inferBgColor sampleW sampleH sampleData).
Proof.
  intros Hne. rewrite inferBgColor_fold. apply InfInv_result; [| done].
  apply (InfInv_foldl _ [] inferInit); [apply keptSamples_not_dark | apply InfInv_init].
Qed.

(** Two buckets with two samples each: the color comes from the bucket
    that is complete first, although the other one was seen first. *)
Example inferBgColor_tie :
  keptSamples 3 3 tieData =
    [(Some 200, Some 0, Some 0); (Some 100, Some 100, Some 100);
     (Some 100, Some 100, Some 100); (Some 200, Some 0, Some 0)] /\
  inferBgColor 3 3 tieData = (Some 100, Some 100, Some 100).
Proof. vm_compute. split; reflexivity. Qed.

Section TextEraser.

Variable api : CanvasAPI.

(** The text eraser without a manual color fills the selection with the
    inferred color and commits. *)
Lemma handlePointerUp_infers (st : Editor) (sampleData : list Z) :
  isPanning (gesture st) = false ->
  isDrawing (gesture st) = true ->
  tool (tools st) = remove_text ->
  useManualColor (tools st) = false ->
  let g := gesture st in
  let x := Math_min (posX (startPos g)) (posX (currentPos g)) in
  let y := Math_min (posY (startPos g)) (posY (currentPos g)) in
  let w := Math_abs (posX (currentPos g) - posX (startPos g))%float in
  let h := Math_abs (posY (currentPos g) - posY (startPos g))%float in
  PrimFloat.eqb w 0 || PrimFloat.eqb h 0 = false ->
  let sampleX := Math_max 0 (x - 2)%float in
  let sampleY := Math_max 0 (y - 2)%float in
  let sampleW := Math_min (num (width (canvas st)) - sampleX)%float (w + 2 * 2)%float in
  let sampleH := Math_min (num (height (canvas st)) - sampleY)%float (h + 2 * 2)%float in
  getImageDataRect api sampleX sampleY sampleW sampleH (canvas st) = Some sampleData ->
  let c := inferBgColor sampleW sampleH sampleData in
  let st1 := setFillStyle (CssRgb c.1.1 c.1.2 c.2)
               (setIsDrawing false (setLastTouchDistance None st)) in
  handlePointerUp api st =
    saveState (withCanvas (fillRect api (ctx st1) x y w h (canvas st)) st1).
Proof.
  intros Hpan Hdraw Htool Hman g x y w h Hwh sampleX sampleY sampleW sampleH Hdata c st1.
  unfold handlePointerUp. simpl. rewrite Hpan, Hdraw. simpl.
  fold g x y w h. rewrite Hwh, Htool, Hman.
  fold sampleX sampleY.
  change (w + 4)%float with (w + 2 * 2)%float.
  change (h + 4)%float with (h + 2 * 2)%float.
  fold sampleW sampleH. rewrite Hdata.
  fold c. unfold st1. destruct c as [[r gg] b]. simpl.
  by rewrite canvas_setFillStyle.
Qed.

End TextEraser.

(** A text-eraser drag from (0, 0) to (1, 1) on a browser that hands out
    the samples of [ringData] over a dark second row: the selection is
    filled with the color of the second light pixel, and committed. *)
Example text_eraser_fill_style :
  let api := sampleAPI (ringData ++ [10;10;10;255; 10;10;10;255; 10;10;10;255]) in
  let down := handle api demoEnv (PointerDown (MouseEvent 0 0 0)) demoEditor in
  let move := handle api demoEnv (PointerMove (MouseEvent 1 1 0)) down in
  let up := handle api demoEnv PointerUp move in
  fillStyle (ctx up) = CssRgb (Some 241) (Some 240) (Some 235) /\
  length (history (hist up)) = 2%nat.
Proof. vm_compute. split; reflexivity. Qed.

Section Brush.

Variable api : CanvasAPI.

(** C3, at a flat stroke.  With the brush, a press at (0, 1), a move to
    (2, 1) and a release: the move has painted the stroke into the canvas,
    yet the release pushes no snapshot, because the rectangle spanned by
    the start and the end of the stroke has height 0.  The same stroke
    ending one row lower is committed. *)
Theorem brush_flat_stroke_not_committed :
  let down := handle api demoEnv (PointerDown (MouseEvent 0 1 0)) brushEditor in
  let flat := handle api demoEnv (PointerMove (MouseEvent 2 1 0)) down in
  let slanted := handle api demoEnv (PointerMove (MouseEvent 2 2 0)) down in
  canvas flat = stroke api (ctx flat) (canvas brushEditor) /\
  path (ctx flat) = [mkPos 0 1; mkPos 2 1] /\
  canvas (handle api demoEnv PointerUp flat) = canvas flat /\
  hist (handle api demoEnv PointerUp flat) = hist brushEditor /\
  length (history (hist (handle api demoEnv PointerUp flat))) = 1%nat /\
  length (history (hist (handle api demoEnv PointerUp slanted))) = 2%nat.
Proof. vm_compute. repeat split; reflexivity. Qed.

End Brush.

Example wandFill_demo :
  wandFill 3 2 demoData (Some 0) (Some 0) =
  Some [255;255;255;255;  255;255;255;255;  255;255;255;255;
        255;255;255;255;  255;255;255;255;  120;120;200;255].
Proof. vm_compute. reflexivity. Qed.

Example Math_floor_ex :
  Math_floor 2.5%float = Fin 2 /\ Math_floor (-2.5)%float = Fin (-3) /\
  Math_floor 7%float = Fin 7 /\ Math_floor (-0)%float = Fin 0 /\
  Math_floor (0 / 0)%float = NaN /\ Math_floor (1 / 0)%float = Inf false.
Proof. vm_compute. repeat split; reflexivity. Qed.

Example float_index_ex :
  float_index 42%float = Some 42 /\ float_index 10.5%float = None /\
  float_index (num 12345) = Some 12345 /\ float_index (num (-3)) = Some (-3).
Proof. vm_compute. repeat split; reflexivity. Qed.

Example loopCount_ex :
  loopCount 3%float = 3 /\ loopCount 2.25%float = 3 /\ loopCount 0%float = 0 /\
  loopCount (-4)%float = 0 /\ loopCount 0.5%float = 1.
Proof. vm_compute. repeat split; reflexivity. Qed.

(** ** Whole numbers as doubles *)

(** Hide the powers of two from [lia]. *)
Ltac hide_pows :=
  repeat match goal with
  | |- context [Z.pow 2 ?e] =>
      let P := fresh "P" in set (P := Z.pow 2 e) in *; clearbody P
  | H : context [Z.pow 2 ?e] |- _ =>
      let P := fresh "P" in set (P := Z.pow 2 e) in *; clearbody P
  end.

Lemma digits_bounds p :
  2 ^ (Zpos (digits2_pos p) - 1) <= Zpos p < 2 ^ Zpos (digits2_pos p).
Proof.
  induction p as [p IH | p IH |]; simpl digits2_pos.
  - rewrite Pos2Z.inj_succ, (Pos2Z.inj_xI p).
    replace (Z.succ (Zpos (digits2_pos p)) - 1) with (Z.succ (Zpos (digits2_pos p) - 1)) by lia.
    rewrite !Z.pow_succ_r by lia. hide_pows. lia.
  - rewrite Pos2Z.inj_succ, (Pos2Z.inj_xO p).
    replace (Z.succ (Zpos (digits2_pos p)) - 1) with (Z.succ (Zpos (digits2_pos p) - 1)) by lia.
    rewrite !Z.pow_succ_r by lia. hide_pows. lia.
  - simpl. lia.
Qed.

Lemma pow2_pos k : 0 <= k -> 0 < 2 ^ k.
Proof. intros. apply Z.pow_pos_nonneg; lia. Qed.

Lemma digits_unique p d :
  2 ^ (d - 1) <= Zpos p < 2 ^ d -> Zpos (digits2_pos p) = d.
Proof.
  intros [Hlo Hhi]. pose proof (digits_bounds p) as [Hlo' Hhi'].
  assert (0 < d).
  { destruct (Z.lt_ge_cases 0 d) as [| Hd]; [done |].
    destruct (Z.eq_dec d 0) as [-> | Hne].
    - simpl in Hhi. lia.
    - rewrite (Z.pow_neg_r 2 d) in Hhi by lia. lia. }
  destruct (Z.lt_trichotomy (Zpos (digits2_pos p)) d) as [Hlt | [Heq | Hgt]]; [| done |].
  - assert (2 ^ Zpos (digits2_pos p) <= 2 ^ (d - 1)) by (apply Z.pow_le_mono_r; lia).
    hide_pows. lia.
  - assert (2 ^ d <= 2 ^ (Zpos (digits2_pos p) - 1)) by (apply Z.pow_le_mono_r; lia).
    hide_pows. lia.
Qed.

Lemma digits_shift p q k :
  0 <= k -> Zpos p = Zpos q * 2 ^ k ->
  Zpos (digits2_pos p) = Zpos (digits2_pos q) + k.
Proof.
  intros Hk Hp. apply digits_unique. pose proof (digits_bounds q) as [Hlo Hhi].
  rewrite Hp.
  replace (Zpos (digits2_pos q) + k - 1) with (Zpos (digits2_pos q) - 1 + k) by lia.
  rewrite !Z.pow_add_r by lia.
  pose proof (pow2_pos k Hk).
  split; [apply Z.mul_le_mono_nonneg_r; lia | apply Z.mul_lt_mono_pos_r; lia].
Qed.

Lemma digits_le_53 p : Zpos p < 2 ^ 53 -> Zpos (digits2_pos p) <= 53.
Proof.
  intros Hp. pose proof (digits_bounds p) as [Hlo _].
  destruct (Z.le_gt_cases (Zpos (digits2_pos p)) 53); [done |].
  assert (2 ^ 53 <= 2 ^ (Zpos (digits2_pos p) - 1)) by (apply Z.pow_le_mono_r; lia).
  hide_pows. lia.
Qed.

Lemma iter_pos_nat {A : Type} (f : A -> A) p : forall x,
  SpecFloat.iter_pos f p x = Nat.iter (Pos.to_nat p) f x.
Proof.
  induction p as [p IH | p IH |]; intros x; simpl SpecFloat.iter_pos.
  - rewrite !IH, Pos2Nat.inj_xI. simpl Nat.mul.
    replace (S (Pos.to_nat p + (Pos.to_nat p + 0)))%nat
      with (Pos.to_nat p + S (Pos.to_nat p))%nat by lia.
    rewrite Nat.iter_add. by rewrite Nat.iter_succ_r.
  - rewrite !IH, Pos2Nat.inj_xO. simpl Nat.mul.
    replace (Pos.to_nat p + (Pos.to_nat p + 0))%nat with (Pos.to_nat p + Pos.to_nat p)%nat by lia.
    by rewrite Nat.iter_add.
  - done.
Qed.

Lemma shr_exact n : forall p q,
  Zpos p = Zpos q * 2 ^ Z.of_nat n ->
  Nat.iter n shr_1 (Build_shr_record (Zpos p) false false) =
  Build_shr_record (Zpos q) false false.
Proof.
  induction n as [| n IH]; intros p q Hp.
  - simpl in *. f_equal. lia.
  - rewrite Nat.iter_succ_r. rewrite Nat2Z.inj_succ, Z.pow_succ_r in Hp by lia.
    destruct p as [p | p |].
    + rewrite (Pos2Z.inj_xI p) in Hp. hide_pows. lia.
    + simpl shr_1. apply IH. rewrite (Pos2Z.inj_xO p) in Hp. hide_pows. lia.
    + pose proof (pow2_pos (Z.of_nat n)). hide_pows. lia.
Qed.

Lemma iter_xO m d : Zpos (Pos.iter xO m d) = Zpos m * 2 ^ Zpos d.
Proof.
  induction d as [| d IH] using Pos.peano_ind.
  - simpl. lia.
  - rewrite Pos.iter_succ, (Pos2Z.inj_xO (Pos.iter xO m d)), IH, Pos2Z.inj_succ,
      Z.pow_succ_r by lia. lia.
Qed.

Lemma whole_unique sx v f g : whole sx v f -> whole sx v g -> f = g.
Proof.
  intros (m & -> & Hm) (m' & -> & Hm'). f_equal. rewrite <- Hm' in Hm. by injection Hm.
Qed.

Lemma fexp_digits d : -1021 <= d -> fexp prec emax d = d - 53.
Proof. intros Hd. unfold fexp, SpecFloat.emin, prec, emax. lia. Qed.

(** Rounding a mantissa that holds [v] with [k] trailing zeros, at least
    53 digits in all, is exact. *)
Lemma binary_round_aux_whole sx m v k :
  0 <= k -> Zpos m = Zpos v * 2 ^ k ->
  Zpos (digits2_pos v) <= 53 <= Zpos (digits2_pos v) + k ->
  whole sx v (binary_round_aux prec emax sx (Zpos m) (- k) loc_Exact).
Proof.
  intros Hk Hm [Hd Hdk].
  pose proof (digits_shift m v k Hk Hm) as Hdm.
  set (dv := Zpos (digits2_pos v)) in *.
  assert (0 < dv) as Hdv by (unfold dv; lia).
  assert (exists q, Zpos q = Zpos v * 2 ^ (53 - dv)) as [q Hq].
  { pose proof (pow2_pos (53 - dv)).
    exists (Z.to_pos (Zpos v * 2 ^ (53 - dv))). rewrite Z2Pos.id; [done |].
    apply Z.mul_pos_pos; lia. }
  assert (Zpos (digits2_pos q) = 53) as Hdq.
  { rewrite (digits_shift q v (53 - dv)) by (lia || done). fold dv. lia. }
  exists q. split; [| done].
  unfold binary_round_aux, shr_fexp. simpl Zdigits2. rewrite Hdm.
  rewrite fexp_digits by lia.
  replace (dv + k + - k - 53 - - k) with (dv - 53 + k) by lia.
  destruct (dv - 53 + k) as [| n | n] eqn:Hn; [| | lia].
  - assert (k = 53 - dv) as Hk' by lia.
    assert (m = q) as -> by (apply Pos2Z.inj; rewrite Hm, Hq, Hk'; done).
    simpl. rewrite Hdq. rewrite fexp_digits by lia.
    replace (53 + - k - 53 - - k) with 0 by lia. simpl.
    replace (- k) with (dv - 53) by lia.
    destruct (Z.leb_spec (dv - 53) (emax - prec)); [done |]. unfold emax, prec in *. lia.
  - simpl shr. rewrite iter_pos_nat.
    rewrite (shr_exact (Pos.to_nat n) m q).
    2:{ rewrite positive_nat_Z, Hm, Hq.
        replace k with ((53 - dv) + Zpos n) at 1 by lia.
        rewrite Z.pow_add_r by lia. lia. }
    simpl. rewrite Hdq. rewrite fexp_digits by lia.
    replace (53 + (- k + Zpos n) - 53 - (- k + Zpos n)) with 0 by lia. simpl.
    replace (- k + Zpos n) with (dv - 53) by lia.
    destruct (Z.leb_spec (dv - 53) (emax - prec)); [done |]. unfold emax, prec in *. lia.
Qed.

Lemma binary_round_whole sx m v k :
  0 <= k -> Zpos m = Zpos v * 2 ^ k -> Zpos (digits2_pos v) <= 53 ->
  whole sx v (binary_round prec emax sx m (- k)).
Proof.
  intros Hk Hm Hd.
  pose proof (digits_shift m v k Hk Hm) as Hdm.
  set (dv := Zpos (digits2_pos v)) in *.
  assert (0 < dv) as Hdv by (unfold dv; lia).
  unfold binary_round, shl_align. rewrite Hdm. rewrite fexp_digits by lia.
  replace (dv + k + - k - 53 - - k) with (dv - 53 + k) by lia.
  destruct (dv - 53 + k) as [| n | n] eqn:Hn.
  - apply binary_round_aux_whole; [done | done | fold dv; lia].
  - apply binary_round_aux_whole; [done | done | fold dv; lia].
  - replace (dv + k + - k - 53) with (- (53 - dv)) by lia.
    apply binary_round_aux_whole; [lia | | fold dv; lia].
    rewrite iter_xO, Hm. replace (53 - dv) with (k + Zpos n) by lia.
    rewrite Z.pow_add_r by lia. lia.
Qed.

Lemma repr_unique f g a : repr f a -> repr g a -> f = g.
Proof.
  destruct a as [| p | p]; simpl; [| | done].
  - intros Hf Hg. apply FloatAxioms.Prim2SF_inj. congruence.
  - intros [_ Hf] [_ Hg]. apply FloatAxioms.Prim2SF_inj. by eapply whole_unique.
Qed.

Lemma repr_range f a : repr f a -> 0 <= a < 2 ^ 53.
Proof. destruct a; simpl; [lia | lia | done]. Qed.

Lemma repr_num a : 0 <= a < 2 ^ 53 -> repr (num a) a.
Proof.
  intros Ha. unfold num. destruct (Z.ltb_spec a 0); [lia |].
  assert (Uint63.to_Z (Uint63.of_Z a) = a) as Hto.
  { rewrite Uint63.of_Z_spec. apply Z.mod_small.
    change Uint63.wB with 9223372036854775808.
    change (2 ^ 53) with 9007199254740992 in Ha. lia. }
  assert (Prim2SF (of_uint63 (Uint63.of_Z a)) = binary_normalize prec emax a 0 false)
    as Hsf by (by rewrite FloatAxioms.of_uint63_spec, Hto).
  destruct a as [| p | p]; unfold repr; [| | lia].
  - by rewrite Hsf.
  - split; [lia |]. rewrite Hsf. unfold binary_normalize.
    apply (binary_round_whole false p p 0); [lia | simpl; lia | apply digits_le_53; lia].
Qed.

Lemma whole_exp sx v m e :
  whole sx v (S754_finite sx m e) ->
  e = Zpos (digits2_pos v) - 53 /\ Zpos m = Zpos v * 2 ^ (- e).
Proof.
  intros (m' & [= -> ->] & Hm). split; [done |].
  by replace (- (Zpos (digits2_pos v) - 53)) with (53 - Zpos (digits2_pos v)) by lia.
Qed.

Lemma repr_mul f g a b :
  repr f a -> repr g b -> a * b < 2 ^ 53 -> repr (f * g)%float (a * b).
Proof.
  intros Hf Hg Hab. rewrite <- (FloatAxioms.SF2Prim_Prim2SF (f * g)%float).
  destruct a as [| pa | pa], b as [| pb | pb]; simpl in Hf, Hg; try done;
    unfold repr; simpl Z.mul; rewrite FloatAxioms.Prim2SF_SF2Prim
      by apply FloatAxioms.Prim2SF_valid;
    rewrite FloatAxioms.mul_spec; unfold FloatAxioms.SF64mul.
  - by rewrite Hf, Hg.
  - destruct Hg as [_ (m & -> & _)]. by rewrite Hf.
  - destruct Hf as [_ (m & -> & _)]. by rewrite Hg.
  - destruct Hf as [Ha (ma & Hfa & Hma)], Hg as [Hb (mb & Hgb & Hmb)].
    rewrite Hfa, Hgb. simpl SFmul. split; [done |].
    pose proof (digits_le_53 pa Ha) as Hda. pose proof (digits_le_53 pb Hb) as Hdb.
    pose proof (digits_bounds pa) as [Hla _]. pose proof (digits_bounds pb) as [Hlb _].
    set (da := Zpos (digits2_pos pa)) in *. set (db := Zpos (digits2_pos pb)) in *.
    assert (0 < da /\ 0 < db) as [Hda0 Hdb0] by (unfold da, db; lia).
    replace (da - 53 + (db - 53)) with (- (106 - da - db)) by lia.
    apply binary_round_aux_whole; [lia | |].
    + rewrite Pos2Z.inj_mul, Hma, Hmb, (Pos2Z.inj_mul pa pb).
      replace (106 - da - db) with ((53 - da) + (53 - db)) by lia.
      rewrite Z.pow_add_r by lia. ring.
    + split; [apply digits_le_53; simpl in Hab; lia |].
      assert (da + db - 1 <= Zpos (digits2_pos (pa * pb))); [| lia].
      destruct (Z.le_gt_cases (da + db - 1) (Zpos (digits2_pos (pa * pb)))) as [| Hgt];
        [done | exfalso].
      pose proof (digits_bounds (pa * pb)) as [_ Hhi].
      assert (2 ^ Zpos (digits2_pos (pa * pb)) <= 2 ^ (da - 1 + (db - 1)))
        by (apply Z.pow_le_mono_r; lia).
      rewrite Z.pow_add_r in * by lia. rewrite Pos2Z.inj_mul in Hhi.
      assert (2 ^ (da - 1) * 2 ^ (db - 1) <= Zpos pa * Zpos pb)
        by (apply Z.mul_le_mono_nonneg; try done; apply Z.lt_le_incl, pow2_pos; lia).
      lia.
Qed.

Lemma shl_align_fst m e e' :
  e' <= e -> Zpos (fst (shl_align m e e')) = Zpos m * 2 ^ (e - e').
Proof.
  intros He. unfold shl_align. destruct (e' - e) as [| d | d] eqn:Hd; simpl fst.
  - replace (e - e') with 0 by lia. simpl. lia.
  - lia.
  - rewrite iter_xO. by replace (e - e') with (Zpos d) by lia.
Qed.

Lemma repr_finite f p :
  repr f (Zpos p) ->
  exists m e, Prim2SF f = S754_finite false m e /\ e <= 0 /\ -52 <= e /\
              Zpos m = Zpos p * 2 ^ (- e) /\ e = Zpos (digits2_pos p) - 53.
Proof.
  intros [Hp (m & Hf & Hm)]. pose proof (digits_le_53 p Hp).
  exists m, (Zpos (digits2_pos p) - 53). split; [done |].
  split; [lia |]. split; [lia |]. split; [| done].
  by replace (- (Zpos (digits2_pos p) - 53)) with (53 - Zpos (digits2_pos p)) by lia.
Qed.

Lemma repr_whole f p m k :
  Zpos p < 2 ^ 53 -> 0 <= k -> Zpos m = Zpos p * 2 ^ k ->
  Prim2SF f = binary_round prec emax false m (- k) -> repr f (Zpos p).
Proof.
  intros Hp Hk Hm Hf. split; [done |]. rewrite Hf.
  apply binary_round_whole; [done | done | by apply digits_le_53].
Qed.

Lemma repr_add f g a b :
  repr f a -> repr g b -> a + b < 2 ^ 53 -> repr (f + g)%float (a + b).
Proof.
  intros Hf Hg Hab.
  assert (Prim2SF (f + g)%float = SFadd prec emax (Prim2SF f) (Prim2SF g)) as Hs
    by apply FloatAxioms.add_spec.
  destruct a as [| pa | pa], b as [| pb | pb]; try done.
  - simpl in Hf, Hg. unfold repr. simpl Z.add. by rewrite Hs, Hf, Hg.
  - destruct (repr_finite g pb Hg) as (m & e & Hg' & _).
    simpl in Hf. rewrite Hf, Hg' in Hs. simpl in Hs.
    destruct Hg as [Hb Hw]. split; [done |]. by rewrite Hs, <- Hg'.
  - destruct (repr_finite f pa Hf) as (m & e & Hf' & _).
    simpl in Hg. rewrite Hf', Hg in Hs. simpl in Hs.
    destruct Hf as [Ha Hw]. rewrite Z.add_0_r. split; [done |]. by rewrite Hs, <- Hf'.
  - destruct (repr_finite f pa Hf) as (ma & ea & Hf' & Hea & _ & Hma & _).
    destruct (repr_finite g pb Hg) as (mb & eb & Hg' & Heb & _ & Hmb & _).
    rewrite Hf', Hg' in Hs. simpl SFadd in Hs.
    set (ez := Z.min ea eb) in *.
    pose proof (shl_align_fst ma ea ez ltac:(lia)) as Hxa.
    pose proof (shl_align_fst mb eb ez ltac:(lia)) as Hxb.
    set (xa := fst (shl_align ma ea ez)) in *. set (xb := fst (shl_align mb eb ez)) in *.
    simpl Z.add in Hs. unfold binary_normalize in Hs.
    apply (repr_whole _ (pa + pb) (xa + xb) (- ez)); [done | lia | |].
    + rewrite !Pos2Z.inj_add, Hxa, Hxb, Hma, Hmb.
      assert (2 ^ (- ea) * 2 ^ (ea - ez) = 2 ^ (- ez)) as Ha
        by (rewrite <- Z.pow_add_r by lia; f_equal; lia).
      assert (2 ^ (- eb) * 2 ^ (eb - ez) = 2 ^ (- ez)) as Hb
        by (rewrite <- Z.pow_add_r by lia; f_equal; lia).
      rewrite <- !Z.mul_assoc, Ha, Hb. ring.
    + by rewrite Z.opp_involutive.
Qed.

Lemma repr_sub f g a b :
  repr f a -> repr g b -> b <= a -> repr (f - g)%float (a - b).
Proof.
  intros Hf Hg Hab.
  assert (Prim2SF (f - g)%float = SFsub prec emax (Prim2SF f) (Prim2SF g)) as Hs
    by apply FloatAxioms.sub_spec.
  destruct a as [| pa | pa], b as [| pb | pb]; try done; try lia.
  - simpl in Hf, Hg. unfold repr. simpl Z.sub. by rewrite Hs, Hf, Hg.
  - destruct (repr_finite f pa Hf) as (m & e & Hf' & _).
    simpl in Hg. rewrite Hf', Hg in Hs. simpl in Hs.
    destruct Hf as [Ha Hw]. rewrite Z.sub_0_r. split; [done |]. by rewrite Hs, <- Hf'.
  - destruct (repr_finite f pa Hf) as (ma & ea & Hf' & Hea & _ & Hma & _).
    destruct (repr_finite g pb Hg) as (mb & eb & Hg' & Heb & _ & Hmb & _).
    rewrite Hf', Hg' in Hs. simpl SFsub in Hs.
    set (ez := Z.min ea eb) in *.
    pose proof (shl_align_fst ma ea ez ltac:(lia)) as Hxa.
    pose proof (shl_align_fst mb eb ez ltac:(lia)) as Hxb.
    set (xa := fst (shl_align ma ea ez)) in *. set (xb := fst (shl_align mb eb ez)) in *.
    unfold cond_Zopp in Hs.
    assert (Zpos xa - Zpos xb = (Zpos pa - Zpos pb) * 2 ^ (- ez)) as Hd.
    { rewrite Hxa, Hxb, Hma, Hmb.
      assert (2 ^ (- ea) * 2 ^ (ea - ez) = 2 ^ (- ez)) as Ha
        by (rewrite <- Z.pow_add_r by lia; f_equal; lia).
      assert (2 ^ (- eb) * 2 ^ (eb - ez) = 2 ^ (- ez)) as Hb
        by (rewrite <- Z.pow_add_r by lia; f_equal; lia).
      rewrite <- !Z.mul_assoc, Ha, Hb. ring. }
    pose proof (pow2_pos (- ez) ltac:(lia)) as Hpow.
    destruct (Zpos pa - Zpos pb) as [| pd | pd] eqn:Hpd; [| | lia].
    + rewrite Z.mul_0_l in Hd. rewrite Hd in Hs. simpl in Hs. done.
    + destruct (Zpos xa - Zpos xb) as [| xd | xd] eqn:Hxd; [lia | | lia].
      unfold binary_normalize in Hs.
      destruct Hf as [Ha _].
      apply (repr_whole _ pd xd (- ez)); [lia | lia | done |].
      by rewrite Z.opp_involutive.
Qed.

Lemma repr_eqb f g a b : repr f a -> repr g b -> PrimFloat.eqb f g = (a =? b).
Proof.
  intros Hf Hg. rewrite FloatAxioms.eqb_spec. unfold SFeqb.
  destruct a as [| pa | pa], b as [| pb | pb]; try done.
  - simpl in Hf, Hg. by rewrite Hf, Hg.
  - destruct (repr_finite g pb Hg) as (m & e & -> & _). simpl in Hf. by rewrite Hf.
  - destruct (repr_finite f pa Hf) as (m & e & -> & _). simpl in Hg. by rewrite Hg.
  - destruct (repr_finite f pa Hf) as (ma & ea & Hf' & _ & _ & Hma & Hea).
    destruct (repr_finite g pb Hg) as (mb & eb & Hg' & _ & _ & Hmb & Heb).
    rewrite Hf', Hg'. simpl SFcompare.
    destruct (Z.eqb_spec (Zpos pa) (Zpos pb)) as [Heq | Hne].
    + injection Heq as ->. subst ea eb.
      assert (ma = mb) as -> by (apply Pos2Z.inj; congruence).
      by rewrite Z.compare_refl, Pos.compare_cont_refl.
    + destruct (ea ?= eb) eqn:He; try done.
      destruct (Pos.compare_cont Eq ma mb) eqn:Hm; try done.
      apply Z.compare_eq in He. apply (Pos.compare_eq ma mb) in Hm.
      exfalso. apply Hne. rewrite <- Hm, <- He, Hma in Hmb.
      pose proof (pow2_pos (- ea)).
      apply (Z.mul_reg_r _ _ (2 ^ (- ea))); [lia | done].
Qed.

Lemma repr_float_index f a : repr f a -> float_index f = Some a.
Proof.
  intros Hf. unfold float_index. destruct a as [| p | p]; [| | done].
  - simpl in Hf. by rewrite Hf.
  - destruct (repr_finite f p Hf) as (m & e & -> & He & _ & Hm & _).
    pose proof (pow2_pos (- e) ltac:(lia)) as Hpow.
    assert (Z.shiftl (Zpos m) e = Zpos p) as Hsh.
    { rewrite Z.shiftl_div_pow2 by lia. rewrite Hm. apply Z.div_mul. lia. }
    cbv zeta. rewrite Hsh. destruct (e >=? 0); [done |].
    rewrite Z.land_ones by lia. rewrite Hm, Z.mod_mul by lia. done.
Qed.

Lemma repr_loopCount f a : repr f a -> loopCount f = a.
Proof.
  intros Hf. unfold loopCount. destruct a as [| p | p]; [| | done].
  - simpl in Hf. by rewrite Hf.
  - destruct (repr_finite f p Hf) as (m & e & -> & He & _ & Hm & _).
    pose proof (pow2_pos (- e) ltac:(lia)) as Hpow.
    rewrite Z.shiftl_div_pow2 by lia.
    change (Z.neg m) with (- Zpos m). rewrite Hm.
    replace (- (Zpos p * 2 ^ (- e))) with ((- Zpos p) * 2 ^ (- e)) by ring.
    rewrite Z.div_mul by lia. lia.
Qed.

(** ** Order facts about numbers *)

Lemma SFcompare_refl x : x <> S754_nan -> SFcompare x x = Some Eq.
Proof.
  destruct x as [s | s | | s m e]; intros Hx; simpl; try done.
  - by destruct s.
  - rewrite Z.compare_refl, Pos.compare_cont_refl. by destruct s.
Qed.

Lemma SFcompare_antisym x y :
  SFcompare y x = option_map CompOpp (SFcompare x y).
Proof.
  destruct x as [s | s | | s m e], y as [s' | s' | | s' m' e']; simpl;
    try done; try (by destruct s); try (by destruct s'); try (by destruct s, s').
  f_equal. rewrite (Z.compare_antisym e' e).
  pose proof (Pos.compare_antisym m m') as Hm. unfold Pos.compare in Hm. rewrite Hm.
  destruct s, s'; simpl; try done;
    destruct (e' ?= e); simpl; try done;
    by destruct (Pos.compare_cont Eq m m').
Qed.

Lemma is_nan_Prim2SF a : PrimFloat.is_nan a = false -> Prim2SF a <> S754_nan.
Proof.
  unfold PrimFloat.is_nan. rewrite FloatAxioms.eqb_spec. unfold SFeqb.
  intros Hn Ha. rewrite Ha in Hn. done.
Qed.

Lemma SFcompare_total x y :
  x <> S754_nan -> y <> S754_nan -> exists c, SFcompare x y = Some c.
Proof.
  destruct x as [s | s | | s m e], y as [s' | s' | | s' m' e']; simpl;
    intros Hx Hy; try done; eauto.
Qed.

Lemma leb_refl a : PrimFloat.is_nan a = false -> PrimFloat.leb a a = true.
Proof.
  intros Ha. rewrite FloatAxioms.leb_spec. unfold SFleb.
  by rewrite SFcompare_refl by (by apply is_nan_Prim2SF).
Qed.

Lemma ltb_leb a b : PrimFloat.ltb a b = true -> PrimFloat.leb a b = true.
Proof.
  rewrite FloatAxioms.ltb_spec, FloatAxioms.leb_spec. unfold SFltb, SFleb.
  by destruct (SFcompare _ _) as [[] |].
Qed.

Lemma not_ltb_leb a b :
  PrimFloat.is_nan a = false -> PrimFloat.is_nan b = false ->
  PrimFloat.ltb a b = false -> PrimFloat.leb b a = true.
Proof.
  intros Ha Hb. rewrite FloatAxioms.ltb_spec, FloatAxioms.leb_spec.
  unfold SFltb, SFleb. rewrite (SFcompare_antisym (Prim2SF a) (Prim2SF b)).
  destruct (SFcompare_total (Prim2SF a) (Prim2SF b)) as [c ->];
    [by apply is_nan_Prim2SF | by apply is_nan_Prim2SF |].
  by destruct c.
Qed.

(** [Math.max] returns [NaN] or one of its arguments, which is then at
    least as large as both. *)
Lemma Math_max_spec a b :
  Math_max a b = PrimFloat.nan \/
  (PrimFloat.is_nan a = false /\ PrimFloat.is_nan b = false /\
   (Math_max a b = a \/ Math_max a b = b) /\
   PrimFloat.leb a (Math_max a b) = true /\ PrimFloat.leb b (Math_max a b) = true).
Proof.
  unfold Math_max.
  destruct (PrimFloat.is_nan a) eqn:Ha; [by left |].
  destruct (PrimFloat.is_nan b) eqn:Hb; [by left |]. simpl. right.
  split; [done |]. split; [done |].
  destruct (PrimFloat.ltb a b) eqn:Hab.
  { split; [by right |]. split; [by apply ltb_leb | by apply leb_refl]. }
  destruct (PrimFloat.ltb b a) eqn:Hba.
  { split; [by left |]. split; [by apply leb_refl | by apply ltb_leb]. }
  destruct (PrimFloat.get_sign a).
  - split; [by right |]. split; [by apply not_ltb_leb | by apply leb_refl].
  - split; [by left |]. split; [by apply leb_refl | by apply not_ltb_leb].
Qed.

Lemma Math_min_spec a b :
  Math_min a b = PrimFloat.nan \/
  (PrimFloat.is_nan a = false /\ PrimFloat.is_nan b = false /\
   (Math_min a b = a \/ Math_min a b = b) /\
   PrimFloat.leb (Math_min a b) a = true /\ PrimFloat.leb (Math_min a b) b = true).
Proof.
  unfold Math_min.
  destruct (PrimFloat.is_nan a) eqn:Ha; [by left |].
  destruct (PrimFloat.is_nan b) eqn:Hb; [by left |]. simpl. right.
  split; [done |]. split; [done |].
  destruct (PrimFloat.ltb a b) eqn:Hab.
  { split; [by left |]. split; [by apply leb_refl | by apply ltb_leb]. }
  destruct (PrimFloat.ltb b a) eqn:Hba.
  { split; [by right |]. split; [by apply ltb_leb | by apply leb_refl]. }
  destruct (PrimFloat.get_sign a).
  - split; [by left |]. split; [by apply leb_refl | by apply not_ltb_leb].
  - split; [by right |]. split; [by apply not_ltb_leb | by apply leb_refl].
Qed.

Lemma is_nan_true a : PrimFloat.is_nan a = true -> Prim2SF a = S754_nan.
Proof.
  unfold PrimFloat.is_nan. rewrite FloatAxioms.eqb_spec. unfold SFeqb. intros Hn.
  destruct (Prim2SF a) as [s | s | | s m e] eqn:Ha; [| | done |];
    rewrite SFcompare_refl in Hn; done.
Qed.

Lemma is_nan_eqb a b : PrimFloat.is_nan a = true -> PrimFloat.eqb a b = false.
Proof.
  intros Ha. rewrite FloatAxioms.eqb_spec. by rewrite (is_nan_true a Ha).
Qed.

(** Numbers that compare equal compare alike with every other number. *)
Lemma SFcompare_Eq x y :
  SFcompare x y = Some Eq ->
  forall z, SFcompare z x = SFcompare z y /\ SFcompare x z = SFcompare y z.
Proof.
  intros Hxy z.
  destruct x as [s | s | | s m e], y as [s' | s' | | s' m' e']; simpl in Hxy; try done.
  all: try (by destruct z).
  all: try (by destruct s).
  all: try (by destruct s').
  all: try (destruct s, s'; try done; by destruct z).
  - assert (s = s' /\ e = e' /\ m = m') as (-> & -> & ->); [| done].
    destruct s, s'; try done; destruct (e ?= e') eqn:He; try done;
      apply Z.compare_eq in He as ->;
      (split; [done |]; split; [done |]); apply Pos.compare_eq; unfold Pos.compare;
      by destruct (Pos.compare_cont Eq m m').
Qed.

Lemma eqb_between lo hi a b :
  PrimFloat.eqb a b = true -> between lo hi a = between lo hi b.
Proof.
  rewrite FloatAxioms.eqb_spec. unfold SFeqb. intros Hab.
  assert (SFcompare (Prim2SF a) (Prim2SF b) = Some Eq) as Heq
    by (by destruct (SFcompare _ _) as [[] |]).
  unfold between. rewrite !FloatAxioms.leb_spec. unfold SFleb.
  destruct (SFcompare_Eq _ _ Heq (Prim2SF lo)) as [-> _].
  by destruct (SFcompare_Eq _ _ Heq (Prim2SF hi)) as [_ ->].
Qed.

Lemma Math_max_num a b :
  PrimFloat.is_nan a = false -> PrimFloat.is_nan b = false ->
  (Math_max a b = a \/ Math_max a b = b) /\
  PrimFloat.leb a (Math_max a b) = true /\ PrimFloat.leb b (Math_max a b) = true.
Proof.
  intros Ha Hb. unfold Math_max. rewrite Ha, Hb. simpl.
  destruct (PrimFloat.ltb a b) eqn:Hab.
  { split; [by right |]. split; [by apply ltb_leb | by apply leb_refl]. }
  destruct (PrimFloat.ltb b a) eqn:Hba.
  { split; [by left |]. split; [by apply leb_refl | by apply ltb_leb]. }
  destruct (PrimFloat.get_sign a).
  - split; [by right |]. split; [by apply not_ltb_leb | by apply leb_refl].
  - split; [by left |]. split; [by apply leb_refl | by apply not_ltb_leb].
Qed.

Lemma Math_min_num a b :
  PrimFloat.is_nan a = false -> PrimFloat.is_nan b = false ->
  (Math_min a b = a \/ Math_min a b = b) /\
  PrimFloat.leb (Math_min a b) a = true /\ PrimFloat.leb (Math_min a b) b = true.
Proof.
  intros Ha Hb. unfold Math_min. rewrite Ha, Hb. simpl.
  destruct (PrimFloat.ltb a b) eqn:Hab.
  { split; [by left |]. split; [by apply leb_refl | by apply ltb_leb]. }
  destruct (PrimFloat.ltb b a) eqn:Hba.
  { split; [by right |]. split; [by apply ltb_leb | by apply leb_refl]. }
  destruct (PrimFloat.get_sign a).
  - split; [by left |]. split; [by apply leb_refl | by apply not_ltb_leb].
  - split; [by right |]. split; [by apply not_ltb_leb | by apply leb_refl].
Qed.

(** [Math.min(Math.max(lo, v), hi)], for numbers [lo <= hi]: [NaN] when
    [v] is [NaN], and otherwise a number between [lo] and [hi]. *)
Lemma clamp_spec lo hi v :
  PrimFloat.is_nan lo = false -> PrimFloat.is_nan hi = false ->
  PrimFloat.leb lo hi = true ->
  let r := Math_min (Math_max lo v) hi in
  if PrimFloat.is_nan v then PrimFloat.is_nan r = true else between lo hi r = true.
Proof.
  intros Hlo Hhi Hlh r. unfold r. destruct (PrimFloat.is_nan v) eqn:Hv.
  - unfold Math_max. rewrite Hlo, Hv. simpl. unfold Math_min.
    by change (PrimFloat.is_nan PrimFloat.nan) with true.
  - destruct (Math_max_num lo v Hlo Hv) as (Hc & Hl & _).
    assert (PrimFloat.is_nan (Math_max lo v) = false) as Hm
      by (by destruct Hc as [-> | ->]).
    destruct (Math_min_num (Math_max lo v) hi Hm Hhi) as (Hc2 & _ & Hle).
    unfold between. rewrite Hle, andb_true_r.
    by destruct Hc2 as [-> | ->].
Qed.

(** ** The zoom level *)

Section Zoom.

Variable api : CanvasAPI.

(** X1: a wheel event without Ctrl or Meta leaves the scale as it is.
    With Ctrl or Meta, the scale after the event is [NaN] exactly when the
    product of the old scale and the zoom factor [1.1 ^ (-deltaY / 100)]
    is [NaN], and otherwise it is a number between 0.1 and 10. *)
Theorem wheel_zoom_clamped (env : Env) (e : WheelEvent) (st : Editor) :
  let product := (scale (view st) * Math_pow api 1.1 (- deltaY e / 100))%float in
  let s' := scale (view (handleWheel api env e st)) in
  if wheelCtrlKey e || wheelMetaKey e then
    if PrimFloat.is_nan product then PrimFloat.is_nan s' = true
    else between 0.1 10 s' = true
  else s' = scale (view st).
Proof.
  intros product s'. unfold s', handleWheel.
  destruct (wheelCtrlKey e || wheelMetaKey e); [| by destruct (isRotated (view st))].
  pose proof (clamp_spec 0.1 10 product eq_refl eq_refl eq_refl) as Hc. simpl in Hc.
  fold product.
  destruct (negb (PrimFloat.eqb (Math_min (Math_max 0.1 product) 10) (scale (view st))))
    eqn:Heq; simpl; [done |].
  apply negb_false_iff in Heq.
  destruct (PrimFloat.is_nan product).
  - by rewrite (is_nan_eqb _ _ Hc) in Heq.
  - by rewrite <- (eqb_between _ _ _ _ Heq).
Qed.

(** X2: a move of two fingers after a two-finger press sets the scale to
    [NaN] exactly when the product of the old scale and the ratio of the
    new touch distance to the last one is [NaN] (as it is for two
    distances of 0), and otherwise to a number between 0.1 and 5: the
    pinch cannot zoom in as far as the wheel and the buttons can.  Every
    other pointer move leaves the scale as it is. *)
Theorem pinch_zoom_clamped (env : Env) (e : PointerEvent) (st : Editor) :
  let s' := scale (view (handlePointerMove api env e st)) in
  match e, lastTouchDistance (gesture st) with
  | TouchEvent t0 [t1], Some last =>
      let dist :=
        Math_hypot api (touchX t0 - touchX t1)%float (touchY t0 - touchY t1)%float in
      let product := (scale (view st) * (dist / last))%float in
      if PrimFloat.is_nan product then PrimFloat.is_nan s' = true
      else between 0.1 5 s' = true
  | _, _ => s' = scale (view st)
  end.
Proof.
  unfold handlePointerMove.
  destruct e as [cx cy bt | t0 [| t1 [| t2 more]]];
    try destruct (lastTouchDistance (gesture st)) as [last |];
    try (simpl; by apply (clamp_spec 0.1 5));
    (destruct (isPanning (gesture st)); [done |]);
    (destruct (negb _ || _); [done |]);
    by destruct (tool (tools st)).
Qed.

(** X3: the zoom-in button and Ctrl and [=] never take the scale above
    10, the zoom-out button and Ctrl and [-] never take it below 0.1;
    neither bounds the other side. *)
Theorem zoom_steps_bounded (env : Env) (st : Editor) (code : string) (meta : bool) :
  let atMost10 (s : Editor) :=
    PrimFloat.is_nan (scale (view s)) = true \/ PrimFloat.leb (scale (view s)) 10 = true in
  let atLeastTenth (s : Editor) :=
    PrimFloat.is_nan (scale (view s)) = true \/ PrimFloat.leb 0.1 (scale (view s)) = true in
  atMost10 (handle api env ZoomInClick st) /\
  atLeastTenth (handle api env ZoomOutClick st) /\
  atMost10 (handle api env (KeyDown (mkKeyboardEvent false code "=" true meta)) st) /\
  atLeastTenth (handle api env (KeyDown (mkKeyboardEvent false code "-" true meta)) st).
Proof.
  assert (forall v, PrimFloat.is_nan (Math_min 10 v) = true \/
                    PrimFloat.leb (Math_min 10 v) 10 = true) as Hup.
  { intros v. destruct (Math_min_spec 10 v) as [-> | (_ & _ & _ & H & _)]; auto. }
  assert (forall v, PrimFloat.is_nan (Math_max 0.1 v) = true \/
                    PrimFloat.leb 0.1 (Math_max 0.1 v) = true) as Hdown.
  { intros v. destruct (Math_max_spec 0.1 v) as [-> | (_ & _ & _ & H & _)]; auto. }
  simpl. unfold handleKeyDown. simpl.
  split; [apply Hup |]. split; [apply Hdown |].
  split; destruct (String.eqb code "Space" && _); simpl; auto.
Qed.

(** X4: resetting the view, and the fit that follows a change of
    orientation or image, never magnify: the scale they set is at most 1
    (or [NaN] when the container or image size gives no number); the fit
    does nothing while no image is loaded.  They have no lower bound. *)
Theorem resetView_never_magnifies (env : Env) (st : Editor) :
  let atMost1 (s : Editor) :=
    PrimFloat.is_nan (scale (view s)) = true \/ PrimFloat.leb (scale (view s)) 1 = true in
  atMost1 (resetView env st) /\
  (scale (view (fitScale env st)) = scale (view st) \/ atMost1 (fitScale env st)).
Proof.
  assert (forall v, PrimFloat.is_nan (Math_min v 1) = true \/
                    PrimFloat.leb (Math_min v 1) 1 = true) as Hup.
  { intros v. destruct (Math_min_spec v 1) as [-> | (_ & _ & _ & _ & H)]; auto. }
  split.
  - unfold resetView. simpl. destruct (imageLoaded (view st)); simpl; [apply Hup | by right].
  - unfold fitScale. destruct (imageLoaded (view st)); [right | by left]. apply Hup.
Qed.

End Zoom.

(** A scale of 0, which the fit leaves on a container 40 units wide, times
    an infinite zoom factor is [NaN]: the wheel sets the scale to [NaN]
    although the old scale and the wheel delta are numbers. *)
Example wheel_zero_scale_nan :
  let st := fitScale (mkEnv (mkDOMRect 0 0 3 3 2) (mkDOMRect 0 0 3 3 2) 40 100)
              demoEditor in
  let e := mkWheelEvent true false false 0 (-1000000) 1 1 in
  PrimFloat.eqb (scale (view st)) 0 = true /\
  PrimFloat.is_nan (scale (view (handleWheel overflowAPI demoEnv e st))) = true.
Proof. vm_compute. split; reflexivity. Qed.

(** Two fingers on the same point, at the press and at the move, have
    distance 0 both times: the ratio is 0 / 0 and the scale becomes
    [NaN]. *)
Example pinch_zero_distance_nan :
  let e := TouchEvent (mkTouch 1 1) [mkTouch 1 1] in
  let st := handle nullAPI demoEnv (PointerDown e) demoEditor in
  lastTouchDistance (gesture st) = Some 0%float /\
  PrimFloat.is_nan (scale (view (handle nullAPI demoEnv (PointerMove e) st))) = true.
Proof. vm_compute. split; reflexivity. Qed.

(** ** Sessions: the history stays usable *)

Lemma SessionInv_committed st st' :
  SessionInv st -> committed st st' -> SessionInv st'.
Proof.
  intros [Hidx Hshape Hwf] [Hsame Hh].
  assert (history (hist st') =
          take (Z.to_nat (historyIndex (hist st) + 1)) (history (hist st)) ++ [canvas st'])
    as Hhist.
  { rewrite Hh. simpl. rewrite slice0_take by lia. by rewrite getImageData_id. }
  split.
  - rewrite Hhist, Hh. simpl. rewrite slice0_take by lia.
    rewrite !length_app. simpl. lia.
  - intros i img. rewrite Hhist. intros Hl.
    apply lookup_app_Some in Hl as [Hl | [_ Hl]].
    + apply lookup_take_Some in Hl as [Hl _].
      eapply sameShape_trans; [apply sameShape_sym, Hsame | by eapply Hshape].
    + apply list_lookup_singleton_Some in Hl as [_ <-]. apply sameShape_refl.
  - by apply (sameShape_wf (canvas st)).
Qed.

Lemma SessionInv_frame st st' :
  SessionInv st -> hist st' = hist st -> sameShape (canvas st) (canvas st') ->
  SessionInv st'.
Proof.
  intros [Hidx Hshape Hwf] Hh Hs. split.
  - by rewrite Hh.
  - intros i img. rewrite Hh. intros Hl.
    eapply sameShape_trans; [apply sameShape_sym, Hs | by eapply Hshape].
  - by apply (sameShape_wf (canvas st)).
Qed.

Lemma removeColorAt_shape x y st : sameShape (canvas st) (canvas (removeColorAt x y st)).
Proof.
  unfold removeColorAt. destruct (_ || _); [apply sameShape_refl |].
  destruct (wandFill _ _ _ _ _); [| apply sameShape_refl].
  simpl. apply putImageData_shape.
Qed.

Lemma handle_shape (api : CanvasAPI) (env : Env) (ev : Event) (st : Editor) :
  sameShape (canvas st) (canvas (handle api env ev st)).
Proof.
  destruct ev as [e | e | e | | e | e | | |]; simpl.
  - unfold handleWheel. repeat case_match; apply sameShape_refl.
  - unfold handlePointerDown.
    destruct e as [cx cy bt | t0 [| t1 [| t2 more]]];
      try apply sameShape_refl;
      (destruct (Tool_eqb _ _ || _); [apply sameShape_refl |]);
      simpl; destruct (tool (tools st)) eqn:Ht; simpl; rewrite ?Ht;
      try apply sameShape_refl;
      try (unfold sampleColorAt; destruct (pixelData _ _ _) as [[[r g] b] |];
           apply sameShape_refl);
      match goal with
      | |- sameShape _ (canvas (setIsDrawing false (removeColorAt ?x ?y ?s))) =>
          apply (removeColorAt_shape x y s)
      end.
  - unfold handlePointerMove.
    destruct e as [cx cy bt | t0 [| t1 [| t2 more]]];
      try destruct (lastTouchDistance (gesture st));
      try apply sameShape_refl;
      (destruct (isPanning (gesture st)); [apply sameShape_refl |]);
      (destruct (negb _ || _); [apply sameShape_refl |]);
      destruct (tool (tools st)); simpl;
      try apply sameShape_refl; apply stroke_shape.
  - unfold handlePointerUp. simpl.
    destruct (isPanning (gesture st)); [apply sameShape_refl |].
    destruct (isDrawing (gesture st)); [| apply sameShape_refl]. simpl.
    destruct (_ || _); [apply sameShape_refl |].
    destruct (tool (tools st)); try apply sameShape_refl.
    + simpl. apply fillRect_shape.
    + destruct (useManualColor (tools st)).
      * simpl. rewrite canvas_setFillStyle. apply fillRect_shape.
      * destruct (getImageDataRect _ _ _ _ _ _); [| apply sameShape_refl].
        destruct (inferBgColor _ _ _) as [[r g] b]. simpl.
        rewrite canvas_setFillStyle. apply fillRect_shape.
  - unfold handleKeyDown. repeat case_match; try apply sameShape_refl;
      unfold resetView; simpl; case_match; apply sameShape_refl.
  - unfold handleKeyUp. repeat case_match; apply sameShape_refl.
  - apply sameShape_refl.
  - apply sameShape_refl.
  - unfold resetView; simpl; case_match; apply sameShape_refl.
Qed.

Lemma undo_restores st :
  SessionInv st -> historyIndex (hist st) > 0 ->
  exists img,
    history (hist st) !! Z.to_nat (historyIndex (hist st) - 1) = Some img /\
    undo st = Some (withCanvas img
                      (withHist (mkHistory (history (hist st)) (historyIndex (hist st) - 1))
                         st)).
Proof.
  intros [Hidx Hshape Hwf] Hpos.
  destruct (lookup_lt_is_Some_2 (history (hist st))
              (Z.to_nat (historyIndex (hist st) - 1))) as [img Himg]; [lia |].
  exists img. split; [done |]. unfold undo.
  destruct (Z.gtb_spec (historyIndex (hist st)) 0); [| lia].
  unfold nth_js. destruct (Z.ltb_spec (historyIndex (hist st) - 1) 0); [lia |].
  rewrite Himg. by rewrite (putImageData_same img (canvas st) Hwf (Hshape _ _ Himg)).
Qed.

Lemma redo_restores st :
  SessionInv st ->
  historyIndex (hist st) < Z.of_nat (length (history (hist st))) - 1 ->
  exists img,
    history (hist st) !! Z.to_nat (historyIndex (hist st) + 1) = Some img /\
    redo st = Some (withCanvas img
                      (withHist (mkHistory (history (hist st)) (historyIndex (hist st) + 1))
                         st)).
Proof.
  intros [Hidx Hshape Hwf] Hlt.
  destruct (lookup_lt_is_Some_2 (history (hist st))
              (Z.to_nat (historyIndex (hist st) + 1))) as [img Himg]; [lia |].
  exists img. split; [done |]. unfold redo.
  destruct (Z.ltb_spec (historyIndex (hist st))
              (Z.of_nat (length (history (hist st))) - 1)); [| lia].
  unfold nth_js. destruct (Z.ltb_spec (historyIndex (hist st) + 1) 0); [lia |].
  rewrite Himg. by rewrite (putImageData_same img (canvas st) Hwf (Hshape _ _ Himg)).
Qed.

Lemma SessionInv_moved st img k :
  SessionInv st -> history (hist st) !! Z.to_nat k = Some img ->
  0 <= k ->
  SessionInv (withCanvas img (withHist (mkHistory (history (hist st)) k) st)).
Proof.
  intros [Hidx Hshape Hwf] Himg Hk. split; simpl.
  - apply lookup_lt_Some in Himg. lia.
  - intros i x Hx. eapply sameShape_trans; [| by eapply Hshape].
    apply sameShape_sym. by eapply Hshape.
  - apply (sameShape_wf (canvas st)); [by eapply Hshape | done].
Qed.

Lemma undo_inv st : SessionInv st -> exists st', undo st = Some st' /\ SessionInv st'.
Proof.
  intros Hinv.
  destruct (Z.gtb_spec (historyIndex (hist st)) 0) as [Hpos | Hle].
  - destruct (undo_restores st Hinv) as (img & Himg & ->); [lia |].
    eexists. split; [reflexivity |]. apply SessionInv_moved; [done | done | lia].
  - exists st. split; [| done]. unfold undo.
    by destruct (Z.gtb_spec (historyIndex (hist st)) 0); [lia |].
Qed.

Lemma redo_inv st : SessionInv st -> exists st', redo st = Some st' /\ SessionInv st'.
Proof.
  intros Hinv.
  destruct (Z.ltb_spec (historyIndex (hist st))
              (Z.of_nat (length (history (hist st))) - 1)) as [Hlt | Hge].
  - destruct (redo_restores st Hinv Hlt) as (img & Himg & ->).
    eexists. split; [reflexivity |]. apply SessionInv_moved; [done | done |].
    destruct Hinv. lia.
  - exists st. split; [| done]. unfold redo.
    by destruct (Z.ltb_spec (historyIndex (hist st))
                   (Z.of_nat (length (history (hist st))) - 1)); [lia |].
Qed.

Lemma SessionInv_idle st st' :
  SessionInv st -> canvas st' = canvas st -> hist st' = hist st -> SessionInv st'.
Proof.
  intros Hinv Hc Hh. apply (SessionInv_frame st); [done | done |].
  rewrite Hc. apply sameShape_refl.
Qed.

Lemma act_inv (api : CanvasAPI) (a : Action) (st : Editor) :
  SessionInv st -> exists st', act api a st = Some st' /\ SessionInv st'.
Proof.
  intros Hinv. destruct a; simpl; try (by apply undo_inv); try (by apply redo_inv);
    eexists; (split; [reflexivity |]);
    try (by apply (SessionInv_idle st)).
  - destruct (handle_history api env ev st) as [Hh | Hc].
    + eapply SessionInv_frame; [done | done | apply handle_shape].
    + by eapply SessionInv_committed.
  - apply (SessionInv_idle st); [done | |]; unfold togglePipette; by repeat case_match.
  - destruct (commitTextBox_history api st) as [Hh | Hc].
    + eapply SessionInv_frame; [done | done |].
      unfold commitTextBox. destruct (pendingTextBox (tools st));
        [apply drawTextBox_shape | apply sameShape_refl].
    + by eapply SessionInv_committed.
  - apply (SessionInv_idle st); [done | |]; unfold checkOrientation; by case_match.
  - apply (SessionInv_idle st); [done | |]; unfold fitScale; by case_match.
Qed.

Lemma run_inv (api : CanvasAPI) (l : list Action) : forall st,
  SessionInv st -> exists st', run api l st = Some st' /\ SessionInv st'.
Proof.
  induction l as [| a l IH]; intros st Hinv; simpl.
  - by exists st.
  - destruct (act_inv api a st Hinv) as (st1 & -> & Hinv1). by apply IH.
Qed.

Lemma SessionInv_loadImage img :
  wf_image img -> SessionInv (loadImage img mountedEditor).
Proof.
  intros Hwf. destruct img as [w h d]. split.
  - simpl. lia.
  - intros [| i] x Hx; simpl in Hx; [| done]. inversion Hx. apply sameShape_refl.
  - exact Hwf.
Qed.

(** X5: however the session goes after an image was loaded (pointer,
    wheel and key events, tool and color changes, text-box commits,
    window resizes, and any number of undo and redo clicks in any order),
    every undo and redo finds the snapshot it needs, so none fails, and
    the history index always designates an entry of the history. *)
Theorem session_history_index_valid (api : CanvasAPI) (img : ImageData)
    (l : list Action) :
  wf_image img ->
  exists st, run api l (loadImage img mountedEditor) = Some st /\
    0 <= historyIndex (hist st) < Z.of_nat (length (history (hist st))).
Proof.
  intros Hwf.
  destruct (run_inv api l _ (SessionInv_loadImage img Hwf)) as (st & Hr & Hinv).
  exists st. split; [done | apply Hinv].
Qed.

Lemma session_history_index_valid_witness :
  exists st,
    run nullAPI [Dispatch demoEnv (PointerDown (MouseEvent 0.5 0.5 0)); ClickTool wand;
                 Dispatch demoEnv (PointerDown (MouseEvent 0.5 0.5 0)); ClickUndo;
                 ClickUndo; ClickRedo]
        (loadImage demoImage mountedEditor) = Some st /\
    0 <= historyIndex (hist st) < Z.of_nat (length (history (hist st))).
Proof.
  apply (session_history_index_valid nullAPI demoImage).
  unfold wf_image. simpl. lia.
Defined.

(** X6: at any point of a session, an undo with a previous entry to go
    to shows exactly that entry (the canvas becomes the snapshot at the
    index minus one, byte for byte), moves the index there and keeps the
    history as it is. *)
Theorem session_undo_shows_previous (api : CanvasAPI) (img : ImageData)
    (l : list Action) (st : Editor) :
  wf_image img ->
  run api l (loadImage img mountedEditor) = Some st ->
  historyIndex (hist st) > 0 ->
  exists st',
    undo st = Some st' /\
    history (hist st) !! Z.to_nat (historyIndex (hist st) - 1) = Some (canvas st') /\
    historyIndex (hist st') = historyIndex (hist st) - 1 /\
    history (hist st') = history (hist st).
Proof.
  intros Hwf Hr Hpos.
  destruct (run_inv api l _ (SessionInv_loadImage img Hwf)) as (st0 & Hr0 & Hinv).
  assert (st0 = st) as -> by congruence.
  destruct (undo_restores st Hinv Hpos) as (snap & Hs & Hu).
  eexists. split; [exact Hu |]. by simpl.
Qed.

Lemma session_undo_shows_previous_witness :
  let st := handle nullAPI demoEnv (PointerDown (MouseEvent 0.5 0.5 0))
              (selectTool wand demoEditor) in
  exists st',
    undo st = Some st' /\
    history (hist st) !! Z.to_nat (historyIndex (hist st) - 1) = Some (canvas st') /\
    historyIndex (hist st') = historyIndex (hist st) - 1 /\
    history (hist st') = history (hist st).
Proof.
  apply (session_undo_shows_previous nullAPI demoImage
           [ClickTool wand; Dispatch demoEnv (PointerDown (MouseEvent 0.5 0.5 0))]).
  - unfold wf_image. simpl. lia.
  - vm_compute. reflexivity.
  - vm_compute. reflexivity.
Defined.

(** X7: at any point of a session, a redo with a later entry to go to
    shows exactly that entry (the snapshot at the index plus one), moves
    the index there and keeps the history as it is. *)
Theorem session_redo_shows_next (api : CanvasAPI) (img : ImageData)
    (l : list Action) (st : Editor) :
  wf_image img ->
  run api l (loadImage img mountedEditor) = Some st ->
  historyIndex (hist st) < Z.of_nat (length (history (hist st))) - 1 ->
  exists st',
    redo st = Some st' /\
    history (hist st) !! Z.to_nat (historyIndex (hist st) + 1) = Some (canvas st') /\
    historyIndex (hist st') = historyIndex (hist st) + 1 /\
    history (hist st') = history (hist st).
Proof.
  intros Hwf Hr Hlt.
  destruct (run_inv api l _ (SessionInv_loadImage img Hwf)) as (st0 & Hr0 & Hinv).
  assert (st0 = st) as -> by congruence.
  destruct (redo_restores st Hinv Hlt) as (snap & Hs & Hu).
  eexists. split; [exact Hu |]. by simpl.
Qed.

Lemma session_redo_shows_next_witness :
  let st := default demoEditor
              (undo (handle nullAPI demoEnv (PointerDown (MouseEvent 0.5 0.5 0))
                       (selectTool wand demoEditor))) in
  exists st',
    redo st = Some st' /\
    history (hist st) !! Z.to_nat (historyIndex (hist st) + 1) = Some (canvas st') /\
    historyIndex (hist st') = historyIndex (hist st) + 1 /\
    history (hist st') = history (hist st).
Proof.
  apply (session_redo_shows_next nullAPI demoImage
           [ClickTool wand; Dispatch demoEnv (PointerDown (MouseEvent 0.5 0.5 0));
            ClickUndo]).
  - unfold wf_image. simpl. lia.
  - vm_compute. reflexivity.
  - vm_compute. reflexivity.
Defined.

(** X8: at any point of a session, undo followed by redo comes back to
    the same history and index, with the snapshot of that index on the
    canvas; when the canvas was that snapshot before the undo (the last
    change had been committed), the two clicks restore the state
    exactly. *)
Theorem session_undo_redo_round_trip (api : CanvasAPI) (img : ImageData)
    (l : list Action) (st : Editor) :
  wf_image img ->
  run api l (loadImage img mountedEditor) = Some st ->
  historyIndex (hist st) > 0 ->
  exists st1 st2,
    undo st = Some st1 /\ redo st1 = Some st2 /\
    hist st2 = hist st /\
    history (hist st) !! Z.to_nat (historyIndex (hist st)) = Some (canvas st2) /\
    (history (hist st) !! Z.to_nat (historyIndex (hist st)) = Some (canvas st) ->
     st2 = st).
Proof.
  intros Hwf Hr Hpos.
  destruct (run_inv api l _ (SessionInv_loadImage img Hwf)) as (st0 & Hr0 & Hinv).
  assert (st0 = st) as -> by congruence.
  destruct (undo_restores st Hinv Hpos) as (snap & Hs & Hu).
  set (st1 := withCanvas snap
                (withHist (mkHistory (history (hist st)) (historyIndex (hist st) - 1)) st))
    in *.
  assert (SessionInv st1) as Hinv1 by (apply SessionInv_moved; [done | done | lia]).
  destruct (redo_restores st1 Hinv1) as (cur & Hc & Hre).
  { simpl. destruct Hinv. lia. }
  simpl in Hc, Hre.
  replace (historyIndex (hist st) - 1 + 1) with (historyIndex (hist st)) in Hc, Hre by lia.
  exists st1. eexists. split; [exact Hu |]. split; [exact Hre |].
  split; [by destruct st as [c x [hs hi] v g t] |].
  split; [exact Hc |].
  simpl. intros Hcur. rewrite Hc in Hcur. inversion Hcur as [Heq].
  by destruct st as [c x [hs hi] v g t].
Qed.

Lemma session_undo_redo_round_trip_witness :
  let st := handle nullAPI demoEnv (PointerDown (MouseEvent 0.5 0.5 0))
              (selectTool wand demoEditor) in
  exists st1 st2,
    undo st = Some st1 /\ redo st1 = Some st2 /\
    hist st2 = hist st /\
    history (hist st) !! Z.to_nat (historyIndex (hist st)) = Some (canvas st2) /\
    (history (hist st) !! Z.to_nat (historyIndex (hist st)) = Some (canvas st) ->
     st2 = st).
Proof.
  apply (session_undo_redo_round_trip nullAPI demoImage
           [ClickTool wand; Dispatch demoEnv (PointerDown (MouseEvent 0.5 0.5 0))]).
  - unfold wf_image. simpl. lia.
  - vm_compute. reflexivity.
  - vm_compute. reflexivity.
Defined.

(** X9: every event handler is history-neutral or commits exactly once:
    after any pointer, wheel, key or zoom-button event the history is
    either untouched, or it is the entries up to the old index followed by
    one new entry, the canvas as the handler left it, with the index on
    that entry.  No event pushes two snapshots or a stale one. *)
Theorem handle_commits_at_most_once (api : CanvasAPI) (env : Env) (ev : Event)
    (st : Editor) :
  let st' := handle api env ev st in
  hist st' = hist st \/
  (history (hist st') =
     slice0 (history (hist st)) (historyIndex (hist st) + 1) ++ [canvas st'] /\
   historyIndex (hist st') = Z.of_nat (length (history (hist st'))) - 1).
Proof.
  destruct (handle_history api env ev st) as [Hh | [_ Hc]]; [by left | right].
  cbv zeta. rewrite Hc. simpl. by rewrite getImageData_id.
Qed.

(** ** Temporary panning with the space bar *)

Section SpaceBar.

Variable api : CanvasAPI.

(** With the hand tool and no drawing in progress, a pointer or wheel
    event changes neither the canvas, the history, the context nor the
    tool settings, and starts no drawing. *)
Lemma hand_tool_frame env ev st :
  pointerOrWheel ev = true ->
  tool (tools st) = hand -> isDrawing (gesture st) = false ->
  let st' := handle api env ev st in
  canvas st' = canvas st /\ hist st' = hist st /\ ctx st' = ctx st /\
  tools st' = tools st /\ isDrawing (gesture st') = false.
Proof.
  intros Hev Ht Hd. destruct ev as [e | e | e | | e | e | | |]; try done; simpl.
  - unfold handleWheel. repeat case_match; done.
  - unfold handlePointerDown.
    destruct e as [cx cy bt | t0 [| t1 [| t2 more]]]; rewrite ?Ht; simpl; done.
  - unfold handlePointerMove.
    destruct e as [cx cy bt | t0 [| t1 [| t2 more]]];
      try destruct (lastTouchDistance (gesture st)); try done;
      rewrite Hd; simpl; by destruct (isPanning (gesture st)).
  - unfold handlePointerUp. simpl. rewrite Hd.
    by destruct (isPanning (gesture st)).
Qed.

Lemma hand_tool_frame_all evs : forall st,
  forallb (fun p : Env * Event => pointerOrWheel p.2) evs = true ->
  tool (tools st) = hand -> isDrawing (gesture st) = false ->
  let st' := dispatchAll api evs st in
  canvas st' = canvas st /\ hist st' = hist st /\ ctx st' = ctx st /\
  tools st' = tools st.
Proof.
  induction evs as [| [env ev] evs IH]; intros st Hall Ht Hd; simpl; [done |].
  simpl in Hall. apply andb_prop in Hall as [Hev Hall].
  destruct (hand_tool_frame env ev st Hev Ht Hd) as (Hc & Hh & Hx & Hts & Hd').
  destruct (IH (handle api env ev st) Hall) as (Hc2 & Hh2 & Hx2 & Hts2).
  - by rewrite Hts.
  - done.
  - cbv zeta in *. unfold dispatchAll in *.
    rewrite Hc2, Hh2, Hx2, Hts2. done.
Qed.

(** X10: holding the space bar pans without side effects.  When Space
    goes down outside a text field with a tool other than the hand and no
    drawing in progress, then any pointer and wheel events arrive, then
    Space goes up: the canvas, the history and the drawing context are as
    before, and the tool is the one selected before Space went down. *)
Theorem space_hold_pans_only (env : Env) (down up : KeyboardEvent)
    (evs : list (Env * Event)) (st : Editor) :
  targetIsInput down = false -> code down = "Space" ->
  targetIsInput up = false -> code up = "Space" ->
  tool (tools st) <> hand -> isDrawing (gesture st) = false ->
  forallb (fun p : Env * Event => pointerOrWheel p.2) evs = true ->
  let st' := handleKeyUp up (dispatchAll api evs (handleKeyDown env down st)) in
  canvas st' = canvas st /\ hist st' = hist st /\ ctx st' = ctx st /\
  tool (tools st') = tool (tools st).
Proof.
  intros Hdi Hdc Hui Huc Htool Hdraw Hevs.
  set (st1 := handleKeyDown env down st).
  assert (canvas st1 = canvas st /\ hist st1 = hist st /\ ctx st1 = ctx st /\
          tool (tools st1) = hand /\ prevTool (tools st1) = tool (tools st) /\
          isDrawing (gesture st1) = false) as (Hc1 & Hh1 & Hx1 & Ht1 & Hp1 & Hd1).
  { unfold st1, handleKeyDown. rewrite Hdi, Hdc. simpl.
    assert (Tool_eqb (tool (tools st)) hand = false) as ->
      by (by destruct (tool (tools st))).
    simpl. repeat case_match; simpl; try done;
      unfold resetView; simpl; by case_match. }
  destruct (hand_tool_frame_all evs st1 Hevs Ht1 Hd1) as (Hc2 & Hh2 & Hx2 & Hts2).
  cbv zeta. fold st1. set (st2 := dispatchAll api evs st1) in *.
  unfold handleKeyUp. rewrite Hui, Huc, Hts2, Ht1. simpl.
  rewrite Hc2, Hh2, Hx2, Hp1. done.
Qed.

End SpaceBar.

Lemma space_hold_pans_only_witness :
  let down := mkKeyboardEvent false "Space" " " false false in
  let evs := [(demoEnv, PointerDown (MouseEvent 1 1 0));
              (demoEnv, PointerMove (MouseEvent 2 1 0));
              (demoEnv, PointerUp);
              (demoEnv, Wheel (mkWheelEvent true false false 0 (-100) 1 1))] in
  let st' := handleKeyUp down (dispatchAll nullAPI evs (handleKeyDown demoEnv down brushEditor)) in
  canvas st' = canvas brushEditor /\ hist st' = hist brushEditor /\
  ctx st' = ctx brushEditor /\ tool (tools st') = tool (tools brushEditor).
Proof.
  apply (space_hold_pans_only nullAPI demoEnv
           (mkKeyboardEvent false "Space" " " false false)
           (mkKeyboardEvent false "Space" " " false false)
           [(demoEnv, PointerDown (MouseEvent 1 1 0));
            (demoEnv, PointerMove (MouseEvent 2 1 0));
            (demoEnv, PointerUp);
            (demoEnv, Wheel (mkWheelEvent true false false 0 (-100) 1 1))]
           brushEditor); try reflexivity.
  simpl. discriminate.
Defined.

(** ** Drawing during a drag *)

Section Drag.

Variable api : CanvasAPI.

(** X11: while the pointer moves, only the brush draws: with any other
    tool a pointer move changes neither the canvas, the history, the
    drawing context nor the tool settings, whatever gesture is in
    progress (a selection rectangle is painted on release only). *)
Theorem only_brush_draws_on_move (env : Env) (e : PointerEvent) (st : Editor) :
  tool (tools st) <> brush ->
  let st' := handlePointerMove api env e st in
  canvas st' = canvas st /\ hist st' = hist st /\ ctx st' = ctx st /\
  tools st' = tools st.
Proof.
  intros Ht. unfold handlePointerMove.
  destruct e as [cx cy bt | t0 [| t1 [| t2 more]]];
    try destruct (lastTouchDistance (gesture st)); try done;
    (destruct (isPanning (gesture st)); [done |]);
    (destruct (negb _ || _); [done |]);
    by destruct (tool (tools st)).
Qed.

End Drag.

Lemma only_brush_draws_on_move_witness :
  let st := handle nullAPI demoEnv (PointerDown (MouseEvent 0 0 0)) demoEditor in
  let st' := handlePointerMove nullAPI demoEnv (MouseEvent 2 1 0) st in
  canvas st' = canvas st /\ hist st' = hist st /\ ctx st' = ctx st /\
  tools st' = tools st.
Proof.
  apply (only_brush_draws_on_move nullAPI demoEnv (MouseEvent 2 1 0)
           (handle nullAPI demoEnv (PointerDown (MouseEvent 0 0 0)) demoEditor)).
  vm_compute. discriminate.
Defined.

(** ** The pipette *)

Lemma hexChannels_bytes r g b :
  isByte r -> isByte g -> isByte b ->
  let c := Z.shiftl r 16 + Z.shiftl g 8 + b in
  0 <= c < 2 ^ 24 /\ hexChannels c = (r, g, b).
Proof.
  unfold isByte. intros Hr Hg Hb. cbv zeta.
  rewrite !Z.shiftl_mul_pow2 by lia.
  split; [lia |].
  unfold hexChannels. rewrite !Z.shiftr_div_pow2 by lia.
  change 255 with (Z.ones 8). rewrite !Z.land_ones by lia.
  change (2 ^ 16) with 65536. change (2 ^ 8) with 256.
  assert ((r * 65536 + g * 256 + b) / 65536 = r) as ->.
  { symmetry. apply (Z.div_unique _ _ _ (g * 256 + b)); lia. }
  assert ((r * 65536 + g * 256 + b) / 256 = r * 256 + g) as ->.
  { symmetry. apply (Z.div_unique _ _ _ b); lia. }
  assert (r mod 256 = r) as -> by (apply Z.mod_small; lia).
  assert ((r * 256 + g) mod 256 = g) as ->.
  { symmetry. apply (Z.mod_unique _ _ r); lia. }
  assert ((r * 65536 + g * 256 + b) mod 256 = b) as ->.
  { symmetry. apply (Z.mod_unique _ _ (r * 256 + g)); lia. }
  done.
Qed.

(** X12: the pipette picks exactly the clicked pixel's color.  For a
    pointer position whose floored coordinates (px, py) lie inside the
    canvas, [sampleColorAt] stores as the manual fill color the
    ['#rrggbb'] value that decodes to the red, green and blue bytes of
    pixel (px, py) of the canvas, switches the manual color on and
    returns to the text eraser; the canvas and the history are as
    before. *)
Theorem pipette_picks_pixel_color (x y : float) (st : Editor) px py r g b a :
  let w := width (canvas st) in
  let h := height (canvas st) in
  Forall isByte (data (canvas st)) ->
  Math_floor x = Fin px -> Math_floor y = Fin py ->
  inBounds w h px py -> px < 2 ^ 31 -> py < 2 ^ 31 ->
  pixelAt w (data (canvas st)) px py = (Some r, Some g, Some b, a) ->
  exists st' c,
    sampleColorAt x y st = Some st' /\
    manualBgColor (tools st') = CssHex c /\
    0 <= c < 2 ^ 24 /\
    hexChannels c = (r, g, b) /\
    useManualColor (tools st') = true /\ tool (tools st') = remove_text /\
    canvas st' = canvas st /\ hist st' = hist st.
Proof.
  intros w h Hb Hx Hy [Hpx Hpy] Hlx Hly Hpix.
  assert (isByte r /\ isByte g /\ isByte b) as (Hr & Hg & Hbb).
  { unfold pixelAt in Hpix. injection Hpix as HR HG HB HA.
    repeat split; eapply aget_byte; eauto. }
  destruct (hexChannels_bytes r g b Hr Hg Hbb) as [Hc Hh].
  unfold sampleColorAt, pixelData. rewrite Hx, Hy. unfold toLong.
  destruct (Z.leb_spec (- 2 ^ 31) px); [| lia].
  destruct (Z.leb_spec px (2 ^ 31 - 1)); [| lia].
  destruct (Z.leb_spec (- 2 ^ 31) py); [| lia].
  destruct (Z.leb_spec py (2 ^ 31 - 1)); [| lia]. simpl andb. cbv iota.
  fold w h.
  destruct (Z.leb_spec 0 px); [| lia].
  destruct (Z.ltb_spec px w); [| lia].
  destruct (Z.leb_spec 0 py); [| lia].
  destruct (Z.ltb_spec py h); [| lia]. simpl andb. cbv iota.
  rewrite Hpix. simpl default.
  eexists. eexists. split; [reflexivity |]. simpl. repeat split; auto; lia.
Qed.

Lemma pipette_picks_pixel_color_witness :
  exists st' c,
    sampleColorAt 1.5 0.5 demoEditor = Some st' /\
    manualBgColor (tools st') = CssHex c /\
    0 <= c < 2 ^ 24 /\
    hexChannels c = (125, 118, 205) /\
    useManualColor (tools st') = true /\ tool (tools st') = remove_text /\
    canvas st' = canvas demoEditor /\ hist st' = hist demoEditor.
Proof.
  apply (pipette_picks_pixel_color 1.5 0.5 demoEditor 1 0 125 118 205 (Some 255)).
  - simpl. unfold demoData. repeat constructor; unfold isByte; lia.
  - vm_compute. reflexivity.
  - vm_compute. reflexivity.
  - unfold inBounds. simpl. lia.
  - lia.
  - lia.
  - vm_compute. reflexivity.
Defined.

(** X26: a pipette press whose position has a floored coordinate that is
    [NaN], an infinity or outside the 32-bit integers makes
    [getImageData] throw.  The press stops there: no color is stored, the
    manual color stays off or on as it was, the pipette stays selected,
    the canvas and the history are as before, and the gesture is left in
    progress ([isDrawing] true) with the press position as its start and
    current position. *)
Theorem pipette_press_throws (api : CanvasAPI) (env : Env) (e : PointerEvent)
    (st : Editor) :
  let pos := getMousePos (canvasRect env) e st in
  tool (tools st) = pipette -> twoTouches e = false -> middleButton e = false ->
  toLong (Math_floor (posX pos)) = None \/ toLong (Math_floor (posY pos)) = None ->
  let st' := handlePointerDown api env e st in
  sampleColorAt (posX pos) (posY pos) st = None /\
  st' = setIsDrawing true (setCurrentPos pos (setStartPos pos st)) /\
  tools st' = tools st /\ canvas st' = canvas st /\ hist st' = hist st /\
  isDrawing (gesture st') = true.
Proof.
  intros pos Htool Htwo Hmid Hthrow st'.
  assert (forall s, canvas s = canvas st ->
            sampleColorAt (posX pos) (posY pos) s = None) as Hnone.
  { intros s Hs. unfold sampleColorAt, pixelData. rewrite Hs.
    destruct Hthrow as [-> | ->]; [done |].
    by destruct (toLong (Math_floor (posX pos))). }
  split; [by apply Hnone |].
  assert (st' = setIsDrawing true (setCurrentPos pos (setStartPos pos st))) as ->;
    [| done].
  unfold st', handlePointerDown.
  assert (Tool_eqb (tool (tools st)) hand || middleButton e = false) as Hpan
    by (by rewrite Htool, Hmid).
  destruct e as [cx cy bt | t0 [| t1 [| t2 more]]]; try done;
    rewrite Hpan; fold pos; simpl; rewrite Htool; simpl; rewrite Htool;
    by rewrite Hnone.
Qed.

Lemma pipette_press_throws_witness :
  let env := mkEnv (mkDOMRect 0 0 0 0 0) (mkDOMRect 0 0 0 0 0) 0 0 in
  let e := MouseEvent 0 0 0 in
  let st := setTool pipette demoEditor in
  PrimFloat.is_nan (posX (getMousePos (canvasRect env) e st)) = true /\
  (let pos := getMousePos (canvasRect env) e st in
   let st' := handlePointerDown nullAPI env e st in
   sampleColorAt (posX pos) (posY pos) st = None /\
   st' = setIsDrawing true (setCurrentPos pos (setStartPos pos st)) /\
   tools st' = tools st /\ canvas st' = canvas st /\ hist st' = hist st /\
   isDrawing (gesture st') = true).
Proof.
  split; [vm_compute; reflexivity |].
  apply (pipette_press_throws nullAPI
           (mkEnv (mkDOMRect 0 0 0 0 0) (mkDOMRect 0 0 0 0 0) 0 0)
           (MouseEvent 0 0 0) (setTool pipette demoEditor)).
  - reflexivity.
  - reflexivity.
  - reflexivity.
  - left. vm_compute. reflexivity.
Defined.

(** ** The color wand: what it never does *)

Lemma onlyWhitened_refl d : onlyWhitened d d.
Proof. split; [done | by left]. Qed.

Lemma onlyWhitened_trans a b c :
  onlyWhitened a b -> onlyWhitened b c -> onlyWhitened a c.
Proof.
  intros [Hl1 H1] [Hl2 H2]. split; [congruence |].
  intros i. destruct (H2 i) as [-> | ->]; [apply H1 | by right].
Qed.

Lemma aput_whitened d i : onlyWhitened d (aput d i 255).
Proof.
  split; [apply length_aput |]. intros j.
  destruct (Z.eq_dec i j) as [-> | Hne]; [| left; by apply aget_aput_ne].
  destruct (aget (aput d j 255) j) as [v |] eqn:Hv; [| left].
  - right. pose proof (aget_Some_range _ _ _ Hv) as Hr. rewrite length_aput in Hr.
    rewrite aget_aput_eq in Hv by done. congruence.
  - destruct (aget d j) as [v |] eqn:Hd; [| done].
    apply aget_Some_range in Hd. rewrite aget_aput_eq in Hv by done. done.
Qed.

Lemma fill4_whitened d p : onlyWhitened d (fill4 d p).
Proof.
  unfold fill4.
  repeat (eapply onlyWhitened_trans; [| apply aput_whitened]).
  apply onlyWhitened_refl.
Qed.

Lemma floodStep_whitened w h tR tG tB s :
  onlyWhitened (fdata s) (fdata (floodStep w h tR tG tB s)).
Proof.
  unfold floodStep. repeat case_match; simpl;
    try apply onlyWhitened_refl; apply fill4_whitened.
Qed.

Lemma floodLoop_whitened fuel w h tR tG tB : forall s,
  onlyWhitened (fdata s) (fdata (floodLoop fuel w h tR tG tB s)).
Proof.
  induction fuel as [| fuel IH]; intros s; simpl; [apply onlyWhitened_refl |].
  destruct (fstack s); [apply onlyWhitened_refl |].
  eapply onlyWhitened_trans; [apply floodStep_whitened | apply IH].
Qed.

Lemma wandFill_whitened w h d sx sy d' :
  wandFill w h d sx sy = Some d' -> onlyWhitened d d'.
Proof.
  unfold wandFill.
  destruct (_ && _); [done |]. destruct (_ && _); [done |]. intros [= <-].
  apply (floodLoop_whitened _ w h _ _ _ (floodInit w h d sx sy)).
Qed.

Lemma removeColorAt_canvas (st : Editor) startX startY d :
  let w := width (canvas st) in
  let h := height (canvas st) in
  wf_image (canvas st) ->
  floored_lt (Math_floor startX) 0 || floored_ge (Math_floor startX) w ||
  floored_lt (Math_floor startY) 0 || floored_ge (Math_floor startY) h = false ->
  wandFill w h (data (canvas st)) (floored_index (Math_floor startX))
    (floored_index (Math_floor startY)) = Some d ->
  removeColorAt startX startY st =
    saveState (withCanvas (mkImageData w h d) st).
Proof.
  intros w h Hwf Hg Hf. unfold removeColorAt. fold w h. rewrite Hg. simpl data.
  rewrite Hf. f_equal. f_equal.
  apply putImageData_same; [done |].
  destruct (wandFill_whitened _ _ _ _ _ _ Hf) as [Hl _].
  repeat split; simpl; auto.
Qed.

(** X13: for every pointer position, in range or not, a number or not,
    the color wand keeps the size of the bitmap and changes bytes only by
    setting them to 255: no channel is ever darkened and no alpha value
    is ever lowered. *)
Theorem wand_only_whitens (st : Editor) (startX startY : float) :
  wf_image (canvas st) ->
  let st' := removeColorAt startX startY st in
  sameShape (canvas st) (canvas st') /\
  onlyWhitened (data (canvas st)) (data (canvas st')).
Proof.
  intros Hwf st'. split; [apply removeColorAt_shape |].
  unfold st'.
  destruct (floored_lt (Math_floor startX) 0 ||
            floored_ge (Math_floor startX) (width (canvas st)) ||
            floored_lt (Math_floor startY) 0 ||
            floored_ge (Math_floor startY) (height (canvas st))) eqn:Hg.
  { unfold removeColorAt. rewrite Hg. apply onlyWhitened_refl. }
  destruct (wandFill (width (canvas st)) (height (canvas st)) (data (canvas st))
              (floored_index (Math_floor startX)) (floored_index (Math_floor startY)))
    as [d |] eqn:Hf.
  - rewrite (removeColorAt_canvas st startX startY d Hwf Hg Hf). simpl.
    by eapply wandFill_whitened.
  - unfold removeColorAt. rewrite Hg. simpl data. rewrite Hf. apply onlyWhitened_refl.
Qed.

Lemma wand_only_whitens_witness :
  let st' := removeColorAt 0.5 0.5 demoEditor in
  sameShape (canvas demoEditor) (canvas st') /\
  onlyWhitened (data (canvas demoEditor)) (data (canvas st')).
Proof.
  apply (wand_only_whitens demoEditor 0.5 0.5).
  unfold wf_image. simpl. lia.
Defined.

(** X14: a wand click is all or nothing for the history: either the
    state is returned unchanged (seed out of range, near-white or
    near-black), or the new canvas is pushed as a snapshot right after
    the current index, once. *)
Theorem wand_click_all_or_nothing (st : Editor) (startX startY : float) :
  let st' := removeColorAt startX startY st in
  st' = st \/
  (history (hist st') =
     slice0 (history (hist st)) (historyIndex (hist st) + 1) ++ [canvas st'] /\
   historyIndex (hist st') = Z.of_nat (length (history (hist st'))) - 1 /\
   ctx st' = ctx st /\ view st' = view st /\ tools st' = tools st).
Proof.
  cbv zeta. unfold removeColorAt.
  destruct (_ || _); [by left |].
  destruct (wandFill _ _ _ _ _); [right | by left].
  simpl. by rewrite getImageData_id.
Qed.

(** X15: a click whose position is not a number passes the bounds check
    of the wand (every comparison with [NaN] is false); the traversal then
    visits nothing, so no pixel changes, yet the unchanged canvas is
    pushed as a new snapshot: the click costs one undo step and discards
    the redo entries. *)
Theorem wand_nan_seed_pushes_unchanged (st : Editor) (startX startY : float) :
  wf_image (canvas st) ->
  Math_floor startX = NaN \/ Math_floor startY = NaN ->
  floored_lt (Math_floor startX) 0 || floored_ge (Math_floor startX) (width (canvas st)) ||
  floored_lt (Math_floor startY) 0 || floored_ge (Math_floor startY) (height (canvas st))
    = false ->
  removeColorAt startX startY st = saveState st /\
  history (hist (removeColorAt startX startY st)) =
    slice0 (history (hist st)) (historyIndex (hist st) + 1) ++ [canvas st].
Proof.
  intros Hwf Hnan Hg.
  assert (wandFill (width (canvas st)) (height (canvas st)) (data (canvas st))
            (floored_index (Math_floor startX)) (floored_index (Math_floor startY))
          = Some (data (canvas st))) as Hf.
  { unfold wandFill.
    assert (floored_index (Math_floor startX) = None \/
            floored_index (Math_floor startY) = None) as Hi
      by (destruct Hnan as [-> | ->]; auto).
    destruct (floored_index (Math_floor startX)) as [x |],
             (floored_index (Math_floor startY)) as [y |];
      try (by destruct Hi); simpl;
      destruct (floodBudget _ _) as [| [| n]]; reflexivity. }
  rewrite (removeColorAt_canvas st startX startY _ Hwf Hg Hf).
  assert (withCanvas (mkImageData (width (canvas st)) (height (canvas st))
                        (data (canvas st))) st = st) as ->
    by (by destruct st as [[w h d] x hs v g t]).
  split; [done |]. simpl. by rewrite getImageData_id.
Qed.

Lemma wand_nan_seed_pushes_unchanged_witness :
  removeColorAt PrimFloat.nan 0.5 demoEditor = saveState demoEditor /\
  history (hist (removeColorAt PrimFloat.nan 0.5 demoEditor)) =
    slice0 (history (hist demoEditor)) (historyIndex (hist demoEditor) + 1)
      ++ [canvas demoEditor].
Proof.
  apply (wand_nan_seed_pushes_unchanged demoEditor PrimFloat.nan 0.5).
  - unfold wf_image. simpl. lia.
  - left. vm_compute. reflexivity.
  - vm_compute. reflexivity.
Defined.

(** X16: the wand is idempotent.  After a fill from an in-range seed
    that is neither near-white nor near-black, the seed pixel is opaque
    white, so a second click at the same position is refused by the
    near-white guard: it returns the state unchanged and pushes no second
    snapshot. *)
Theorem wand_second_click_is_noop (st : Editor) startX startY sx sy r g b a :
  let w := width (canvas st) in
  let h := height (canvas st) in
  wf_image (canvas st) ->
  Math_floor startX = Fin sx -> Math_floor startY = Fin sy ->
  inBounds w h sx sy ->
  pixelAt w (data (canvas st)) sx sy = (Some r, Some g, Some b, a) ->
  ~ (r > 240 /\ g > 240 /\ b > 240) ->
  ~ (r < 50 /\ g < 50 /\ b < 50) ->
  let st' := removeColorAt startX startY st in
  pixelAt w (data (canvas st')) sx sy = opaqueWhite /\
  removeColorAt startX startY st' = st'.
Proof.
  intros w h Hwf HfX HfY Hseed Hpx Hnw Hnb st'.
  pose proof Hwf as (Hw0 & Hh0 & Hlen).
  destruct (wandFill_region w h (data (canvas st)) sx sy r g b a Hlen Hseed Hpx Hnw Hnb)
    as (d' & Hfill & Hlen' & Hreg).
  assert (st' = saveState (withCanvas (mkImageData w h d') st)) as Hst.
  { unfold st'. apply removeColorAt_canvas; [done | |].
    - rewrite HfX, HfY. by apply removeColorAt_guard_in.
    - by rewrite HfX, HfY. }
  assert (pixelAt w d' sx sy = opaqueWhite) as Hwhite.
  { apply (Hreg sx sy Hseed). apply region_seed; [done |].
    unfold matchesAt. rewrite Hpx. apply matchColor_self. }
  rewrite Hst. simpl. split; [done |].
  rewrite <- Hst. unfold removeColorAt. rewrite HfX, HfY.
  assert (width (canvas st') = w /\ height (canvas st') = h /\ data (canvas st') = d')
    as (-> & -> & Hd) by (by rewrite Hst).
  pose proof (removeColorAt_guard_in st sx sy Hseed) as Hg. fold w h in Hg.
  rewrite Hg. simpl floored_index. simpl data. rewrite Hd.
  unfold pixelAt, opaqueWhite in Hwhite. injection Hwhite as HR HG HB HA.
  unfold wandFill. rewrite Z.add_0_r, HR, HG, HB. reflexivity.
Qed.

Lemma wand_second_click_is_noop_witness :
  let st' := removeColorAt 0.5 0.5 demoEditor in
  pixelAt 3 (data (canvas st')) 0 0 = opaqueWhite /\
  removeColorAt 0.5 0.5 st' = st'.
Proof.
  apply (wand_second_click_is_noop demoEditor 0.5 0.5 0 0 120 120 200 (Some 255)).
  - unfold wf_image. simpl. lia.
  - vm_compute. reflexivity.
  - vm_compute. reflexivity.
  - unfold inBounds. simpl. lia.
  - vm_compute. reflexivity.
  - lia.
  - lia.
Defined.

(** ** The inferred background color on a sample of whole-number size *)

Lemma filter_ext_in {A : Type} (P Q : A -> Prop)
    `{!forall x, Decision (P x), !forall x, Decision (Q x)} (l : list A) :
  (forall x, x ∈ l -> (P x <-> Q x)) -> filter P l = filter Q l.
Proof.
  induction l as [| a l IH]; intros Hext; [done |].
  rewrite !filter_cons.
  assert (filter P l = filter Q l) as -> by (apply IH; intros x Hx; apply Hext; by right).
  pose proof (Hext a ltac:(left)) as Ha.
  destruct (decide (P a)), (decide (Q a)); tauto.
Qed.

Lemma scanOrder_whole W H :
  0 <= W < 2 ^ 53 -> 0 <= H < 2 ^ 53 ->
  scanOrder (num W) (num H) = (py ← seqZ 0 H; px ← seqZ 0 W; [(px, py)]).
Proof.
  intros HW HH. unfold scanOrder.
  by rewrite (repr_loopCount _ _ (repr_num W HW)), (repr_loopCount _ _ (repr_num H HH)).
Qed.

Lemma scan_in W H (p : Z * Z) :
  p ∈ (py ← seqZ 0 H; px ← seqZ 0 W; [(px, py)]) ->
  0 <= p.1 < W /\ 0 <= p.2 < H.
Proof.
  intros Hp. apply list_elem_of_bind in Hp as (py & Hp & Hpy).
  apply list_elem_of_bind in Hp as (px & Hp & Hpx).
  apply list_elem_of_singleton in Hp as ->. simpl.
  apply elem_of_seqZ in Hpy, Hpx. lia.
Qed.

Lemma onEdge_whole W H px py :
  0 <= px < W -> 0 <= py < H -> W < 2 ^ 53 -> H < 2 ^ 53 ->
  onEdge (num W) (num H) px py = isEdge W H px py.
Proof.
  intros Hpx Hpy HW HH. unfold onEdge, isEdge.
  assert (1%float = num 1) as -> by (vm_compute; reflexivity).
  assert (repr (num 1) 1) as H1 by (apply repr_num; change (2 ^ 53) with 9007199254740992; lia).
  rewrite (repr_eqb (num px) (num W - num 1) px (W - 1)).
  2:{ apply repr_num. lia. }
  2:{ apply repr_sub; [apply repr_num; lia | done | lia]. }
  rewrite (repr_eqb (num py) (num H - num 1) py (H - 1)).
  2:{ apply repr_num. lia. }
  2:{ apply repr_sub; [apply repr_num; lia | done | lia]. }
  done.
Qed.

Lemma readSample_whole W d px py :
  0 <= px < W -> 0 <= py -> W < 2 ^ 53 -> (py * W + px) * 4 + 2 < 2 ^ 53 ->
  readSample (num W) d px py = pixelRGB W d px py.
Proof.
  intros Hpx Hpy HW Hb. unfold readSample, pixelRGB, pixelAt.
  assert (0 <= py * W) by (apply Z.mul_nonneg_nonneg; lia).
  assert (py <= py * W) by (replace py with (py * 1) at 1 by lia;
                            apply Z.mul_le_mono_nonneg_l; lia).
  assert (1%float = num 1) as -> by (vm_compute; reflexivity).
  assert (2%float = num 2) as -> by (vm_compute; reflexivity).
  assert (4%float = num 4) as -> by (vm_compute; reflexivity).
  assert (forall z, 0 <= z <= (py * W + px) * 4 + 2 -> repr (num z) z) as Hnum
    by (intros z Hz; apply repr_num; lia).
  assert (repr (num py * num W + num px) (py * W + px)) as Hi0.
  { apply repr_add; [apply repr_mul | apply Hnum; lia | lia].
    - apply Hnum. lia.
    - apply repr_num. lia.
    - lia. }
  assert (forall z, 0 <= z <= 4 -> repr (num z) z) as Hc
    by (intros z Hz; apply repr_num; change (2 ^ 53) with 9007199254740992; lia).
  assert (repr ((num py * num W + num px) * num 4) ((py * W + px) * 4)) as Hi.
  { apply repr_mul; [done | apply Hc; lia | lia]. }
  assert (repr ((num py * num W + num px) * num 4 + num 1) ((py * W + px) * 4 + 1)) as Hi1.
  { apply repr_add; [done | apply Hc; lia | lia]. }
  assert (repr ((num py * num W + num px) * num 4 + num 2) ((py * W + px) * 4 + 2)) as Hi2.
  { apply repr_add; [done | apply Hc; lia | lia]. }
  unfold fget.
  by rewrite (repr_float_index _ _ Hi), (repr_float_index _ _ Hi1),
             (repr_float_index _ _ Hi2).
Qed.

(** On a sample of whole-number size the loops read the outer edge of the
    sample: the index [(py * sampleW + px) * 4] is computed exactly, and it
    is the index of pixel (px, py). *)
Lemma keptSamples_whole W H d :
  0 < W -> 0 < H -> W * H * 4 < 2 ^ 53 ->
  keptSamples (num W) (num H) d = edgeKept W H d.
Proof.
  intros HW HH Hb.
  assert (W <= W * H) by (replace W with (W * 1) at 1 by lia;
                          apply Z.mul_le_mono_nonneg_l; lia).
  assert (H <= W * H) by (replace H with (1 * H) at 1 by lia;
                          apply Z.mul_le_mono_nonneg_r; lia).
  unfold keptSamples, edgeKept, edgeSamples, edgePositions.
  rewrite scanOrder_whole by lia. f_equal.
  rewrite (filter_ext_in (fun p : Z * Z => onEdge (num W) (num H) p.1 p.2 = true)
             (fun p : Z * Z => isEdge W H p.1 p.2 = true)).
  2:{ intros p Hp. apply scan_in in Hp as [Hp1 Hp2].
      by rewrite onEdge_whole by lia. }
  apply Forall_fmap_ext_1, Forall_forall. intros p Hp.
  apply list_elem_of_filter in Hp as [_ Hp]. apply scan_in in Hp as [Hp1 Hp2].
  apply readSample_whole; [lia | lia | lia |].
  assert (p.2 * W <= (H - 1) * W) by (apply Z.mul_le_mono_nonneg_r; lia).
  lia.
Qed.

Lemma edgeKept_nonempty W H d : edgeKept W H d <> [] -> 0 < W /\ 0 < H.
Proof.
  intros Hne.
  destruct (Z.lt_ge_cases 0 W) as [| HW], (Z.lt_ge_cases 0 H) as [| HH]; try done;
    exfalso; apply Hne; unfold edgeKept, edgeSamples, edgePositions.
  - by rewrite (seqZ_nil 0 H) by lia.
  - rewrite (seqZ_nil 0 W) by lia. simpl.
    by induction (seqZ 0 H) as [| y l IH].
  - by rewrite (seqZ_nil 0 H) by lia.
Qed.

(** C2 as the code has it, on a sample of whole-number width and height
    (the case in which the loops do read the outer edge of the sample):
    when at least one pixel of the outer edge survives the dark-pixel
    discard, the inferred fill color is the last color seen, in row-major
    scan order over that edge, within a most-populous width-5-per-channel
    bucket; among equally populous buckets it is the one whose last
    sample comes first in the scan. *)
Theorem inferBgColor_last_in_most_populous (W H : Z) (sampleData : list Z) :
  W * H * 4 < 2 ^ 53 ->
  edgeKept W H sampleData <> [] ->
  lastInMostPopulous (edgeKept W H sampleData)
                     (inferBgColor (num W) (num H) sampleData).
Proof.
  intros Hb Hne. destruct (edgeKept_nonempty W H sampleData Hne) as [HW HH].
  rewrite <- (keptSamples_whole W H sampleData HW HH Hb) in *.
  by apply inferBgColor_last_of_reads.
Qed.

Lemma inferBgColor_last_in_most_populous_witness :
  edgeKept 3 1 ringData =
    [(Some 240, Some 240, Some 235); (Some 241, Some 240, Some 235)] /\
  lastInMostPopulous (edgeKept 3 1 ringData) (inferBgColor (num 3) (num 1) ringData).
Proof.
  split; [vm_compute; reflexivity |].
  apply (inferBgColor_last_in_most_populous 3 1 ringData).
  - vm_compute. reflexivity.
  - vm_compute. discriminate.
Defined.

(** C2 as stated fails: the two light pixels of the 3 x 1 sample
    [ringData] share the bucket (240, 240, 235); the loop leaves the
    color of the second one, not of the first one seen. *)
Lemma first_color_counterexample :
  edgeKept 3 1 ringData =
    [(Some 240, Some 240, Some 235); (Some 241, Some 240, Some 235)] /\
  inferBgColor 3 1 ringData = (Some 241, Some 240, Some 235) /\
  ~ firstInMostPopulous (edgeKept 3 1 ringData) (inferBgColor 3 1 ringData).
Proof.
  assert (edgeKept 3 1 ringData =
            [(Some 240, Some 240, Some 235); (Some 241, Some 240, Some 235)]) as Hk
    by (vm_compute; reflexivity).
  assert (inferBgColor 3 1 ringData = (Some 241, Some 240, Some 235)) as Hb
    by (vm_compute; reflexivity).
  rewrite Hk, Hb. repeat split.
  intros (j & Hj & Hfirst & _).
  specialize (Hfirst 0%nat (Some 240, Some 240, Some 235) eq_refl eq_refl).
  assert (j = 0%nat) as -> by lia. simpl in Hj. discriminate.
Qed.

(** On a sample whose size is not a whole number the loops do not read
    the outer edge.  With [sampleW = sampleH = 4.3] on a 4 x 4 block, the
    columns and rows tested against [sampleW - 1] and [sampleH - 1] are
    never met, and the index [(py * sampleW + px) * 4] of every row but
    the first is fractional, so its reads are [undefined].  On
    [cornerData] the undefined reads fill the most populous bucket and
    the inferred color is undefined, where the outer edge of the block
    gives light gray; on [darkData] the outer edge has no pixel that is
    not dark, and the inferred color is undefined, not white. *)
Example inferBgColor_fractional_size :
  length (edgeKept 4 4 cornerData) = 10%nat /\
  inferBgColor (num 4) (num 4) cornerData = (Some 200, Some 200, Some 200) /\
  inferBgColor fractionalSize fractionalSize cornerData = (None, None, None) /\
  edgeKept 4 4 darkData = [] /\
  inferBgColor (num 4) (num 4) darkData = (Some 255, Some 255, Some 255) /\
  inferBgColor fractionalSize fractionalSize darkData = (None, None, None).
Proof. vm_compute. repeat split; reflexivity. Qed.

(** X17: on a sample of whole-number size the inferred fill color is
    never a dark one (never three channels below 80): it is opaque white
    or the color of a pixel of the outer edge of the sample that is not
    dark. *)
Theorem inferBgColor_never_dark (W H : Z) (sampleData : list Z) :
  0 <= W -> 0 <= H -> W * H * 4 < 2 ^ 53 ->
  let c := inferBgColor (num W) (num H) sampleData in
  isDark c = false /\
  (c = (Some 255, Some 255, Some 255) \/
   exists px py, 0 <= px < W /\ 0 <= py < H /\ isEdge W H px py = true /\
                 c = pixelRGB W sampleData px py).
Proof.
  intros HW HH Hb c.
  destruct (edgeKept W H sampleData) as [| s l] eqn:Hk.
  - assert (c = (Some 255, Some 255, Some 255)) as ->; [| split; [done | by left]].
    unfold c. apply inferBgColor_default.
    destruct (Z.eq_dec W 0) as [-> | HW0]; [| destruct (Z.eq_dec H 0) as [-> | HH0]].
    + unfold keptSamples, scanOrder.
      replace (loopCount (num 0)) with 0 by (vm_compute; reflexivity). simpl.
      by induction (seqZ 0 (loopCount (num H))).
    + unfold keptSamples, scanOrder.
      by replace (loopCount (num 0)) with 0 by (vm_compute; reflexivity).
    + by rewrite keptSamples_whole by lia.
  - assert (edgeKept W H sampleData <> []) as Hne by (by rewrite Hk).
    destruct (edgeKept_nonempty W H sampleData Hne) as [HW' HH'].
    pose proof (inferBgColor_last_of_reads (num W) (num H) sampleData) as Hlast.
    rewrite (keptSamples_whole W H sampleData HW' HH' Hb) in Hlast.
    destruct (Hlast Hne) as (j & Hj & _).
    fold c in Hj. apply list_elem_of_lookup_2 in Hj.
    unfold edgeKept in Hj. apply list_elem_of_filter in Hj as [Hd Hj].
    split; [done | right].
    unfold edgeSamples in Hj. apply list_elem_of_fmap in Hj as ([px py] & Hc & Hp).
    unfold edgePositions in Hp. apply list_elem_of_filter in Hp as [He Hp].
    apply scan_in in Hp as [Hp1 Hp2]. simpl in *. eauto 10.
Qed.

Lemma inferBgColor_never_dark_witness :
  let c := inferBgColor (num 3) (num 1) ringData in
  isDark c = false /\
  (c = (Some 255, Some 255, Some 255) \/
   exists px py, 0 <= px < 3 /\ 0 <= py < 1 /\ isEdge 3 1 px py = true /\
                 c = pixelRGB 3 ringData px py).
Proof.
  apply (inferBgColor_never_dark 3 1 ringData); [lia | lia |].
  vm_compute. reflexivity.
Defined.

Lemma loopCount_not_positive f : PrimFloat.ltb 0 f = false -> loopCount f = 0.
Proof.
  rewrite FloatAxioms.ltb_spec. unfold loopCount, SFltb.
  change (Prim2SF 0) with (S754_zero false).
  destruct (Prim2SF f) as [s | s | | s m e]; try done. by destruct s.
Qed.

Lemma scanOrder_empty sampleW sampleH :
  loopCount sampleW = 0 \/ loopCount sampleH = 0 -> scanOrder sampleW sampleH = [].
Proof.
  unfold scanOrder. intros [-> | ->]; [| done].
  simpl. induction (seqZ 0 (loopCount sampleH)) as [| y l IH]; [done | by simpl].
Qed.

(** X18: with nothing to count the fill color is opaque white: when the
    sample has no column or no row (a width or height that is zero,
    negative or [NaN]), or when its size is a whole number and every
    pixel of its outer edge is dark. *)
Theorem inferBgColor_white_without_samples (sampleW sampleH : float)
    (sampleData : list Z) :
  PrimFloat.ltb 0 sampleW = false \/ PrimFloat.ltb 0 sampleH = false \/
  (exists W H, sampleW = num W /\ sampleH = num H /\
               0 < W /\ 0 < H /\ W * H * 4 < 2 ^ 53 /\
               Forall (fun s => isDark s = true) (edgeSamples W H sampleData)) ->
  inferBgColor sampleW sampleH sampleData = (Some 255, Some 255, Some 255).
Proof.
  intros Hcase. apply inferBgColor_default.
  destruct Hcase as [Hw | [Hh | (W & H & -> & -> & HW & HH & Hb & Hall)]].
  - unfold keptSamples. rewrite scanOrder_empty; [done |].
    left. by apply loopCount_not_positive.
  - unfold keptSamples. rewrite scanOrder_empty; [done |].
    right. by apply loopCount_not_positive.
  - rewrite keptSamples_whole by lia.
    unfold edgeKept. induction Hall as [| s l Hs Hl IH]; [done |].
    rewrite filter_cons. destruct (decide (isDark s = false)); [congruence | done].
Qed.

Lemma inferBgColor_white_without_samples_witness :
  inferBgColor 0 3 ringData = (Some 255, Some 255, Some 255) /\
  inferBgColor (num 4) (num 4) darkData = (Some 255, Some 255, Some 255).
Proof.
  split.
  - apply (inferBgColor_white_without_samples 0 3 ringData).
    left. vm_compute. reflexivity.
  - apply (inferBgColor_white_without_samples (num 4) (num 4) darkData).
    right. right. exists 4, 4.
    split; [reflexivity |]. split; [reflexivity |].
    split; [lia |]. split; [lia |].
    split; [vm_compute; reflexivity |].
    vm_compute. repeat constructor.
Defined.

(** X19: two colors counted in the same bucket differ by at most 4 in
    every channel (the buckets are 5 wide and centred on the multiples
    of 5). *)
Theorem same_bucket_close (r g b r' g' b' : Z) :
  keyOf (Some r, Some g, Some b) = keyOf (Some r', Some g', Some b') ->
  Z.abs (r - r') <= 4 /\ Z.abs (g - g') <= 4 /\ Z.abs (b - b') <= 4.
Proof.
  assert (forall v v', (2 * v + 5) / 10 * 5 = (2 * v' + 5) / 10 * 5 ->
                       Z.abs (v - v') <= 4) as Hq.
  { intros v v' He.
    pose proof (Z.div_mod (2 * v + 5) 10). pose proof (Z.div_mod (2 * v' + 5) 10).
    pose proof (Z.mod_pos_bound (2 * v + 5) 10).
    pose proof (Z.mod_pos_bound (2 * v' + 5) 10). lia. }
  unfold keyOf, quantize. intros [= Hr Hg Hb]. auto.
Qed.

Lemma same_bucket_close_witness :
  keyOf (Some 238, Some 240, Some 233) = keyOf (Some 242, Some 240, Some 237) /\
  Z.abs (238 - 242) <= 4 /\ Z.abs (240 - 240) <= 4 /\ Z.abs (233 - 237) <= 4.
Proof.
  split; [reflexivity |].
  apply (same_bucket_close 238 240 233 242 240 237). reflexivity.
Defined.

(** ** The text of a text box *)

Lemma split_nonempty sep s : split sep s <> [].
Proof.
  destruct s as [| c s]; simpl; [done |].
  destruct (Ascii.eqb c sep); [done |]. by destruct (split sep s).
Qed.

Lemma append_cons c (a b : string) :
  String.append (String c a) b = String c (String.append a b).
Proof. reflexivity. Qed.

Lemma append_assoc (a b c : string) :
  String.append (String.append a b) c = String.append a (String.append b c).
Proof.
  induction a as [| x a IH]; [done |]. by rewrite !append_cons, IH.
Qed.

Lemma append_nil_r (a : string) : String.append a "" = a.
Proof. induction a as [| x a IH]; [done |]. by rewrite append_cons, IH. Qed.

Lemma joined_cons a l : joined (a :: l) = String.append a (joined l).
Proof. reflexivity. Qed.

Lemma joined_app l1 l2 : joined (l1 ++ l2) = String.append (joined l1) (joined l2).
Proof.
  induction l1 as [| a l1 IH]; [done |].
  rewrite <- app_comm_cons, !joined_cons, IH. by rewrite append_assoc.
Qed.

(** Splitting at the spaces and putting a space after every word gives
    back the paragraph and one more space. *)
Lemma split_join (p : string) :
  joined ((fun word => String.append word " ") <$> split " "%char p) = String.append p " ".
Proof.
  induction p as [| c p IH]; [done |]. simpl split.
  destruct (Ascii.eqb_spec c " "%char) as [-> | Hne].
  - rewrite fmap_cons, joined_cons, IH. reflexivity.
  - destruct (split " "%char p) as [| first more] eqn:Hs.
    { by destruct (split_nonempty " "%char p). }
    rewrite fmap_cons, joined_cons in *. rewrite !append_cons. by rewrite IH.
Qed.

Section TextLayoutFacts.

Variable measureText : string -> float.
Variable trim : string -> string.
Variable boxAlignment : Alignment.
Variables maxWidth lineHeight lineX : float.

Local Abbreviation words_ := (wrapWords measureText trim boxAlignment maxWidth lineHeight lineX).
Local Abbreviation draw_ := (drawAlignedLine measureText boxAlignment maxWidth).
Local Abbreviation fits_ := (lineFits measureText maxWidth).

Lemma wrapWords_text (allWords : list string) (words : list string) :
  forall n s,
    0 <= n -> (n = 0 -> line s = "") -> (n > 0 -> fits_ allWords (line s)) ->
    (forall word, word ∈ words -> word ∈ allWords) ->
    exists ls,
      fillText_text <$> calls (words_ n words s) =
        (fillText_text <$> calls s) ++ (trim <$> ls) /\
      String.append (joined ls) (line (words_ n words s)) =
        String.append (line s) (joined ((fun word => String.append word " ") <$> words)) /\
      Forall (fits_ allWords) ls /\
      (words <> [] \/ n > 0 -> fits_ allWords (line (words_ n words s))).
Proof.
  induction words as [| word rest IH]; intros n s Hn H0 Hpos Hin; simpl.
  - exists []. simpl. rewrite app_nil_r, append_nil_r.
    repeat split; [constructor |]. intros [| ]; [done | auto].
  - assert (word ∈ allWords) as Hw by (apply Hin; left).
    assert (forall x, x ∈ rest -> x ∈ allWords) as Hin' by (intros x Hx; apply Hin; by right).
    destruct (PrimFloat.ltb maxWidth
                (measureText (String.append (String.append (line s) word) " "))
              && (n >? 0)) eqn:Hover.
    + assert (wrapWord measureText trim boxAlignment maxWidth lineHeight lineX s n word =
              mkWrap (String.append word " ") (currentY s + lineHeight)%float
                (calls s ++ [draw_ (trim (line s)) lineX (currentY s)])) as ->
        by (unfold wrapWord; by rewrite Hover).
      apply andb_prop in Hover as [_ Hn0]. apply Z.gtb_lt in Hn0.
      edestruct (IH (n + 1)
                   (mkWrap (String.append word " ") (currentY s + lineHeight)%float
                      (calls s ++ [draw_ (trim (line s)) lineX (currentY s)])))
        as (ls & Hc & Hj & Hf & Hl); [lia | lia | | done |].
      { intros _. right. by exists word. }
      exists (line s :: ls). simpl in *. split; [| split; [| split]].
      * rewrite Hc, fmap_app. simpl. by rewrite <- app_assoc.
      * by rewrite append_assoc, Hj.
      * constructor; [apply Hpos; lia | done].
      * intros _. apply Hl. right. lia.
    + assert (wrapWord measureText trim boxAlignment maxWidth lineHeight lineX s n word =
              mkWrap (String.append (String.append (line s) word) " ") (currentY s)
                (calls s)) as ->
        by (unfold wrapWord; by rewrite Hover).
      edestruct (IH (n + 1)
                   (mkWrap (String.append (String.append (line s) word) " ") (currentY s)
                      (calls s)))
        as (ls & Hc & Hj & Hf & Hl); [lia | lia | | done |].
      { intros _. simpl. apply andb_false_iff in Hover as [Hfit | Hn0].
        - by left.
        - right. exists word. split; [done |].
          rewrite H0; [done |]. rewrite Z.gtb_ltb in Hn0. apply Z.ltb_ge in Hn0. lia. }
      exists ls. simpl in *. split; [done |]. split; [| split; [done |]].
      * by rewrite Hj, !append_assoc.
      * intros _. apply Hl. right. lia.
Qed.

(** X20: wrapping loses nothing.  The lines drawn for a paragraph are
    the trimmed pieces of a cut of the paragraph (followed by one space):
    put end to end, the pieces are the paragraph, with no word dropped,
    repeated or reordered.  There is at least one piece, and every piece
    either passed the width test or consists of a single word, which is
    drawn even when it is wider than the box. *)
Theorem wrapParagraph_keeps_text (currentY0 : float) (calls0 : list FillText)
    (paragraph : string) :
  let r := wrapParagraph measureText trim boxAlignment maxWidth lineHeight lineX
             (currentY0, calls0) paragraph in
  exists ls,
    ls <> [] /\
    fillText_text <$> r.2 = (fillText_text <$> calls0) ++ (trim <$> ls) /\
    joined ls = String.append paragraph " " /\
    Forall (fits_ (split " "%char paragraph)) ls.
Proof.
  cbv zeta. unfold wrapParagraph. simpl.
  destruct (wrapWords_text (split " "%char paragraph) (split " "%char paragraph) 0
              (mkWrap "" currentY0 calls0))
    as (ls & Hc & Hj & Hf & Hl); [lia | done | lia | done |].
  simpl in *. exists (ls ++ [line (words_ 0 (split " "%char paragraph)
                                    (mkWrap "" currentY0 calls0))]).
  split; [by destruct ls |]. split; [| split].
  - rewrite !fmap_app, Hc. simpl. by rewrite <- app_assoc.
  - rewrite joined_app, joined_cons. change (joined []) with "".
    rewrite append_nil_r, Hj. apply split_join.
  - apply Forall_app. split; [done |]. constructor; [| constructor].
    apply Hl. left. apply split_nonempty.
Qed.

(** The baselines [y0], [y0 + lineHeight], [y0 + lineHeight + lineHeight], ... *)
Local Abbreviation baselines_ y0 n :=
  ((fun k => Nat.iter k (fun v => (v + lineHeight)%float) y0) <$> seq 0 n).

Lemma baselines_snoc y0 n :
  baselines_ y0 (S n) =
  baselines_ y0 n ++ [Nat.iter n (fun v => (v + lineHeight)%float) y0].
Proof. by rewrite seq_S, fmap_app. Qed.

Lemma wrapWords_baselines y0 (words : list string) :
  forall n s,
    fillText_y <$> calls s = baselines_ y0 (length (calls s)) ->
    currentY s = Nat.iter (length (calls s)) (fun v => (v + lineHeight)%float) y0 ->
    let s' := words_ n words s in
    fillText_y <$> calls s' = baselines_ y0 (length (calls s')) /\
    currentY s' = Nat.iter (length (calls s')) (fun v => (v + lineHeight)%float) y0 /\
    (length (calls s) <= length (calls s'))%nat.
Proof.
  induction words as [| word rest IH]; intros n s Hy Hc; simpl; [done |].
  destruct (PrimFloat.ltb maxWidth
              (measureText (String.append (String.append (line s) word) " "))
            && (n >? 0)) eqn:Hover.
  - assert (wrapWord measureText trim boxAlignment maxWidth lineHeight lineX s n word =
            mkWrap (String.append word " ") (currentY s + lineHeight)%float
              (calls s ++ [draw_ (trim (line s)) lineX (currentY s)])) as ->
      by (unfold wrapWord; by rewrite Hover).
    edestruct (IH (n + 1)
                 (mkWrap (String.append word " ") (currentY s + lineHeight)%float
                    (calls s ++ [draw_ (trim (line s)) lineX (currentY s)])))
      as (H1 & H2 & H3).
    + simpl. rewrite length_app. simpl. rewrite Nat.add_1_r, baselines_snoc.
      rewrite fmap_app, Hy. simpl. by rewrite Hc.
    + simpl. rewrite length_app. simpl. rewrite Nat.add_1_r. simpl. by rewrite Hc.
    + simpl in *. split; [done |]. split; [done |].
      rewrite length_app in H3. simpl in H3. lia.
  - assert (wrapWord measureText trim boxAlignment maxWidth lineHeight lineX s n word =
            mkWrap (String.append (String.append (line s) word) " ") (currentY s)
              (calls s)) as ->
      by (unfold wrapWord; by rewrite Hover).
    apply (IH (n + 1)
             (mkWrap (String.append (String.append (line s) word) " ") (currentY s)
                (calls s))); done.
Qed.

Lemma wrapParagraph_baselines y0 (s : float * list FillText) (paragraph : string) :
  fillText_y <$> s.2 = baselines_ y0 (length s.2) ->
  s.1 = Nat.iter (length s.2) (fun v => (v + lineHeight)%float) y0 ->
  let r := wrapParagraph measureText trim boxAlignment maxWidth lineHeight lineX
             s paragraph in
  fillText_y <$> r.2 = baselines_ y0 (length r.2) /\
  r.1 = Nat.iter (length r.2) (fun v => (v + lineHeight)%float) y0 /\
  (S (length s.2) <= length r.2)%nat.
Proof.
  intros Hy Hc. cbv zeta. unfold wrapParagraph.
  destruct (wrapWords_baselines y0 (split " "%char paragraph) 0 (mkWrap "" s.1 s.2))
    as (H1 & H2 & H3); [done | done |].
  simpl in *. rewrite length_app. simpl. rewrite Nat.add_1_r, baselines_snoc.
  rewrite fmap_app, H1. simpl. rewrite H2. split; [done |]. split; [done | lia].
Qed.

Lemma paragraphs_baselines y0 (paragraphs : list string) :
  forall s,
    fillText_y <$> s.2 = baselines_ y0 (length s.2) ->
    s.1 = Nat.iter (length s.2) (fun v => (v + lineHeight)%float) y0 ->
    let r := foldl (wrapParagraph measureText trim boxAlignment maxWidth lineHeight lineX)
               s paragraphs in
    fillText_y <$> r.2 = baselines_ y0 (length r.2) /\
    (length s.2 + length paragraphs <= length r.2)%nat.
Proof.
  induction paragraphs as [| p rest IH]; intros s Hy Hc; simpl.
  - split; [done | lia].
  - destruct (wrapParagraph_baselines y0 s p Hy Hc) as (H1 & H2 & H3).
    destruct (IH _ H1 H2) as (H4 & H5). split; [done | lia].
Qed.

End TextLayoutFacts.

(** X21: the lines of a text box are drawn on successive baselines, one
    line height apart, starting at the top padding: line number k (from
    0) is drawn at [y + padding] plus k times the line height, added one
    at a time, across paragraphs.  Every paragraph, an empty one too,
    takes at least one line. *)
Theorem textCalls_baselines (measureText : string -> float) (trim : string -> string)
    (b : Box) (boxPadding boxFontSize : float) (boxAlignment : Alignment)
    (boxText : string) :
  let drawn := textCalls measureText trim b boxPadding boxFontSize boxAlignment boxText in
  let lineHeight := (boxFontSize * 1.2)%float in
  fillText_y <$> drawn =
    (fun k => Nat.iter k (fun v => (v + lineHeight)%float) (boxY b + boxPadding)%float)
      <$> seq 0 (length drawn) /\
  (length (split "010"%char boxText) <= length drawn)%nat.
Proof.
  cbv zeta. unfold textCalls.
  destruct (paragraphs_baselines measureText trim boxAlignment
              (boxW b - boxPadding * 2)%float (boxFontSize * 1.2)%float
              (boxX b + boxPadding)%float (boxY b + boxPadding)%float
              (split "010"%char boxText) ((boxY b + boxPadding)%float, []))
    as (H1 & H2); [done | done |].
  simpl in *. split; [done | lia].
Qed.

Example textCalls_demo :
  fillText_text <$>
    textCalls demoMeasure demoTrim (mkBox 0 0 100 50) 10 16 align_left
      "the quick brown fox" =
  ["the quick"; "brown fox"].
Proof. vm_compute. reflexivity. Qed.

(** ** The rectangle sampled by the text eraser *)

Section SampleRect.

Variable api : CanvasAPI.

(** The release of a text-eraser drag without a manual color reads
    [sampleRect]. *)
Lemma handlePointerUp_reads_sampleRect (st : Editor) :
  isPanning (gesture st) = false -> isDrawing (gesture st) = true ->
  tool (tools st) = remove_text -> useManualColor (tools st) = false ->
  getImageDataRect api (sampleRect st).1.1.1 (sampleRect st).1.1.2
    (sampleRect st).1.2 (sampleRect st).2 (canvas st) = None ->
  handlePointerUp api st = setIsDrawing false (setLastTouchDistance None st).
Proof.
  intros Hpan Hdraw Htool Hman Hread.
  unfold handlePointerUp. simpl. rewrite Hpan, Hdraw. simpl.
  destruct (_ || _); [done |]. rewrite Htool, Hman.
  unfold sampleRect in Hread. simpl in Hread. by rewrite Hread.
Qed.

End SampleRect.

(** X22: the rectangle the text eraser samples is clamped on each side
    it can be: unless a coordinate is [NaN], its origin is never left of
    or above the canvas ([sampleX] and [sampleY] are at least 0), and its
    extent is at most what remains of the canvas to the right of and
    below that origin.  Nothing keeps the extent positive: a selection
    that starts beyond the right or bottom edge gives a width or height
    of zero or less. *)
Theorem sampleRect_clamped (st : Editor) :
  let '(sampleX, sampleY, sampleW, sampleH) := sampleRect st in
  (PrimFloat.is_nan sampleX = true \/ PrimFloat.leb 0 sampleX = true) /\
  (PrimFloat.is_nan sampleY = true \/ PrimFloat.leb 0 sampleY = true) /\
  (PrimFloat.is_nan sampleW = true \/
   PrimFloat.leb sampleW (num (width (canvas st)) - sampleX) = true) /\
  (PrimFloat.is_nan sampleH = true \/
   PrimFloat.leb sampleH (num (height (canvas st)) - sampleY) = true).
Proof.
  unfold sampleRect. cbv zeta.
  assert (forall v, PrimFloat.is_nan (Math_max 0 v) = true \/
                    PrimFloat.leb 0 (Math_max 0 v) = true) as Hlo.
  { intros v. destruct (Math_max_spec 0 v) as [-> | (_ & _ & _ & H & _)]; auto. }
  assert (forall a b, PrimFloat.is_nan (Math_min a b) = true \/
                      PrimFloat.leb (Math_min a b) a = true) as Hhi.
  { intros a b. destruct (Math_min_spec a b) as [-> | (_ & _ & _ & H & _)]; auto. }
  repeat split; auto.
Qed.

Example sampleRect_beyond_edge :
  let st := setCurrentPos (mkPos 9 1) (setStartPos (mkPos 7 0) demoEditor) in
  sampleRect st = (5, 0, -2, 2)%float.
Proof. vm_compute. reflexivity. Qed.

(** A drag that starts two pixels beyond the right edge of the canvas
    asks for a sample of width 0, which [getImageData] refuses. *)
Example sampleRect_zero_width :
  let st := setCurrentPos (mkPos 6 1) (setStartPos (mkPos 5 0) demoEditor) in
  sampleRect st = (3, 0, 0, 2)%float.
Proof. vm_compute. reflexivity. Qed.

(** ** Handlers that are called twice *)

Section Twice.

Variable api : CanvasAPI.

Lemma handlePointerUp_idle (st : Editor) :
  isPanning (gesture st) = false -> isDrawing (gesture st) = false ->
  lastTouchDistance (gesture st) = None ->
  handlePointerUp api st = st.
Proof.
  intros Hp Hd Hl. unfold handlePointerUp. simpl. rewrite Hp, Hd. simpl.
  destruct st as [c x hs v [dr pn lp ld sp cp] t]. simpl in *. by subst.
Qed.

Lemma gesture_setFillStyle v st : gesture (setFillStyle v st) = gesture st.
Proof. unfold setFillStyle. by destruct (validStyle v). Qed.

Lemma handlePointerUp_settles (st : Editor) :
  isPanning (gesture st) && isDrawing (gesture st) = false ->
  let st' := handlePointerUp api st in
  isPanning (gesture st') = false /\ isDrawing (gesture st') = false /\
  lastTouchDistance (gesture st') = None.
Proof.
  intros Hpd. unfold handlePointerUp. simpl.
  destruct (isPanning (gesture st)) eqn:Hp; [by simpl in * |].
  destruct (isDrawing (gesture st)) eqn:Hd; [| by simpl]. simpl.
  destruct (_ || _); [by simpl; rewrite Hp |].
  destruct (tool (tools st)); simpl; rewrite ?gesture_setFillStyle; simpl;
    try (by rewrite Hp).
  destruct (useManualColor (tools st)); simpl; rewrite ?gesture_setFillStyle; simpl;
    try (by rewrite Hp).
  destruct (getImageDataRect _ _ _ _ _ _); simpl; try (by rewrite Hp).
  destruct (inferBgColor _ _ _) as [[r g] b]. simpl.
  rewrite gesture_setFillStyle. simpl. by rewrite Hp.
Qed.

(** X23: a release is handled once.  [handlePointerUp] is attached to
    both mouse-up and mouse-leave; unless a pan had been started in the
    middle of a drawing gesture, calling it a second time changes
    nothing, so releasing the button and then leaving the editing surface
    paints and commits one time only. *)
Theorem pointer_up_twice (st : Editor) :
  isPanning (gesture st) && isDrawing (gesture st) = false ->
  handlePointerUp api (handlePointerUp api st) = handlePointerUp api st.
Proof.
  intros Hpd. destruct (handlePointerUp_settles st Hpd) as (Hp & Hd & Hl).
  by apply handlePointerUp_idle.
Qed.

(** X24: a text box is committed once.  [commitTextBox] without a
    pending box returns the state as it is; with one, it pushes exactly
    one snapshot, the canvas with the box drawn, closes the dialog and
    clears the pending box, so a second call right after is the first
    case: a double click on the confirm button draws and commits one
    box. *)
Theorem commitTextBox_once (st : Editor) :
  let st' := commitTextBox api st in
  commitTextBox api st' = st' /\
  pendingTextBox (tools st') = None /\
  (st' = st \/
   (isEnteringText (tools st') = false /\ ctx st' = ctx st /\
    history (hist st') =
      slice0 (history (hist st)) (historyIndex (hist st) + 1) ++ [canvas st'] /\
    historyIndex (hist st') = Z.of_nat (length (history (hist st'))) - 1)).
Proof.
  cbv zeta. destruct (pendingTextBox (tools st)) as [b |] eqn:Hb.
  - assert (commitTextBox api st =
            setPendingTextBox None
              (setIsEnteringText false
                 (saveState (withCanvas (drawTextBox api b (ctx st) (canvas st)) st))))
      as -> by (unfold commitTextBox; by rewrite Hb).
    split; [reflexivity |]. split; [reflexivity |]. right. simpl.
    by rewrite getImageData_id.
  - assert (commitTextBox api st = st) as -> by (unfold commitTextBox; by rewrite Hb).
    split; [unfold commitTextBox; by rewrite Hb |]. split; [done | by left].
Qed.

End Twice.

Lemma pointer_up_twice_witness :
  let down := handle nullAPI demoEnv (PointerDown (MouseEvent 0 0 0))
                (selectTool eraser demoEditor) in
  let st := handle nullAPI demoEnv (PointerMove (MouseEvent 2 1 0)) down in
  length (history (hist (handlePointerUp nullAPI st))) = 2%nat /\
  handlePointerUp nullAPI (handlePointerUp nullAPI st) = handlePointerUp nullAPI st.
Proof.
  split; [vm_compute; reflexivity |].
  apply (pointer_up_twice nullAPI
           (handle nullAPI demoEnv (PointerMove (MouseEvent 2 1 0))
              (handle nullAPI demoEnv (PointerDown (MouseEvent 0 0 0))
                 (selectTool eraser demoEditor)))).
  vm_compute. reflexivity.
Defined.

(** ** Developer mode *)

(** X25: developer mode is unlocked by the fifth click and by no
    earlier one, and clicking never switches it off: after [n] clicks
    from a fresh counter the click count is [n], and the mode is on
    exactly when it was on before (restored from storage) or [n] is at
    least 5. *)
Theorem handleDevClick_unlocks_at_five (n : nat) (saved : bool) :
  Nat.iter n handleDevClick (mkDevState 0 saved) =
  mkDevState (Z.of_nat n) (saved || (5 <=? Z.of_nat n)).
Proof.
  induction n as [| n IH].
  - simpl. by rewrite orb_false_r.
  - rewrite Nat.iter_succ, IH. unfold handleDevClick. simpl devClicks.
    simpl isDeveloperMode.
    replace (Z.of_nat n + 1) with (Z.of_nat (S n)) by lia.
    rewrite Z.geb_leb.
    destruct saved; simpl.
    + by rewrite andb_false_r.
    + destruct (Z.leb_spec 5 (Z.of_nat (S n))), (Z.leb_spec 5 (Z.of_nat n));
        simpl; try done; lia.
Qed.
